(** * XDB: the parallel ingestion-and-load engine of XLSX-split

    A shallow embedding of the parts of [src/XDB.py] that decide the
    specification's claims: identifier sanitisation, sample type inference,
    the chunk worker's error handling, index-keyed reassembly, the two
    backends' [write_data] and the transform-rule resolver.

    Python values are modelled as the interpreter has them: a [str] is a
    sequence of code points, an [int] is unbounded, a [float] is a binary64
    (the kernel's primitive floats), an exception is a value of [result].
    What the interpreter and its libraries supply (the Unicode database
    beyond ASCII, [hashlib.md5], [repr] of a float, [strftime], pandas) is
    gathered in the class [PyRuntime]; every definition computes on ASCII
    input whatever the instance. *)

From Stdlib Require Import ZArith NArith List String Ascii Bool Lia.
From Stdlib Require Import Uint63 PrimFloat FloatOps SpecFloat.
From Stdlib Require Import DecimalString DecimalPos DecimalZ.
From stdpp Require Import base option list gmap sorting.

Set Warnings "-inexact-float,-clear-no-such-hyp,-abstract-large-number".
Local Open Scope Z_scope.

(** ** Python strings, exceptions, cell values *)

(** A [str]: its code points, in order. *)
Abbreviation pystr := (list N).

(** The code points of an ASCII literal. *)
Definition lit (s : string) : pystr :=
  List.map N_of_ascii (list_ascii_of_string s).

Definition pystr_eqb (a b : pystr) : bool := bool_decide (a = b).

Inductive exn :=
| ValueError
| IndexError
| UnicodeEncodeError
| DatabaseError
| OtherError.

Inductive result (A : Type) :=
| Ok (a : A)
| Raise (e : exn).
Arguments Ok {A} a.
Arguments Raise {A} e.

#[global] Instance result_ret : MRet result := fun _ a => Ok a.
#[global] Instance result_bind : MBind result := fun _ _ k r =>
  match r with
  | Ok a => k a
  | Raise e => Raise e
  end.

#[global] Instance result_fmap : FMap result := fun _ _ f r =>
  match r with
  | Ok a => Ok (f a)
  | Raise e => Raise e
  end.

(** [try: r  except Exception: h] *)
Definition try_except {A} (r : result A) (h : exn -> result A) : result A :=
  match r with
  | Ok a => Ok a
  | Raise e => h e
  end.

(** A cell as pandas hands it over: [None], a [bool], an [int], a [float]
    (NaN for a missing cell), a [str], or a [Timestamp] (nanoseconds since
    the epoch). *)
Inductive pyval :=
| VNone
| VBool (b : bool)
| VInt (z : Z)
| VFloat (f : float)
| VStr (s : pystr)
| VTimestamp (t : Z).

Abbreviation row := (list pyval).

(** What the interpreter and its libraries supply. The Unicode fields are
    consulted for code points from 128 on only. *)
Class PyRuntime := {
  (** [str.isalnum] and [str.isalpha] of one character *)
  uni_isalnum : N -> bool;
  uni_isalpha : N -> bool;
  (** the value of a decimal digit (category Nd) *)
  uni_decimal : N -> option N;
  (** [str.upper] of one character, [str.lower] of a string *)
  uni_upper : N -> pystr;
  uni_lower : pystr -> pystr;
  (** [unicodedata.category(c) in ('Cc', 'Cf')] *)
  uni_control : N -> bool;
  (** [hashlib.md5(bytes).digest()], as a 128-bit number *)
  md5 : list N -> N;
  (** [repr] of a float, [float] of a numeric literal *)
  float_repr : float -> pystr;
  float_of_literal : pystr -> result float;
  (** [sys.get_int_max_str_digits()], 4300 unless the interpreter is told
      otherwise; [None] when it is 0 or the interpreter has no such
      limit *)
  int_max_str_digits : option nat;
  (** [str], [strftime] of a Timestamp; [datetime.strptime(s, '%Y-%m-%d')] *)
  timestamp_str : Z -> pystr;
  strftime : Z -> pystr -> result pystr;
  strptime_ymd : pystr -> result Z
}.

(** A runtime that knows ASCII only, for running the definitions on
    ASCII data: no character beyond ASCII is classified, the digest is a
    checksum, a float prints as [nan], a Timestamp as its number. *)
Definition ascii_runtime : PyRuntime := {|
  uni_isalnum := fun _ => false;
  uni_isalpha := fun _ => false;
  uni_decimal := fun _ => None;
  uni_upper := fun c => [c];
  uni_lower := fun s => s;
  uni_control := fun _ => false;
  md5 := fun bytes => foldr N.add 0%N bytes;
  float_repr := fun _ => lit "nan";
  float_of_literal := fun _ => Raise ValueError;
  int_max_str_digits := Some 4300%nat;
  timestamp_str := fun t => lit (NilZero.string_of_int (Z.to_int t));
  strftime := fun t _ => Ok (lit (NilZero.string_of_int (Z.to_int t)));
  strptime_ymd := fun _ => Raise ValueError
|}.

(** ** The built-in string methods the code calls *)

Section Builtins.
Context `{PyRuntime}.

Definition is_ascii (c : N) : bool := (c <? 128)%N.
Definition in_range (lo hi c : N) : bool := ((lo <=? c) && (c <=? hi))%N.
Definition ascii_isupper := in_range 65 90.
Definition ascii_islower := in_range 97 122.
Definition ascii_isdigit := in_range 48 57.
Definition ascii_isalpha (c : N) : bool := ascii_isupper c || ascii_islower c.

(** [c.isalpha()] *)
Definition isalpha (c : N) : bool :=
  if is_ascii c then ascii_isalpha c else uni_isalpha c.

(** [c.isalnum()] *)
Definition isalnum (c : N) : bool :=
  if is_ascii c then ascii_isalpha c || ascii_isdigit c else uni_isalnum c.

(** The characters [str.strip()] removes: CPython's
    [_PyUnicode_IsWhitespace]. *)
Definition isspace (c : N) : bool :=
  (in_range 9 13 c || in_range 28 32 c || (c =? 133) || (c =? 160)
   || (c =? 5760) || in_range 8192 8202 c || (c =? 8232) || (c =? 8233)
   || (c =? 8239) || (c =? 8287) || (c =? 12288))%N.

(** The value of a character matched by [\d] or accepted by [int()] *)
Definition decimal_value (c : N) : option N :=
  if is_ascii c then (if ascii_isdigit c then Some (c - 48)%N else None)
  else uni_decimal c.
Definition isdecimal (c : N) : bool :=
  match decimal_value c with Some _ => true | None => false end.

(** [\w] of [re] on a [str] pattern *)
Definition re_word (c : N) : bool := isalnum c || (c =? 95)%N.

(** The range U+4E00..U+9FFF the code's patterns name. *)
Definition is_cjk := in_range 19968 40959.

Fixpoint lstrip_by (p : N -> bool) (s : pystr) : pystr :=
  match s with
  | c :: t => if p c then lstrip_by p t else s
  | [] => []
  end.
Definition rstrip_by (p : N -> bool) (s : pystr) : pystr :=
  rev (lstrip_by p (rev s)).
Definition strip_by (p : N -> bool) (s : pystr) : pystr :=
  rstrip_by p (lstrip_by p s).

(** [s.strip()] *)
Definition strip : pystr -> pystr := strip_by isspace.
(** [s.strip(chars)], [s.rstrip(chars)] *)
Definition mem_char (cs : pystr) (c : N) : bool := existsb (N.eqb c) cs.
Definition strip_chars (cs s : pystr) : pystr := strip_by (mem_char cs) s.
Definition rstrip_chars (cs s : pystr) : pystr := rstrip_by (mem_char cs) s.

Definition ascii_upper (c : N) : N := if ascii_islower c then (c - 32)%N else c.
Definition ascii_lower (c : N) : N := if ascii_isupper c then (c + 32)%N else c.

(** [s.upper()]: ASCII by the table; U+4E00..U+9FFF has no case. *)
Definition upper (s : pystr) : pystr :=
  flat_map (fun c => if is_ascii c then [ascii_upper c]
                     else if is_cjk c then [c] else uni_upper c) s.

(** [s.lower()] *)
Definition lower (s : pystr) : pystr :=
  if forallb is_ascii s then List.map ascii_lower s else uni_lower s.

(** [p in s] for strings, [s.startswith(p)], [s.endswith(p)] *)
Fixpoint startswith (p s : pystr) : bool :=
  match p, s with
  | [], _ => true
  | _ :: _, [] => false
  | a :: p', b :: s' => (a =? b)%N && startswith p' s'
  end.
Fixpoint contains (p s : pystr) : bool :=
  startswith p s || match s with [] => false | _ :: s' => contains p s' end.
Definition endswith (p s : pystr) : bool := startswith (rev p) (rev s).

(** [s.split(sep, 1)] for a one-character separator: one part when [sep]
    does not occur, else what precedes and what follows its first
    occurrence. *)
Fixpoint split1 (sep : N) (s : pystr) : pystr * option pystr :=
  match s with
  | [] => ([], None)
  | c :: t =>
      if (c =? sep)%N then ([], Some t)
      else let '(a, b) := split1 sep t in (c :: a, b)
  end.

(** [s.replace(old, new)]: left to right, non-overlapping; an empty [old]
    matches before every character and at the end. *)
Fixpoint replace_go (old new : pystr) (skip : nat) (s : pystr) : pystr :=
  match s with
  | [] => []
  | c :: t =>
      match skip with
      | S k => replace_go old new k t
      | O => if startswith old s
             then new ++ replace_go old new (length old - 1) t
             else c :: replace_go old new O t
      end
  end.
Definition replace (old new s : pystr) : pystr :=
  match old with
  | [] => new ++ flat_map (fun c => c :: new) s
  | _ => replace_go old new O s
  end.

(** [str(n)] for an int *)
Definition str_of_Z (z : Z) : pystr := lit (NilZero.string_of_int (Z.to_int z)).

(** The text of [str(x)] *)
Definition py_str (x : pyval) : pystr :=
  match x with
  | VNone => lit "None"
  | VBool true => lit "True"
  | VBool false => lit "False"
  | VInt z => str_of_Z z
  | VFloat f => float_repr f
  | VStr s => s
  | VTimestamp t => timestamp_str t
  end.
(** [str(x)] and [format(x)] raise ValueError for an int with more digits
    than the interpreter's limit, and for no other value. *)
Definition str_fails (x : pyval) : bool :=
  match x, int_max_str_digits with
  | VInt z, Some limit => (limit <? length (str_of_Z (Z.abs z)))%nat
  | _, _ => false
  end.

(** [str(x)] *)
Definition str (x : pyval) : result pystr :=
  if str_fails x then Raise ValueError else Ok (py_str x).
End Builtins.

(** ** Transform rules: [apply_column_transformation] *)

Section Transform.
Context `{PyRuntime}.

Definition apply_column_transformation (excel_value : pyval)
    (transform_rule : pystr) : result pyval :=
  match transform_rule, excel_value with
  | [], _ => Ok excel_value
  | _, VNone => Ok excel_value
  | _, _ =>
      let rule_parts := split1 58 transform_rule in
      let rule_name := lower (fst rule_parts) in
      if pystr_eqb rule_name (lit "uppercase") then
        s ← str excel_value; Ok (VStr (upper s))
      else if pystr_eqb rule_name (lit "lowercase") then
        s ← str excel_value; Ok (VStr (lower s))
      else if pystr_eqb rule_name (lit "trim") then
        s ← str excel_value; Ok (VStr (strip s))
      else match snd rule_parts with
      | None => Ok excel_value
      | Some arg =>
          if pystr_eqb rule_name (lit "prefix") then
            s ← str excel_value; Ok (VStr (arg ++ s))
          else if pystr_eqb rule_name (lit "suffix") then
            s ← str excel_value; Ok (VStr (s ++ arg))
          else if pystr_eqb rule_name (lit "replace") then
            (* old, new = rule_parts[1].split(',', 1) *)
            match split1 44 arg with
            | (old, Some new) =>
                s ← str excel_value; Ok (VStr (replace old new s))
            | (_, None) => Raise ValueError
            end
          else if pystr_eqb rule_name (lit "date_format") then
            (* try: ... except: return excel_value *)
            try_except
              (match excel_value with
               | VTimestamp t => s ← strftime t arg; Ok (VStr s)
               | _ => text ← str excel_value;
                      t ← strptime_ymd text;
                      s ← strftime t arg; Ok (VStr s)
               end)
              (fun _ => Ok excel_value)
          else Ok excel_value
      end
  end.
End Transform.

(** ** The coordinator of [file_to_database]: index-keyed reassembly *)

Module Coordinator.

(** What [future.result()] yields: [(chunk_id, chunk_data)]. *)
Definition chunk_result : Type := nat * list row.

(** The coordinator's buffer and its row counter. *)
Record collector := {
  data_chunks_dict : gmap nat (list row);
  processed_rows : nat
}.

(** One turn of the [as_completed] loop: an empty chunk is not stored. *)
Definition store (c : collector) (r : chunk_result) : collector :=
  match r.2 with
  | [] => c
  | chunk_data =>
      {| data_chunks_dict := <[r.1 := chunk_data]> (data_chunks_dict c);
         processed_rows := (processed_rows c + length chunk_data)%nat |}
  end.

(** The loop over the futures, in the order they complete. *)
Definition collect (completed : list chunk_result) : collector :=
  foldl store {| data_chunks_dict := ∅; processed_rows := 0 |} completed.

(** [sorted(data_chunks_dict.items())]: the keys of a dict are distinct,
    so the comparison of two items is decided by their keys. *)
Definition key_le : relation chunk_result := fun a b => (a.1 ≤ b.1)%nat.

#[export] Instance key_le_dec a b : Decision (key_le a b).
Proof. unfold key_le. apply _. Defined.
#[export] Instance key_le_total : Total key_le.
Proof. intros a b. unfold key_le. lia. Qed.
#[export] Instance key_le_trans : Transitive key_le.
Proof. intros a b c. unfold key_le. lia. Qed.

Definition sorted_chunks (d : gmap nat (list row)) : list chunk_result :=
  merge_sort key_le (map_to_list d).

(** [chunk_data_only], the argument of [db.write_data]. *)
Definition chunk_data_only (completed : list chunk_result) : list (list row) :=
  (sorted_chunks (data_chunks_dict (collect completed))).*2.

(** The rows the write step sees, in the order it sees them. *)
Definition rows_written (completed : list chunk_result) : list row :=
  concat (chunk_data_only completed).

(** The results of the workers, chunk [i] at position [i]. *)
Definition tagged (results : list (list row)) : list chunk_result :=
  imap (fun i d => (i, d)) results.

(** The row window of task [chunk_id]: [chunk_size] rows after the
    [chunk_id * chunk_size] skipped ones. *)
Definition window (chunk_size : nat) (rows : list row) (chunk_id : nat) : list row :=
  take chunk_size (drop (chunk_id * chunk_size) rows).

(** [total_chunks = (estimated_rows + chunk_size - 1) // chunk_size] *)
Definition total_chunks (estimated_rows chunk_size : nat) : nat :=
  ((estimated_rows + chunk_size - 1) / chunk_size)%nat.

Definition windows (chunk_size : nat) (rows : list row) : list (list row) :=
  window chunk_size rows <$> seq 0 (total_chunks (length rows) chunk_size).

End Coordinator.

(** ** The relational backends: [write_data] *)

(** A connection as the code sees it: the rows made durable by a commit,
    the rows of the transaction in flight, whether one is open, and the
    statements executed so far. *)
Inductive event :=
| EBegin
| EInsert (n : nat)
| ECommit
| ERollback.

Record conn := {
  durable : list row;
  pending : list row;
  in_txn : bool;
  trace : list event
}.

(** The rows in flight after the statements [tr], [cur] being in flight
    before them. *)
Fixpoint open_rows (cur : nat) (tr : list event) : nat :=
  match tr with
  | [] => cur
  | EInsert n :: t => open_rows (cur + n) t
  | _ :: t => open_rows 0 t
  end.

(** The largest number of rows a single transaction holds in the course
    of [tr]. *)
Fixpoint txn_peak (cur : nat) (tr : list event) : nat :=
  Nat.max cur
    match tr with
    | [] => 0
    | EInsert n :: t => txn_peak (cur + n) t
    | _ :: t => txn_peak 0 t
    end.

(** A statement either fails, leaving the connection as it was, or
    succeeds on a new connection state. *)
Definition db (A : Type) : Type := conn → result A * conn.

(** [val is None or (isinstance(val, float) and val != val) or pd.isna(val)] *)
Definition is_nan_fast (val : pyval) : bool :=
  match val with
  | VNone => true
  | VFloat f => PrimFloat.is_nan f
  | _ => false
  end.

(** [row[i]] *)
Definition getitem (r : row) (i : nat) : result pyval :=
  match r !! i with
  | Some v => Ok v
  | None => Raise IndexError
  end.

(** A field mapping: source header to target column. [None] and the empty
    dict are both falsy and are both the empty map here. *)
Definition mapping := gmap pystr pystr.

(** [if field_mapping:] *)
Definition truthy_mapping (field_mapping : mapping) : bool :=
  bool_decide (field_mapping ≠ ∅).

(** [[i for i, h in enumerate(headers) if h in field_mapping]] *)
Definition mapped_indices (headers : list pystr) (field_mapping : mapping) : list nat :=
  omap (fun ih => if bool_decide (is_Some (field_mapping !! ih.2)) then Some ih.1 else None)
       (imap (fun i h => (i, h)) headers).

(** [range(0, n, step)] *)
Definition range_step (n step : nat) : list nat :=
  (fun k => (k * step)%nat) <$> seq 0 ((n + step - 1) / step).

(** [l[i:i+n]] *)
Definition slice (l : list row) (i n : nat) : list row := take n (drop i l).

Section Cursor.
Context `{PyRuntime}.
(** Whether the engine accepts a batch of rows (a constraint, a type or a
    connection error makes [executemany] raise). *)
Variable accepts : conn → list row → bool.

(** [is_nan_or_empty]: the last test calls [str] on what is left, an int,
    a bool or a Timestamp. *)
Definition is_nan_or_empty (value : pyval) : result bool :=
  match value with
  | VNone => Ok true
  | VFloat f => Ok (PrimFloat.is_nan f)
  | VStr s =>
      match strip s with
      | [] => Ok true
      | _ => Ok (bool_decide (lower s ∈ [lit "nan"; lit "none"; lit "null"]))
      end
  | _ =>
      text ← str value;
      Ok (bool_decide (lower text ∈ [lit "nan"; lit "none"; lit "null"]))
  end.

(** [cursor.executemany(insert_sql, rows)] *)
Definition executemany (rows : list row) : db unit := fun c =>
  if accepts c rows
  then (Ok (), {| durable := durable c; pending := pending c ++ rows;
                  in_txn := in_txn c; trace := trace c ++ [EInsert (length rows)] |})
  else (Raise DatabaseError, c).

End Cursor.

Module SQLite.
Section WithEngine.
Context `{PyRuntime}.
Variable accepts : conn → list row → bool.

Definition max_batch_size : nat := 50000.

(** [cursor.execute("BEGIN TRANSACTION")]: an error inside a transaction. *)
Definition begin_transaction : db unit := fun c =>
  if in_txn c then (Raise DatabaseError, c)
  else (Ok (), {| durable := durable c; pending := []; in_txn := true;
                  trace := trace c ++ [EBegin] |}).

(** [cursor.execute("COMMIT")]: an error when no transaction is active. *)
Definition commit : db unit := fun c =>
  if in_txn c
  then (Ok (), {| durable := durable c ++ pending c; pending := []; in_txn := false;
                  trace := trace c ++ [ECommit] |})
  else (Raise DatabaseError, c).

(** [cursor.execute("ROLLBACK")] *)
Definition rollback : db unit := fun c =>
  if in_txn c
  then (Ok (), {| durable := durable c; pending := []; in_txn := false;
                  trace := trace c ++ [ERollback] |})
  else (Raise DatabaseError, c).

(** The row sent for [row] under a field mapping: for each header that is
    mapped, in header order, [row[i]], or [None] when it is blank. *)
Definition filtered_row (headers : list pystr) (field_mapping : mapping)
    (r : row) : result row :=
  mapM (fun i => val ← getitem r i;
                 blank ← is_nan_or_empty val;
                 Ok (if (blank : bool) then VNone else val))
       (mapped_indices headers field_mapping).

(** The rows of one chunk as they are sent to [executemany]. *)
Definition chunk_rows (headers : list pystr) (field_mapping : mapping)
    (chunk_data : list row) : result (list row) :=
  if truthy_mapping field_mapping
  then mapM (filtered_row headers field_mapping) chunk_data
  else Ok chunk_data.

(** The body of the [for chunk_data in data_chunks] loop, threading
    [(total_rows, batch_size)]. *)
Definition write_chunk (headers : list pystr) (field_mapping : mapping)
    (chunk_data : list row) (st : nat * nat) : db (nat * nat) := fun c =>
  match chunk_data with
  | [] => (Ok st, c)
  | _ =>
      match chunk_rows headers field_mapping chunk_data with
      | Raise e => (Raise e, c)
      | Ok rows =>
          match executemany accepts rows c with
          | (Raise e, c1) => (Raise e, c1)
          | (Ok _, c1) =>
              let total_rows := (st.1 + length rows)%nat in
              let batch_size := (st.2 + length rows)%nat in
              if bool_decide (max_batch_size ≤ batch_size)%nat then
                match commit c1 with
                | (Raise e, c2) => (Raise e, c2)
                | (Ok _, c2) =>
                    match begin_transaction c2 with
                    | (Raise e, c3) => (Raise e, c3)
                    | (Ok _, c3) => (Ok (total_rows, 0%nat), c3)
                    end
                end
              else (Ok (total_rows, batch_size), c1)
          end
      end
  end.

Fixpoint write_chunks (headers : list pystr) (field_mapping : mapping)
    (data_chunks : list (list row)) (st : nat * nat) : db (nat * nat) := fun c =>
  match data_chunks with
  | [] => (Ok st, c)
  | chunk_data :: rest =>
      match write_chunk headers field_mapping chunk_data st c with
      | (Raise e, c1) => (Raise e, c1)
      | (Ok st1, c1) => write_chunks headers field_mapping rest st1 c1
      end
  end.

(** [SQLiteDatabase.write_data], from [cursor = self.conn.cursor()] on:
    the transaction, the loop, the final commit; on an exception the
    rollback (its own failure swallowed) and the exception raised again. *)
Definition write_data (headers : list pystr) (data_chunks : list (list row))
    (field_mapping : mapping) : db nat := fun c =>
  let attempt :=
    match begin_transaction c with
    | (Raise e, c1) => (Raise e, c1)
    | (Ok _, c1) =>
        match write_chunks headers field_mapping data_chunks (0%nat, 0%nat) c1 with
        | (Raise e, c2) => (Raise e, c2)
        | (Ok st, c2) =>
            match commit c2 with
            | (Raise e, c3) => (Raise e, c3)
            | (Ok _, c3) => (Ok st.1, c3)
            end
        end
    end in
  match attempt with
  | (Ok total_rows, c') => (Ok total_rows, c')
  | (Raise e, c') => (Raise e, (rollback c').2)
  end.

End WithEngine.
End SQLite.

(** *** The transactions of the embedded backend, told from the rows sent *)

(** The rows the threshold commits have made durable once the chunks
    [sent] are inserted, [uncommitted] being the rows in flight before
    them: a commit follows the chunk with which the rows in flight reach
    [max_batch_size], and makes them all durable. *)
Fixpoint committed (uncommitted : list row) (sent : list (list row)) : list row :=
  match sent with
  | [] => []
  | rows :: rest =>
      if bool_decide (SQLite.max_batch_size ≤ length uncommitted + length rows)%nat
      then uncommitted ++ rows ++ committed [] rest
      else committed (uncommitted ++ rows) rest
  end.

(** The statements that insert the chunks [sent], [in_flight] rows being
    in flight before them: one INSERT per chunk, and COMMIT, BEGIN after
    the chunk with which the rows in flight reach [max_batch_size]. *)
Fixpoint statements (in_flight : nat) (sent : list (list row)) : list event :=
  match sent with
  | [] => []
  | rows :: rest =>
      if bool_decide (SQLite.max_batch_size ≤ in_flight + length rows)%nat
      then EInsert (length rows) :: ECommit :: EBegin :: statements 0 rest
      else EInsert (length rows) :: statements (in_flight + length rows) rest
  end.


Module MySQL.
Section WithEngine.
Variable accepts : conn → list row → bool.

Definition batch_size : nat := 5000.

(** [conn.commit()], [conn.rollback()]: PyMySQL keeps a transaction open
    between them. *)
Definition commit : db unit := fun c =>
  (Ok (), {| durable := durable c ++ pending c; pending := []; in_txn := in_txn c;
             trace := trace c ++ [ECommit] |}).
Definition rollback : db unit := fun c =>
  (Ok (), {| durable := durable c; pending := []; in_txn := in_txn c;
             trace := trace c ++ [ERollback] |}).

(** [all_data]: the chunks, the empty ones skipped, one after the other. *)
Definition all_data (data_chunks : list (list row)) : list row :=
  concat (filter (fun chunk_data => chunk_data ≠ []) data_chunks).

Definition nan_to_none (val : pyval) : pyval :=
  if is_nan_fast val then VNone else val.

(** [filtered_data] *)
Definition filtered_data (headers : list pystr) (field_mapping : mapping)
    (rows : list row) : result (list row) :=
  let indices := mapped_indices headers field_mapping in
  if truthy_mapping field_mapping && bool_decide (indices ≠ [])
  then mapM (fun r : row => mapM (fun i => nan_to_none <$> getitem r i) indices)
            (filter (fun r : row => (max_list indices < length r)%nat) rows)
  else Ok ((fun r : row => nan_to_none <$> r) <$> rows).

(** What [filtered_data] holds for a row that is long enough: its mapped
    cells, in header order, NaN turned into [None]. *)
Definition select (indices : list nat) (r : row) : row :=
  (fun i => nan_to_none (default VNone (r !! i))) <$> indices.

(** The batch loop, threading [(total_rows, processed_batches)]. *)
Fixpoint write_batches (filtered : list row) (starts : list nat)
    (st : nat * nat) : db (nat * nat) := fun c =>
  match starts with
  | [] => (Ok st, c)
  | i :: rest =>
      let batch := slice filtered i batch_size in
      match executemany accepts batch c with
      | (Raise e, c1) => (Raise e, c1)
      | (Ok _, c1) =>
          let total_rows := (st.1 + length batch)%nat in
          let processed_batches := (st.2 + 1)%nat in
          let c2 :=
            if bool_decide (processed_batches mod 10 = 0)%nat
               || bool_decide (length filtered ≤ i + batch_size)%nat
            then (commit c1).2 else c1 in
          write_batches filtered rest (total_rows, processed_batches) c2
      end
  end.

(** [MySQLDatabase.write_data], from the cursor on; on an exception the
    rollback and the exception raised again. *)
Definition write_data (headers : list pystr) (data_chunks : list (list row))
    (field_mapping : mapping) : db nat := fun c =>
  let attempt :=
    match all_data data_chunks with
    | [] => (Ok 0%nat, c)
    | rows =>
        match filtered_data headers field_mapping rows with
        | Raise e => (Raise e, c)
        | Ok filtered =>
            match write_batches filtered (range_step (length filtered) batch_size)
                    (0%nat, 0%nat) c with
            | (Raise e, c1) => (Raise e, c1)
            | (Ok st, c1) => (Ok st.1, c1)
            end
        end
    end in
  match attempt with
  | (Ok total_rows, c') => (Ok total_rows, c')
  | (Raise e, c') => (Raise e, (rollback c').2)
  end.

End WithEngine.
End MySQL.

(** The statements [MySQLDatabase.write_data] has sent when it comes to
    batch [j], every batch before it accepted and none of them the last:
    an insert per batch, a commit after every tenth. *)
Fixpoint batch_statements (j : nat) : list event :=
  match j with
  | O => []
  | S k =>
      batch_statements k
      ++ EInsert MySQL.batch_size
         :: (if bool_decide (S k mod 10 = 0)%nat then [ECommit] else [])
  end.

(** The connection as [executemany] finds it at batch [j] of [filtered],
    the write having begun at [c] with nothing pending: the completed
    groups of ten batches are durable, the batches since are pending. *)
Definition before_batch (c : conn) (filtered : list row) (j : nat) : conn :=
  {| durable := durable c ++ take (j / 10 * (10 * MySQL.batch_size)) filtered;
     pending := drop (j / 10 * (10 * MySQL.batch_size))
                  (take (j * MySQL.batch_size) filtered);
     in_txn := in_txn c;
     trace := trace c ++ batch_statements j |}.

(** ** Sample type inference *)

(** *** Numbers as the interpreter has them *)

(** [float(n)] for the length of a list (exact below 2^53). *)
Definition float_of_nat (n : nat) : float :=
  PrimFloat.of_uint63 (Uint63.of_Z (Z.of_nat n)).

(** [int(f)]: truncation toward zero of a finite float. *)
Definition int_of_float (f : float) : Z :=
  match Prim2SF f with
  | S754_finite s m e =>
      let v := if (0 <=? e)%Z then Z.pos m * 2 ^ e else Z.pos m / 2 ^ (- e) in
      if s then - v else v
  | _ => 0
  end.

(** The integer a float is equal to, if any. *)
Definition float_integer (f : float) : option Z :=
  match Prim2SF f with
  | S754_zero _ => Some 0
  | S754_finite s m e =>
      if (0 <=? e)%Z then Some ((if s then -1 else 1) * (Z.pos m * 2 ^ e))
      else if (Z.pos m mod 2 ^ (- e) =? 0)%Z
           then Some ((if s then -1 else 1) * (Z.pos m / 2 ^ (- e)))
           else None
  | _ => None
  end.

(** [f.is_integer()] *)
Definition float_is_integer (f : float) : bool :=
  match float_integer f with Some _ => true | None => false end.

(** The [int] a [bool] is. *)
Definition Z_of_bool (b : bool) : Z := if b then 1 else 0.

(** [x == y] as [set] applies it to two cells. Numbers compare by value
    across [bool], [int] and [float]; a NaN equals nothing. The identity
    of objects is not modelled. *)
Definition py_eqb (x y : pyval) : bool :=
  let num (v : pyval) : option (Z + float) :=
    match v with
    | VBool b => Some (inl (Z_of_bool b))
    | VInt z => Some (inl z)
    | VFloat f => Some (inr f)
    | _ => None
    end in
  match num x, num y with
  | Some (inl a), Some (inl b) => (a =? b)%Z
  | Some (inl a), Some (inr g) | Some (inr g), Some (inl a) =>
      match float_integer g with Some b => (a =? b)%Z | None => false end
  | Some (inr f), Some (inr g) => PrimFloat.eqb f g
  | _, _ =>
      match x, y with
      | VNone, VNone => true
      | VStr s, VStr t => bool_decide (s = t)
      | VTimestamp s, VTimestamp t => (s =? t)%Z
      | _, _ => false
      end
  end.

(** [set(l)], in the order of first occurrence. *)
Definition set_add (seen : list pyval) (x : pyval) : list pyval :=
  if existsb (py_eqb x) seen then seen else seen ++ [x].
Definition py_set (l : list pyval) : list pyval := foldl set_add [] l.

(** *** A matcher for the patterns of [re.match] the code uses *)

Inductive atom :=
| Digit                (* \d *)
| Word                 (* \w *)
| Char (c : N)
| OneOf (cs : list N)
| InClass (p : N → bool).   (* a bracket expression *)

(** An atom repeated between [lo] and [hi] times ([None]: no bound). *)
Definition item : Type := atom * nat * option nat.

Definition once (a : atom) : item := (a, 1%nat, Some 1%nat).
Definition opt (a : atom) : item := (a, 0%nat, Some 1%nat).
Definition between (a : atom) (lo hi : nat) : item := (a, lo, Some hi).
Definition exactly (a : atom) (n : nat) : item := (a, n, Some n).
Definition many (a : atom) : item := (a, 0%nat, None).
Definition many1 (a : atom) : item := (a, 1%nat, None).

(** [$]: the end of the string, or just before a final newline. *)
Definition at_end (s : pystr) : bool :=
  match s with
  | [] => true
  | [c] => (c =? 10)%N
  | _ => false
  end.

Section Regex.
Context `{PyRuntime}.

Definition atom_ok (a : atom) (c : N) : bool :=
  match a with
  | Digit => isdecimal c
  | Word => re_word c
  | Char d => (c =? d)%N
  | OneOf cs => mem_char cs c
  | InClass p => p c
  end.

(** [a{lo,hi}] followed by what [k] accepts. *)
Fixpoint rep (k : pystr → bool) (a : atom) (lo : nat) (hi : option nat)
    (s : pystr) : bool :=
  let more t :=
    match hi with
    | Some O => false
    | Some (S h) => rep k a (lo - 1) (Some h) t
    | None => rep k a (lo - 1) None t
    end in
  match lo, s with
  | O, [] => k []
  | O, c :: t => k s || (atom_ok a c && more t)
  | S _, [] => false
  | S _, c :: t => atom_ok a c && more t
  end.

(** [re.match('^' + items + '$', s)] *)
Fixpoint match_items (items : list item) (s : pystr) : bool :=
  match items with
  | [] => at_end s
  | (a, lo, hi) :: rest => rep (match_items rest) a lo hi s
  end.

End Regex.

(** *** The classifiers *)

Section TypeInference.
Context `{PyRuntime}.

(** The digits of [int(s)]: decimal digits, single underscores between
    them only. *)
Fixpoint int_digits (acc : Z) (after_digit : bool) (s : pystr) : option Z :=
  match s with
  | [] => if after_digit then Some acc else None
  | c :: t =>
      if (c =? 95)%N then (if after_digit then int_digits acc false t else None)
      else match decimal_value c with
           | Some d => int_digits (10 * acc + Z.of_N d) true t
           | None => None
           end
  end.

(** [int(s)] for a stripped [s]; [None] for [ValueError]. *)
Definition py_int (s : pystr) : option Z :=
  match s with
  | 43%N :: t => int_digits 0 false t
  | 45%N :: t => Z.opp <$> int_digits 0 false t
  | _ => int_digits 0 false s
  end.

Definition in_int64 (z : Z) : bool :=
  (-9223372036854775808 <=? z) && (z <=? 9223372036854775807).

Definition is_integer_value (value : pyval) : bool :=
  match value with
  | VBool b => in_int64 (Z_of_bool b)
  | VInt z => in_int64 z
  | VStr s =>
      let stripped_value := strip s in
      if (20 <? length stripped_value)%nat then false
      else match py_int stripped_value with
           | Some parsed_int => in_int64 parsed_int
           | None => false
           end
  | _ => false
  end.

(** [^[-+]?(\d+\.?\d*|\.\d+)([eE][-+]?\d+)?$], one sequence per way
    through the alternative and the optional group. *)
Definition float_patterns : list (list item) :=
  let sign := opt (OneOf (lit "-+")) in
  let exponent := [once (OneOf (lit "eE")); sign; many1 Digit] in
  let with_int := [sign; many1 Digit; opt (Char 46); many Digit] in
  let no_int := [sign; once (Char 46); many1 Digit] in
  [with_int; no_int; with_int ++ exponent; no_int ++ exponent].

Definition is_float_value (value : pyval) : bool :=
  match value with
  | VFloat _ => true
  | VStr s =>
      let value := strip s in
      if existsb (fun p => match_items p value) float_patterns then
        if contains (lit ".") value || contains (lit "e") (lower value) then
          match float_of_literal value with
          | Ok parsed =>
              if PrimFloat.ltb 9007199254740992%float (PrimFloat.abs parsed)
              then contains (lit ".") value
                   && negb (endswith (lit ".") (rstrip_chars (lit "0") value))
              else negb (float_is_integer parsed)
          | Raise _ => false
          end
        else false
      else false
  | _ => false
  end.

Definition date_patterns : list (list item) :=
  let d := Digit in
  let dash := once (Char 45) in
  let slash := once (Char 47) in
  let colon := once (Char 58) in
  let space := once (Char 32) in
  let clock := [space; between d 1 2; colon; exactly d 2; colon; exactly d 2] in
  [ [exactly d 4; dash; between d 1 2; dash; between d 1 2];
    [between d 1 2; slash; between d 1 2; slash; exactly d 4];
    [exactly d 4; slash; between d 1 2; slash; between d 1 2];
    [between d 1 2; dash; between d 1 2; dash; exactly d 4];
    [exactly d 4; dash; between d 1 2; dash; between d 1 2] ++ clock;
    [between d 1 2; slash; between d 1 2; slash; exactly d 4] ++ clock;
    [exactly d 4; exactly d 2; exactly d 2];
    [between d 1 2; dash; exactly Word 3; dash; exactly d 4];
    [exactly Word 3; space; between d 1 2; once (Char 44); space; exactly d 4] ].

Definition is_date_value (value : pyval) : bool :=
  match value with
  | VTimestamp _ => true
  | VStr s => existsb (fun p => match_items p (strip s)) date_patterns
  | _ => false
  end.

(** [str(x).lower() in ('true', 'false', '0', '1', 'yes', 'no')] *)
Definition is_boolean_token (x : pyval) : bool :=
  bool_decide (lower (py_str x) ∈
    [lit "true"; lit "false"; lit "0"; lit "1"; lit "yes"; lit "no"]).

(** *** [detect_column_types] *)

Record type_counters := {
  integer : nat;
  float_ : nat;
  date : nat;
  boolean : nat;
  long_text : nat;
  max_str_length : nat
}.

Definition zero_counters : type_counters :=
  {| integer := 0; float_ := 0; date := 0; boolean := 0; long_text := 0;
     max_str_length := 0 |}.

(** One turn of [for x in non_empty]: the length, then the first
    classifier that accepts [x], then the long-text mark. *)
Definition count_value (tc : type_counters) (x : pyval) : type_counters :=
  let str_len := length (py_str x) in
  let is_long := match x with VStr _ => (255 <? str_len)%nat | _ => false end in
  let bump (b : bool) (n : nat) := if b then S n else n in
  let i := is_integer_value x in
  let f := negb i && is_float_value x in
  let d := negb i && negb f && is_date_value x in
  let b := negb i && negb f && negb d && is_boolean_token x in
  {| integer := bump i (integer tc);
     float_ := bump f (float_ tc);
     date := bump d (date tc);
     boolean := bump b (boolean tc);
     long_text := bump is_long (long_text tc);
     max_str_length := Nat.max (max_str_length tc) str_len |}.

(** [max(1, int(total_values * 0.95))] *)
Definition threshold (total_values : nat) : nat :=
  Nat.max 1 (Z.to_nat (int_of_float (PrimFloat.mul (float_of_nat total_values) 0.95%float))).

Definition is_sqlite (db_type : string) : bool := bool_decide (db_type = "sqlite"%string).

(** [str(n)] in a type name *)
Definition decimal (n : nat) : string := NilZero.string_of_uint (Nat.to_uint n).

Definition default_type (db_type : string) : string :=
  if is_sqlite db_type then "TEXT"%string else "VARCHAR(255)"%string.

(** [[x for x in column_data if x is not None and str(x).strip() != '']] *)
Definition is_blank (x : pyval) : bool :=
  match x with
  | VNone => true
  | _ => match strip (py_str x) with [] => true | _ => false end
  end.
Definition non_empty (column_data : list pyval) : list pyval :=
  List.filter (fun x => negb (is_blank x)) column_data.

(** The body of [for i, column_data in enumerate(columns)]. The first
    statement of its [try] calls [str] on every value of the column; when
    one of these calls raises, the [except] branch gives the default type.
    Nothing else in the [try] raises on a cell of [pyval]. *)
Definition column_type (db_type : string) (is_potential_pk : bool) (i : nat)
    (column_data : list pyval) : string :=
  if existsb str_fails column_data then default_type db_type else
  match non_empty column_data with
  | [] => default_type db_type
  | values =>
      let tc := foldl count_value zero_counters values in
      let total_values := length values in
      let thr := threshold total_values in
      if bool_decide (thr ≤ integer tc)%nat then
        if is_sqlite db_type
        then (if bool_decide (i = 0%nat) && is_potential_pk
              then "INTEGER PRIMARY KEY" else "INTEGER")%string
        else (if bool_decide (i = 0%nat) && is_potential_pk
              then "INT AUTO_INCREMENT PRIMARY KEY" else "INT")%string
      else if bool_decide (thr ≤ float_ tc)%nat then
        (if is_sqlite db_type then "REAL" else "DOUBLE")%string
      else if bool_decide (thr ≤ date tc)%nat then
        (if is_sqlite db_type then "DATE" else "DATETIME")%string
      else if bool_decide (thr ≤ boolean tc)%nat then
        (if is_sqlite db_type then "BOOLEAN" else "TINYINT(1)")%string
      else if bool_decide (0 < long_text tc)%nat then "TEXT"%string
      else
        let safe_length := Nat.min (Nat.max (max_str_length tc + 50) 100) 255 in
        if is_sqlite db_type then "TEXT"%string
        else ("VARCHAR(" ++ decimal safe_length ++ ")")%string
  end.

(** [[row[0] for row in sample_data if row and len(row) > 0 and row[0] is not None]] *)
Definition first_col_values (sample_data : list row) : list pyval :=
  omap (fun r : row => match r with
                       | VNone :: _ | [] => None
                       | v :: _ => Some v
                       end) sample_data.

Definition is_potential_pk (sample_data : list row) : bool :=
  let values := first_col_values sample_data in
  bool_decide (length values = length (py_set values))
  && bool_decide (0 < length values)%nat.

(** [columns[i]]: the cells at index [i] that are not [None], row by row. *)
Definition column (sample_data : list row) (i : nat) : list pyval :=
  omap (fun r : row => match r !! i with
                       | Some VNone | None => None
                       | Some v => Some v
                       end) sample_data.

(** [max(len(row) for row in valid_rows)] *)
Definition max_cols (sample_data : list row) : nat :=
  max_list (length <$> sample_data).

Definition detect_column_types (sample_data : list row) (headers : list pystr)
    (db_type : string) : list string :=
  match sample_data, headers with
  | [], _ | _, [] => replicate (length headers) (default_type db_type)
  | _, _ =>
      match filter (fun r : row => r ≠ []) sample_data with
      | [] => replicate (length headers) (default_type db_type)
      | _ =>
          let pk := is_potential_pk sample_data in
          let detected_types :=
            imap (fun i column_data => column_type db_type pk i column_data)
                 (column sample_data <$> seq 0 (max_cols sample_data)) in
          detected_types
          ++ replicate (length headers - length detected_types) (default_type db_type)
      end
  end.

End TypeInference.

(** ** SQL identifiers *)

(** [s.encode()]: UTF-8; a lone surrogate cannot be encoded. *)
Definition utf8_encode_char (c : N) : result (list N) :=
  (if c <? 128 then Ok [c]
   else if c <? 2048 then Ok [192 + c / 64; 128 + c mod 64]
   else if in_range 55296 57343 c then Raise UnicodeEncodeError
   else if c <? 65536 then
     Ok [224 + c / 4096; 128 + (c / 64) mod 64; 128 + c mod 64]
   else if c <? 1114112 then
     Ok [240 + c / 262144; 128 + (c / 4096) mod 64; 128 + (c / 64) mod 64;
         128 + c mod 64]
   else Raise UnicodeEncodeError)%N.

Definition utf8_encode (s : pystr) : result (list N) :=
  (fun bytes => concat bytes) <$> mapM utf8_encode_char s.

Definition hex_digit (d : N) : N := (if d <? 10 then 48 + d else 87 + d)%N.

(** The first [n] characters of the hexadecimal form of a 128-bit digest. *)
Definition hex_prefix (n : nat) (digest : N) : pystr :=
  (fun k => hex_digit ((digest mod 2 ^ 128) / 16 ^ (31 - N.of_nat k) mod 16)%N)
    <$> seq 0 n.

(** [_+] replaced by [_] *)
Fixpoint collapse_underscores (after_underscore : bool) (s : pystr) : pystr :=
  match s with
  | [] => []
  | c :: t =>
      if (c =? 95)%N
      then (if after_underscore then collapse_underscores true t
            else c :: collapse_underscores true t)
      else c :: collapse_underscores false t
  end.

(** [[a-zA-Z_\u4e00-\u9fff]] and [[a-zA-Z0-9_\u4e00-\u9fff]] *)
Definition ident_start (c : N) : bool :=
  ascii_isalpha c || (c =? 95)%N || is_cjk c.
Definition ident_char (c : N) : bool :=
  ascii_isalpha c || ascii_isdigit c || (c =? 95)%N || is_cjk c.

Definition dangerous_patterns : list pystr :=
  lit <$> [ "DROP"; "DELETE"; "UPDATE"; "INSERT"; "SELECT"; "ALTER"; "CREATE";
            "TRUNCATE"; "UNION"; "EXEC"; "EXECUTE"; "DECLARE"; "CAST"; "CONVERT";
            "MERGE"; ";"; "--"; "/*"; "*/"; "XP_"; "SP_"; "OPENROWSET";
            "OPENQUERY"; "BULK"; "LOAD_FILE"; "INTO OUTFILE"; "INTO DUMPFILE" ]%string.

Section Identifiers.
Context `{PyRuntime}.

Definition validate_sql_identifier (name : pystr) : result pystr :=
  match name with
  | [] => Raise ValueError
  | _ =>
      let name := strip name in
      if (64 <? length name)%nat then Raise ValueError
      else if negb (match_items [once (InClass ident_start); many (InClass ident_char)] name)
      then Raise ValueError
      else if existsb (fun pattern => contains pattern (upper name)) dangerous_patterns
      then Raise ValueError
      else Ok name
  end.

(** The quotes doubled: the double quote (34), then the single one (39). *)
Definition safe_sql_identifier (name : pystr) : result pystr :=
  validated ← validate_sql_identifier name;
  Ok (replace [39%N] [39%N; 39%N] (replace [34%N] [34%N; 34%N] validated)).

(** [re.sub(r'[^\w\u4e00-\u9fff]', '_', s)] *)
Definition replace_special (s : pystr) : pystr :=
  (fun c => if re_word c || is_cjk c then c else 95%N) <$> s.

(** [not cleaned or not (cleaned[0].isalpha() or '\u4e00' <= cleaned[0] <= '\u9fff')] *)
Definition needs_prefix (cleaned : pystr) : bool :=
  match cleaned with
  | [] => true
  | c :: _ => negb (isalpha c || is_cjk c)
  end.

Definition clean_table_name (name : pystr) : pystr :=
  match name with
  | [] => lit "T_default"
  | _ =>
      let cleaned := replace_special name in
      let cleaned := strip_chars (lit "_") (collapse_underscores false cleaned) in
      let cleaned := if needs_prefix cleaned then lit "T_" ++ cleaned else cleaned in
      take 64 cleaned
  end.

(** The handler of [except ValueError]: a name from the digest of the raw
    one. [encode] raises inside the handler, so its error is not caught. *)
Definition hashed_name (prefix : pystr) (raw_name : pystr) : result pystr :=
  bytes ← utf8_encode raw_name;
  Ok (prefix ++ hex_prefix 8 (md5 bytes)).

Definition sanitize_table_name (raw_name : pystr) : result pystr :=
  match raw_name with
  | [] => Ok (lit "default_table")
  | _ =>
      try_except (safe_sql_identifier (clean_table_name raw_name))
        (fun _ => hashed_name (lit "table_") raw_name)
  end.

Definition sanitize_column_name (raw_name : pystr) : result pystr :=
  match raw_name with
  | [] => Ok (lit "default_column")
  | _ =>
      let cleaned := strip raw_name in
      let cleaned := replace_special cleaned in
      let cleaned := strip_chars (lit "_") (collapse_underscores false cleaned) in
      let cleaned := if needs_prefix cleaned then lit "col_" ++ cleaned else cleaned in
      try_except (safe_sql_identifier (take 64 cleaned))
        (fun _ => hashed_name (lit "col_") raw_name)
  end.

End Identifiers.

(** *** Notions the properties of the sanitisers are stated with *)

(** No two underscores in a row. *)
Fixpoint no_double_underscore (s : pystr) : bool :=
  match s with
  | a :: (b :: _) as t => negb ((a =? 95)%N && (b =? 95)%N) && no_double_underscore t
  | _ => true
  end.

(** A fact of the Unicode database: no whitespace character is a letter
    or a digit. *)
Definition whitespace_is_not_alnum `{PyRuntime} : Prop :=
  ∀ c, isspace c = true → isalnum c = false ∧ isalpha c = false.

(** A string known up to some positions that hold an upper-case
    hexadecimal digit ([None]), and the search of a pattern in it that
    answers [true] whenever some such string holds the pattern. *)
Definition is_upper_hex (c : N) : bool := in_range 48 57 c || in_range 65 70 c.

Fixpoint sym_startswith (p : pystr) (ss : list (option N)) : bool :=
  match p, ss with
  | [], _ => true
  | _ :: _, [] => false
  | a :: p', Some c :: ss' => (a =? c)%N && sym_startswith p' ss'
  | a :: p', None :: ss' => is_upper_hex a && sym_startswith p' ss'
  end.

Fixpoint sym_contains (p : pystr) (ss : list (option N)) : bool :=
  sym_startswith p ss
  || match ss with [] => false | _ :: ss' => sym_contains p ss' end.

(** ** Header cleaning: [get_excel_info], [get_csv_info] *)

(** [f"Column_{i+1}"] *)
Definition default_column_name (i : nat) : pystr :=
  lit "Column_" ++ str_of_Z (Z.of_nat (i + 1)).

(** [f"{base_col}_{counter}"] *)
Definition numbered (base_col : pystr) (counter : nat) : pystr :=
  base_col ++ lit "_" ++ str_of_Z (Z.of_nat counter).

(** The loop [while col in cleaned_header: col = f"{base_col}_{counter}";
    counter += 1], run for at most [fuel] renamings; [None] when the name
    is still taken after them. *)
Fixpoint unique_name (fuel : nat) (base_col : pystr) (counter : nat)
    (col : pystr) (cleaned_header : list pystr) : option pystr :=
  if bool_decide (col ∈ cleaned_header) then
    match fuel with
    | O => None
    | S fuel' =>
        unique_name fuel' base_col (S counter) (numbered base_col counter)
          cleaned_header
    end
  else Some col.

Section Headers.
Context `{PyRuntime}.

(** [col is None or str(col).strip() == ''] *)
Definition blank_header (col : pyval) : bool :=
  match col with
  | VNone => true
  | _ => bool_decide (strip (py_str col) = [])
  end.

(** The name a header cell gets before the renaming loop. *)
Definition base_name (i : nat) (col : pyval) : result pystr :=
  if blank_header col then Ok (default_column_name i)
  else sanitize_column_name (py_str col).

(** The body of [for i, col in enumerate(header)], from index [i] on, with
    the names found so far. The renaming loop gets one more round than
    there are names. *)
Fixpoint clean_header_from (i : nat) (header : list pyval)
    (cleaned_header : list pystr) : option (result (list pystr)) :=
  match header with
  | [] => Some (Ok cleaned_header)
  | col :: rest =>
      match base_name i col with
      | Raise e => Some (Raise e)
      | Ok base_col =>
          match unique_name (S (length cleaned_header)) base_col 1 base_col
                  cleaned_header with
          | None => None
          | Some c => clean_header_from (S i) rest (cleaned_header ++ [c])
          end
      end
  end.

Definition clean_header (header : list pyval) : option (result (list pystr)) :=
  clean_header_from 0 header [].
End Headers.

(** ** CSV sniffing: [detect_csv_properties] *)

(** [s.count(c)] for a one-character [c] *)
Definition count (c : N) (s : pystr) : nat :=
  length (List.filter (N.eqb c) s).

(** [s.split(sep)] for a one-character separator *)
Fixpoint split (sep : N) (s : pystr) : list pystr :=
  match s with
  | [] => [[]]
  | c :: t =>
      if (c =? sep)%N then [] :: split sep t
      else match split sep t with
           | p :: ps => (c :: p) :: ps
           | [] => [[c]]
           end
  end.

(** [max(d, key=d.get)] over the items of a dict in insertion order: the
    first key whose value no later one exceeds. *)
Fixpoint max_by_value (best : N * nat) (items : list (N * nat)) : N :=
  match items with
  | [] => fst best
  | kv :: rest =>
      max_by_value (if (snd best <? snd kv)%nat then kv else best) rest
  end.

Record csv_props := {
  sep : N;
  quotechar : N;
  has_header : bool
}.

(** The candidates, in the order of the dict: [,] [;] tab [|] *)
Definition sep_candidates (text_sample : pystr) : list (N * nat) :=
  (fun c => (c, count c text_sample)) <$> [44; 59; 9; 124]%N.

(** What [detect_csv_properties] derives from the decoded sample; the
    encoding comes from [chardet] and is not part of it. The sample is
    [Raise] when reading or decoding failed: the handler's defaults. *)
Definition detect_csv_properties (decoded : result pystr) : csv_props :=
  match decoded with
  | Raise _ => {| sep := 44; quotechar := 34; has_header := true |}
  | Ok text_sample =>
      let cands := sep_candidates text_sample in
      let max_sep :=
        if existsb (fun kv => (0 <? snd kv)%nat) cands
        then match cands with
             | kv :: rest => max_by_value kv rest
             | [] => 44%N
             end
        else 44%N in
      let quotechar :=
        if (count 39 text_sample <? count 34 text_sample)%nat then 34%N else 39%N in
      let lines := split 10 text_sample in
      let has_header :=
        match lines with
        | l0 :: l1 :: _ => bool_decide (count max_sep l0 = count max_sep l1)
        | _ => true
        end in
      {| sep := max_sep; quotechar := quotechar; has_header := has_header |}
  end.

(** ** Chunk workers: [process_chunk] *)

(** A chunk as pandas holds it: the rows of [df_chunk.values], all of one
    length. *)
Abbreviation dataframe := (list row).

(** [df.shape[1]] *)
Definition shape1 (df : dataframe) : nat :=
  match df with
  | r :: _ => length r
  | [] => O
  end.

(** [df.iloc[r, c]] *)
Definition iloc (df : dataframe) (r c : nat) : result pyval :=
  match df !! r with
  | Some cells => getitem cells c
  | None => Raise IndexError
  end.

(** The frame in which the cell at [r], [c] holds [v] and every other
    cell is as in [df]. *)
Definition with_cell (df : dataframe) (r c : nat) (v : pyval) : dataframe :=
  alter (fun cells => <[c := v]> cells) r df.

(** [range(a, b)] *)
Definition range (a b : Z) : list Z :=
  (fun k => a + Z.of_nat k) <$> seq 0 (Z.to_nat (b - a)).

(** A [for] loop over a frame updated in place, left by the first
    exception of its body: what was written before it stays written. *)
Fixpoint for_each {A} (items : list A)
    (body : A → dataframe → result unit * dataframe) (df : dataframe)
    : result unit * dataframe :=
  match items with
  | [] => (Ok (), df)
  | x :: rest =>
      match body x df with
      | (Ok _, df1) => for_each rest body df1
      | (Raise e, df1) => (Raise e, df1)
      end
  end.

(** [df.dropna(how='all')] *)
Definition dropna_all (df : dataframe) : dataframe :=
  List.filter (fun cells => negb (forallb is_nan_fast cells)) df.

Inductive file_type := Excel | Csv.

Section ProcessChunk.
Context `{PyRuntime}.

(** [unicodedata.category(char) in ('Cc', 'Cf')]: in ASCII the codes
    below 32 and 127. *)
Definition is_control (char : N) : bool :=
  if is_ascii char then (char <? 32)%N || (char =? 127)%N else uni_control char.

(** The string cleaning of both paths. *)
Definition clean_string (x : pystr) : pystr :=
  let x := replace [13%N] [32%N]
             (replace [10%N] [32%N] (replace [13%N; 10%N] [32%N] x)) in
  let x := replace [11%N] [32%N] (replace [12%N] [32%N] (replace [9%N] [32%N] x)) in
  let x := replace [7%N] [] (replace [8%N] [] x) in
  List.filter (fun char => negb (is_control char) || mem_char [32; 9]%N char) x.

(** The body of [for i in range(len(headers))] in the row-level path. *)
Definition fallback_cell (transform_rules : gmap pystr pystr) (header : pystr)
    (cell_value : pyval) : result pyval :=
  cell_value ← match transform_rules !! header with
               | Some rule => apply_column_transformation cell_value rule
               | None => Ok cell_value
               end;
  blank ← is_nan_or_empty cell_value;
  if (blank : bool) then Ok VNone
  else match cell_value with
       | VTimestamp t =>
           s ← strftime t (lit "%Y-%m-%d %H:%M:%S"); Ok (VStr s)
       | VStr s => Ok (VStr (clean_string s))
       | _ => Ok cell_value
       end.

(** [row[i] if i < len(row) else None], for every header *)
Definition fallback_row (headers : list pystr)
    (transform_rules : gmap pystr pystr) (cells : row) : result row :=
  mapM (fun ih : nat * pystr =>
          fallback_cell transform_rules ih.2 (default VNone (cells !! ih.1)))
       (imap (fun i h => (i, h)) headers).

(** What pandas does is not modelled: reading the chunk, and the
    vectorised path, which either gives the rows or fails, leaving the
    frame in the state it had reached. *)
Variable read_chunk : file_type → Z → nat → result dataframe.
Variable vectorized :
  dataframe → list pystr → gmap pystr pystr → result (list row) * dataframe.

(** [df_chunk.iloc[r, c] = value]: pandas decides whether the column can
    hold the value, and raises when it cannot. *)
Variable iloc_set : dataframe → nat → nat → pyval → result dataframe.

(** One round of the loop over [merged_ranges]: the region
    [(min_row, min_col, max_row, max_col)] as openpyxl gives it, against a
    chunk read with [skiprows] rows skipped. An exception of the read or
    of a write ends the round with a warning. *)
Definition fill_region (skiprows : Z) (df : dataframe) (region : Z * Z * Z * Z)
    : dataframe :=
  let '(min_row, min_col, max_row, max_col) := region in
  let shape0 := Z.of_nat (length df) in
  let chunk_min_row := min_row - skiprows in
  let chunk_max_row := max_row - skiprows in
  if (chunk_min_row <? shape0) && (0 <=? chunk_max_row) then
    let chunk_min_row := Z.max 0 chunk_min_row in
    let chunk_max_row := Z.min (shape0 - 1) chunk_max_row in
    let df_min_col := min_col - 1 in
    let df_max_col := Z.min (Z.of_nat (shape1 df) - 1) (max_col - 1) in
    if (0 <=? chunk_min_row) && (0 <=? df_min_col) then
      match iloc df (Z.to_nat chunk_min_row) (Z.to_nat df_min_col) with
      | Raise _ => df
      | Ok cell_value =>
          (for_each (range chunk_min_row (chunk_max_row + 1)) (fun r =>
             for_each (range df_min_col (df_max_col + 1)) (fun c df =>
               if (r <? Z.of_nat (length df)) && (c <? Z.of_nat (shape1 df))
               then match iloc_set df (Z.to_nat r) (Z.to_nat c) cell_value with
                    | Ok df1 => (Ok (), df1)
                    | Raise e => (Raise e, df)
                    end
               else (Ok (), df)))
             df).2
      end
    else df
  else df.

Definition process_chunk (chunk_id : nat) (skiprows : Z) (nrows : nat)
    (headers : list pystr) (merged_ranges : list (Z * Z * Z * Z))
    (ft : file_type) (transform_rules : gmap pystr pystr) : nat * list row :=
  let body :=
    df_chunk ← read_chunk ft skiprows nrows;
    let df_chunk :=
      match ft with
      | Excel => foldl (fill_region skiprows) df_chunk merged_ranges
      | Csv => df_chunk
      end in
    let df_chunk := dropna_all df_chunk in
    match vectorized df_chunk headers transform_rules with
    | (Ok processed_data, _) => Ok processed_data
    | (Raise _, df_chunk) => mapM (fallback_row headers transform_rules) df_chunk
    end in
  match body with
  | Ok processed_data => (chunk_id, processed_data)
  | Raise _ => (chunk_id, [])
  end.
End ProcessChunk.

(** ** Table creation: [create_table] of both backends *)

(** [any('PRIMARY KEY' in ct for ct in column_types[:1]) if column_types
    else False], as [file_to_database] computes it *)
Definition has_pk (column_types : list string) : bool :=
  match column_types with
  | ct :: _ => contains (lit "PRIMARY KEY") (lit ct)
  | [] => false
  end.

(** The loop [for i in range(start, len(headers)): if i < len(column_types)]:
    a column definition is kept as the pair of its name and its type. *)
Definition listed_columns (start : nat) (headers : list pystr)
    (column_types : list string) : list (pystr * string) :=
  omap (fun i => match headers !! i, column_types !! i with
                 | Some h, Some t => Some (h, t)
                 | _, _ => None
                 end)
       (seq start (length headers - start)).

(** [column_defs] of [create_table]; the backends differ in the quotes and
    in the id column they add. *)
Definition column_defs (id_col : pystr * string) (headers : list pystr)
    (column_types : list string) (pk : bool) : result (list (pystr * string)) :=
  if pk then
    match headers !! 0%nat, column_types !! 0%nat with
    | Some h, Some t => Ok ((h, t) :: listed_columns 1 headers column_types)
    | _, _ => Raise IndexError
    end
  else Ok (id_col :: listed_columns 0 headers column_types).

(** The backend [create_database] has chosen, and the id column its
    [create_table] adds. *)
Inductive backend := SQLiteDatabase | MySQLDatabase.

Definition id_column (db : backend) : pystr * string :=
  match db with
  | SQLiteDatabase => (lit "id", "INTEGER PRIMARY KEY AUTOINCREMENT"%string)
  | MySQLDatabase => (lit "id", "INT AUTO_INCREMENT PRIMARY KEY"%string)
  end.

(** The column definitions [file_to_database] has the backend create for
    a new table: the types detected for [db_type], then [create_table]. *)
Definition create_table_columns `{PyRuntime} (db : backend)
    (sample_data : list row) (headers : list pystr) (db_type : string)
    : result (list (pystr * string)) :=
  let column_types := detect_column_types sample_data headers db_type in
  column_defs (id_column db) headers column_types (has_pk column_types).

(** ** Rule strings of the command line: [parse_column_transform] *)

(** [s.split(':', 2)] when it gives three parts *)
Definition split3 (s : pystr) : option (pystr * pystr * pystr) :=
  match split1 58 s with
  | (a, Some rest) =>
      match split1 58 rest with
      | (b, Some c) => Some (a, b, c)
      | (_, None) => None
      end
  | (_, None) => None
  end.

(** One [item] of the loop: the entry it stores, [None] when it is skipped
    as blank, as not having three parts, or as having an empty part. *)
Definition parse_item (item : pystr) : option (pystr * pystr * pystr) :=
  match strip item with
  | [] => None
  | stripped =>
      match split3 stripped with
      | Some (a, b, c) =>
          let sheet_name := strip a in
          let column_name := strip b in
          let rule := strip c in
          match sheet_name, column_name, rule with
          | _ :: _, _ :: _, _ :: _ => Some (sheet_name, column_name, rule)
          | _, _, _ => None
          end
      | None => None
      end
  end.

(** [transforms[sheet_name][column_name] = rule], the inner dict created
    when the sheet is new *)
Definition store_rule (transforms : gmap pystr (gmap pystr pystr))
    (entry : pystr * pystr * pystr) : gmap pystr (gmap pystr pystr) :=
  let '(sheet_name, column_name, rule) := entry in
  <[sheet_name := <[column_name := rule]> (default ∅ (transforms !! sheet_name))]>
    transforms.

Definition parse_column_transform (transform_str : pystr)
    : gmap pystr (gmap pystr pystr) :=
  match transform_str with
  | [] => ∅
  | _ =>
      foldl (fun transforms item =>
               match parse_item item with
               | Some entry => store_rule transforms entry
               | None => transforms
               end)
            ∅ (split 59 transform_str)
  end.

(** The rule an item gives for a column of a sheet, if it gives one. *)
Definition rule_for (sheet_name column_name : pystr) (item : pystr) : option pystr :=
  match parse_item item with
  | Some (s, c, rule) =>
      if bool_decide (s = sheet_name ∧ c = column_name) then Some rule else None
  | None => None
  end.

(** ** Inline field mappings: [parse_inline_mapping] *)

(** One [pair] of a sheet's column mappings: [None] when it is skipped as
    blank or as having no equals sign. The pair is split as it is, its
    two sides are stripped. *)
Definition parse_pair (pair : pystr) : option (pystr * pystr) :=
  match strip pair with
  | [] => None
  | _ =>
      match split1 61 pair with
      | (excel_col, Some db_col) => Some (strip excel_col, strip db_col)
      | (_, None) => None
      end
  end.

(** [mapping[sheet_name][excel_col] = db_col] *)
Definition store_pair (sheet_name : pystr)
    (mapping : gmap pystr (gmap pystr pystr)) (pair : pystr)
    : gmap pystr (gmap pystr pystr) :=
  match parse_pair pair with
  | Some (excel_col, db_col) =>
      <[sheet_name := <[excel_col := db_col]> (default ∅ (mapping !! sheet_name))]>
        mapping
  | None => mapping
  end.

(** The body of [for sheet_mapping in sheet_mappings] *)
Definition parse_sheet_mapping (mapping : gmap pystr (gmap pystr pystr))
    (sheet_mapping : pystr) : gmap pystr (gmap pystr pystr) :=
  match strip sheet_mapping with
  | [] => mapping
  | stripped =>
      match split1 58 stripped with
      | (sheet_name, Some column_mappings) =>
          let sheet_name := strip sheet_name in
          let mapping :=
            match mapping !! sheet_name with
            | Some _ => mapping
            | None => <[sheet_name := ∅]> mapping
            end in
          foldl (store_pair sheet_name) mapping (split 44 column_mappings)
      | (_, None) => mapping
      end
  end.

Definition parse_inline_mapping (mapping_str : pystr)
    : gmap pystr (gmap pystr pystr) :=
  foldl parse_sheet_mapping ∅ (split 59 mapping_str).

(** The pairs a sheet item gives, in order, each with the sheet's name. *)
Definition sheet_pairs (sheet_mapping : pystr) : list (pystr * pystr * pystr) :=
  match strip sheet_mapping with
  | [] => []
  | stripped =>
      match split1 58 stripped with
      | (sheet_name, Some column_mappings) =>
          omap (fun pair =>
                  (fun kv : pystr * pystr => (strip sheet_name, kv.1, kv.2))
                    <$> parse_pair pair)
               (split 44 column_mappings)
      | (_, None) => []
      end
  end.

(** The target a pair gives for a column of a sheet, if it is about it. *)
Definition mapped_to (sheet_name excel_col : pystr)
    (entry : pystr * pystr * pystr) : option pystr :=
  if bool_decide (entry.1.1 = sheet_name ∧ entry.1.2 = excel_col)
  then Some entry.2 else None.

(** * Properties *)

(** C10: a null cell stays null under every transform rule, known or not. *)
Theorem apply_column_transformation_none `{PyRuntime} (r : pystr) :
  apply_column_transformation VNone r = Ok VNone.
Proof. destruct r; reflexivity. Qed.

(** ** Reassembly *)

Section ReassemblyFacts.
Import Coordinator.

Definition nonempty_chunk (r : chunk_result) : Prop := r.2 ≠ [].

#[local] Instance nonempty_chunk_dec r : Decision (nonempty_chunk r).
Proof. unfold nonempty_chunk. apply _. Defined.

Lemma NoDup_fst_functional {A B} (l : list (A * B)) x y1 y2 :
  NoDup l.*1 → (x, y1) ∈ l → (x, y2) ∈ l → y1 = y2.
Proof.
  induction l as [|[a b] l IH]; simpl; intros Hnd H1 H2.
  - by apply elem_of_nil in H1.
  - apply NoDup_cons in Hnd as [Hfresh Hnd].
    apply elem_of_cons in H1 as [[= -> ->]|H1];
      apply elem_of_cons in H2 as [[= ->]|H2]; auto.
    + destruct Hfresh. apply list_elem_of_fmap. by exists (a, y2).
    + subst. destruct Hfresh. apply list_elem_of_fmap. by exists (a, y1).
Qed.

Lemma collect_snoc l r : collect (l ++ [r]) = store (collect l) r.
Proof. unfold collect. by rewrite foldl_app. Qed.

Lemma store_lookup c r k :
  data_chunks_dict (store c r) !! k =
  if decide (r.2 ≠ [] ∧ r.1 = k) then Some r.2 else data_chunks_dict c !! k.
Proof.
  unfold store. destruct r as [i [|x d]]; cbn [fst snd data_chunks_dict].
  - destruct (decide _) as [[? _]|_]; done.
  - rewrite lookup_insert.
    destruct (decide (i = k)), (decide _) as [[_ ?]|Hn]; try done.
    exfalso. apply Hn. done.
Qed.

(** The buffer holds exactly the non-empty results, under their index. *)
Lemma lookup_collect completed k d :
  NoDup completed.*1 →
  data_chunks_dict (collect completed) !! k = Some d ↔
  (k, d) ∈ completed ∧ d ≠ [].
Proof.
  induction completed as [|r l IH] using rev_ind; intros Hnd.
  - simpl. rewrite lookup_empty, elem_of_nil. naive_solver.
  - rewrite fmap_app, NoDup_app in Hnd. destruct Hnd as (Hl & Hfresh & _).
    rewrite collect_snoc, store_lookup, elem_of_app, list_elem_of_singleton.
    destruct (decide (r.2 ≠ [] ∧ r.1 = k)) as [[Hne <-]|Hr].
    + split.
      * intros [= <-]. split; [right; by destruct r|done].
      * intros [[Hin | Heq] _]; [|by rewrite <-Heq].
        exfalso. apply (Hfresh r.1); [|simpl; left].
        apply list_elem_of_fmap. by exists (r.1, d).
    + rewrite IH by done. split; [tauto|].
      intros [[Hin | Heq] Hd]; [done|]. subst r. simpl in Hr. tauto.
Qed.

Lemma map_to_list_collect completed :
  NoDup completed.*1 →
  map_to_list (data_chunks_dict (collect completed)) ≡ₚ filter nonempty_chunk completed.
Proof.
  intros Hnd. apply NoDup_Permutation.
  - apply NoDup_map_to_list.
  - apply NoDup_filter. eapply NoDup_fmap_1, Hnd.
  - intros [k d]. rewrite elem_of_map_to_list, lookup_collect by done.
    rewrite list_elem_of_filter. unfold nonempty_chunk. naive_solver.
Qed.

Lemma tagged_fst results : (tagged results).*1 = seq 0 (length results).
Proof.
  unfold tagged. rewrite fmap_imap.
  rewrite (imap_ext _ (fun j _ => id j)) by done.
  by rewrite imap_seq_0, list_fmap_id.
Qed.

Lemma StronglySorted_seq_keys (l : list chunk_result) :
  StronglySorted lt l.*1 → StronglySorted key_le l.
Proof.
  induction l as [|r l IH]; simpl; intros Hs; [constructor|].
  apply StronglySorted_inv in Hs as [Hs Hall]. constructor; [auto|].
  rewrite Forall_fmap in Hall. eapply Forall_impl; [exact Hall|].
  intros y Hy. unfold key_le. simpl in Hy. lia.
Qed.

Lemma StronglySorted_lt_seq a n : StronglySorted lt (seq a n).
Proof.
  revert a. induction n as [|n IH]; intros a; simpl; constructor; [apply IH|].
  apply Forall_forall. intros y Hy%elem_of_seq. lia.
Qed.

Lemma StronglySorted_filter_keys (l : list chunk_result) :
  StronglySorted key_le l → StronglySorted key_le (filter nonempty_chunk l).
Proof.
  induction 1 as [|r l Hs IH Hall]; [constructor|].
  rewrite filter_cons. destruct (decide (nonempty_chunk r)); [|done].
  constructor; [done|]. apply Forall_forall. intros y [_ Hy]%list_elem_of_filter.
  rewrite Forall_forall in Hall. auto.
Qed.

(** Sorting the buffer's items gives the non-empty results in the order
    of their index, whatever the order of completion. *)
Lemma sorted_chunks_collect completed results :
  completed ≡ₚ tagged results →
  sorted_chunks (data_chunks_dict (collect completed))
  = filter nonempty_chunk (tagged results).
Proof.
  intros Hperm.
  assert (NoDup completed.*1) as Hnd.
  { rewrite Hperm, tagged_fst. apply NoDup_seq. }
  assert (NoDup (tagged results).*1) as Hnd'.
  { rewrite tagged_fst. apply NoDup_seq. }
  assert (sorted_chunks (data_chunks_dict (collect completed))
          ≡ₚ filter nonempty_chunk (tagged results)) as Hp.
  { unfold sorted_chunks. rewrite merge_sort_Permutation.
    rewrite map_to_list_collect by done. by rewrite Hperm. }
  apply (Sorted_unique_strong key_le); [|apply Sorted_merge_sort, _| |done].
  - intros [k1 d1] [k2 d2] H1 H2 Hle Hge. unfold key_le in *. simpl in *.
    assert (k1 = k2) as -> by lia. f_equal.
    rewrite Hp in H1. apply list_elem_of_filter in H1 as [_ H1].
    apply list_elem_of_filter in H2 as [_ H2].
    exact (NoDup_fst_functional _ _ _ _ Hnd' H1 H2).
  - apply StronglySorted_Sorted, StronglySorted_filter_keys, StronglySorted_seq_keys.
    rewrite tagged_fst. apply StronglySorted_lt_seq.
Qed.

Lemma filter_tagged_snd_from (g : nat → nat) (results : list (list row)) :
  (filter nonempty_chunk (imap (fun i d => (g i, d)) results)).*2
  = filter (fun d => d ≠ []) results.
Proof.
  revert g. induction results as [|d l IH]; intros g; [done|].
  rewrite imap_cons, !filter_cons. unfold nonempty_chunk at 1. cbn [snd].
  destruct (decide (d ≠ [])); [rewrite fmap_cons; cbn [snd]; f_equal|];
    apply (IH (g ∘ S)).
Qed.

Lemma concat_filter_nonempty (results : list (list row)) :
  concat (filter (fun d => d ≠ []) results) = concat results.
Proof.
  induction results as [|d l IH]; [done|].
  rewrite filter_cons. destruct (decide (d ≠ [])) as [Hd|Hd]; simpl; [by rewrite IH|].
  destruct d; [by rewrite IH | by destruct Hd].
Qed.

Lemma concat_window_prefix chunk_size (rows : list row) n :
  concat (window chunk_size rows <$> seq 0 n) = take (n * chunk_size) rows.
Proof.
  induction n as [|n IH]; [done|].
  rewrite seq_S, fmap_app, concat_app, IH. simpl.
  unfold window. rewrite app_nil_r, take_take_drop. f_equal. lia.
Qed.

Lemma total_chunks_cover estimated_rows chunk_size :
  (0 < chunk_size)%nat →
  (estimated_rows ≤ total_chunks estimated_rows chunk_size * chunk_size)%nat.
Proof.
  intros Hpos. unfold total_chunks.
  pose proof (Nat.div_mod (estimated_rows + chunk_size - 1) chunk_size ltac:(lia)).
  pose proof (Nat.mod_upper_bound (estimated_rows + chunk_size - 1) chunk_size ltac:(lia)).
  lia.
Qed.

(** The windows of a sheet, one after the other, are the sheet. *)
Lemma concat_windows chunk_size (rows : list row) :
  (0 < chunk_size)%nat → concat (windows chunk_size rows) = rows.
Proof.
  intros Hpos. unfold windows. rewrite concat_window_prefix.
  apply take_ge. by apply total_chunks_cover.
Qed.

(** C1: whatever the order in which the chunk results complete, the
    write step receives the non-empty results in ascending chunk index, so
    the rows it sees are the concatenation of the results in index order;
    when the results are the row windows of the sheet, these are the rows
    of the source in their order. *)
Theorem reassembly_preserves_source_order
    (results : list (list row)) (completed : list chunk_result) :
  completed ≡ₚ tagged results →
  chunk_data_only completed = filter (fun d => d ≠ []) results
  ∧ rows_written completed = concat results
  ∧ (∀ chunk_size rows, (0 < chunk_size)%nat →
       results = windows chunk_size rows → rows_written completed = rows).
Proof.
  intros Hperm.
  assert (chunk_data_only completed = filter (fun d => d ≠ []) results) as Hc.
  { unfold chunk_data_only. rewrite (sorted_chunks_collect _ results Hperm).
    apply (filter_tagged_snd_from id). }
  assert (rows_written completed = concat results) as Hr.
  { unfold rows_written. rewrite Hc. apply concat_filter_nonempty. }
  split; [done|]. split; [done|].
  intros chunk_size rows Hpos ->. rewrite Hr. by apply concat_windows.
Qed.

(** Three chunks completing in the order 2, 0, 1. *)
Lemma reassembly_preserves_source_order_witness :
  let results := [[[VInt 1]; [VInt 2]]; [[VInt 3]; [VInt 4]]; [[VInt 5]]] in
  let completed := [(2%nat, [[VInt 5]]); (0%nat, [[VInt 1]; [VInt 2]]);
                    (1%nat, [[VInt 3]; [VInt 4]])] in
  chunk_data_only completed = filter (fun d => d ≠ []) results
  ∧ rows_written completed = concat results
  ∧ (∀ chunk_size rows, (0 < chunk_size)%nat →
       results = windows chunk_size rows → rows_written completed = rows).
Proof.
  intros results completed.
  apply (reassembly_preserves_source_order results completed).
  unfold completed, results, tagged. simpl.
  etrans; [apply Permutation_swap|]. apply perm_skip, Permutation_swap.
Defined.

End ReassemblyFacts.

(** ** The networked backend's [write_data] *)

Section MySQLFacts.
Variable accepts : conn → list row → bool.
Hypothesis accepts_all : ∀ c rows, accepts c rows = true.

Lemma mapM_result_Ok {A B} (f : A → result B) (g : A → B) (l : list A) :
  (∀ x, x ∈ l → f x = Ok (g x)) → mapM f l = Ok (g <$> l).
Proof.
  induction l as [|x l IH]; intros Hf; [done|].
  simpl. rewrite (Hf x) by left. simpl.
  rewrite IH; [done|]. intros y Hy. apply Hf. by right.
Qed.

Lemma max_list_bound (l : list nat) i : i ∈ l → (i ≤ max_list l)%nat.
Proof.
  induction l as [|j l IH]; intros Hin; [by apply elem_of_nil in Hin|].
  apply elem_of_cons in Hin as [->|Hin]; simpl; [lia|]. specialize (IH Hin). lia.
Qed.

Lemma filtered_data_mapped headers (field_mapping : mapping) rows :
  field_mapping ≠ ∅ → mapped_indices headers field_mapping ≠ [] →
  MySQL.filtered_data headers field_mapping rows
  = Ok (MySQL.select (mapped_indices headers field_mapping)
          <$> filter (fun r : row =>
                (max_list (mapped_indices headers field_mapping) < length r)%nat) rows).
Proof.
  intros Hm Hi. unfold MySQL.filtered_data, truthy_mapping.
  rewrite !bool_decide_eq_true_2 by done. simpl.
  apply mapM_result_Ok. intros r [Hlen _]%list_elem_of_filter.
  apply mapM_result_Ok. intros i Hin%max_list_bound.
  unfold getitem. destruct (lookup_lt_is_Some_2 r i) as [v Hv]; [lia|].
  by rewrite Hv.
Qed.

Lemma write_batches_step filtered i rest st c :
  let batch := slice filtered i MySQL.batch_size in
  let c1 := {| durable := durable c; pending := pending c ++ batch;
               in_txn := in_txn c; trace := trace c ++ [EInsert (length batch)] |} in
  let c2 := if bool_decide ((st.2 + 1) mod 10 = 0)%nat
               || bool_decide (length filtered ≤ i + MySQL.batch_size)%nat
            then (MySQL.commit c1).2 else c1 in
  MySQL.write_batches accepts filtered (i :: rest) st c
  = MySQL.write_batches accepts filtered rest
      ((st.1 + length batch)%nat, (st.2 + 1)%nat) c2.
Proof.
  intros. cbn [MySQL.write_batches]. unfold executemany.
  rewrite accepts_all. reflexivity.
Qed.

Lemma write_batches_accepting filtered starts st c :
  ∃ st' c',
    MySQL.write_batches accepts filtered starts st c = (Ok st', c')
    ∧ st'.1 = (st.1 + length (concat ((fun i => slice filtered i MySQL.batch_size) <$> starts)))%nat
    ∧ durable c' ++ pending c'
      = (durable c ++ pending c)
        ++ concat ((fun i => slice filtered i MySQL.batch_size) <$> starts)
    ∧ (∀ i, last starts = Some i → (length filtered ≤ i + MySQL.batch_size)%nat →
         pending c' = []).
Proof.
  revert st c. induction starts as [|i rest IH]; intros st c.
  - exists st, c. simpl. rewrite app_nil_r.
    split; [done|]. split; [lia|]. split; [done|]. by intros.
  - pose proof (write_batches_step filtered i rest st c) as Hstep.
    cbv zeta in Hstep. rewrite Hstep. clear Hstep.
    set (batch := slice filtered i MySQL.batch_size).
    match goal with |- context [MySQL.write_batches _ _ _ _ ?x] => set (c2 := x) end.
    destruct (IH ((st.1 + length batch)%nat, (st.2 + 1)%nat) c2)
      as (st' & c' & Hrun & Hcount & Hrows & Hlast).
    exists st', c'. split; [done|].
    assert (durable c2 ++ pending c2 = (durable c ++ pending c) ++ batch) as Hc2.
    { subst c2. destruct (_ || _); cbn [MySQL.commit snd durable pending].
      - by rewrite app_nil_r, app_assoc.
      - by rewrite app_assoc. }
    rewrite fmap_cons, concat_cons. fold batch. split; [|split].
    + rewrite Hcount, length_app. cbn [fst]. lia.
    + by rewrite Hrows, Hc2, <-app_assoc.
    + intros j Hj Hlen. destruct rest as [|k rest].
      * cbn [last] in Hj. injection Hj as ->.
        cbn [MySQL.write_batches] in Hrun. injection Hrun as _ <-.
        subst c2. rewrite (bool_decide_eq_true_2 (_ ≤ _)%nat), orb_true_r by done.
        done.
      * by apply (Hlast j).
Qed.

Lemma concat_slices (l : list row) step :
  (0 < step)%nat → concat ((fun i => slice l i step) <$> range_step (length l) step) = l.
Proof.
  intros Hpos. unfold range_step. rewrite <-list_fmap_compose.
  exact (concat_windows step l Hpos).
Qed.

Lemma last_range_step n step i :
  (0 < step)%nat → last (range_step n step) = Some i → (n ≤ i + step)%nat.
Proof.
  intros Hpos. unfold range_step.
  pose proof (total_chunks_cover n step Hpos) as Hcover.
  unfold Coordinator.total_chunks in Hcover.
  destruct ((n + step - 1) / step)%nat as [|k]; [done|].
  rewrite seq_S, fmap_app, (list_fmap_singleton _ (0 + k)%nat), last_snoc.
  intros [= <-]. lia.
Qed.

(** C9: under a field mapping that names a header, the networked backend
    writes exactly the rows longer than the largest mapped index, each
    reduced to its mapped cells, and returns their number; a shorter row
    is left out without an error. *)
Theorem mysql_write_data_keeps_long_rows headers data_chunks (field_mapping : mapping) c :
  field_mapping ≠ ∅ →
  mapped_indices headers field_mapping ≠ [] →
  let indices := mapped_indices headers field_mapping in
  let kept := filter (fun r : row => (max_list indices < length r)%nat)
                (MySQL.all_data data_chunks) in
  ∃ c', MySQL.write_data accepts headers data_chunks field_mapping c
        = (Ok (length kept), c')
      ∧ durable c' ++ pending c'
        = (durable c ++ pending c) ++ (MySQL.select indices <$> kept)
      ∧ (kept ≠ [] → pending c' = []).
Proof.
  intros Hm Hi indices kept. unfold MySQL.write_data.
  destruct (MySQL.all_data data_chunks) as [|r0 rows] eqn:Hall.
  { exists c. subst kept. simpl. by rewrite app_nil_r. }
  rewrite (filtered_data_mapped headers field_mapping (r0 :: rows) Hm Hi).
  fold indices. fold kept.
  destruct (write_batches_accepting (MySQL.select indices <$> kept)
              (range_step (length (MySQL.select indices <$> kept)) MySQL.batch_size)
              (0%nat, 0%nat) c) as (st' & c' & Hrun & Hcount & Hrows & Hlast).
  rewrite Hrun. exists c'.
  assert (0 < MySQL.batch_size)%nat as Hpos by (unfold MySQL.batch_size; lia).
  rewrite concat_slices in Hcount, Hrows by done.
  rewrite length_fmap in Hcount. simpl in Hcount. rewrite Hcount.
  split; [done|]. split; [done|].
  intros Hne.
  destruct (last (range_step (length (MySQL.select indices <$> kept)) MySQL.batch_size))
    as [i|] eqn:Hl.
  - apply (Hlast i eq_refl). by apply last_range_step.
  - apply last_None in Hl. unfold range_step in Hl.
    apply fmap_nil_inv in Hl.
    rewrite length_fmap in Hl.
    pose proof (total_chunks_cover (length kept) MySQL.batch_size Hpos) as Hcover.
    unfold Coordinator.total_chunks in Hcover.
    destruct ((length kept + MySQL.batch_size - 1) / MySQL.batch_size)%nat; [|done].
    destruct kept; [done|simpl in Hcover; lia].
Qed.

End MySQLFacts.

(** Headers [a, b, c] with [c] mapped: the row of three cells is written,
    the row of two is not. *)
Lemma mysql_write_data_keeps_long_rows_witness :
  let headers := [lit "a"; lit "b"; lit "c"] in
  let field_mapping : mapping := {[ lit "c" := lit "z" ]} in
  let data_chunks := [[[VInt 1; VInt 2; VInt 3]; [VInt 4; VInt 5]]] in
  let c := {| durable := []; pending := []; in_txn := false; trace := [] |} in
  ∃ c', MySQL.write_data (fun _ _ => true)
          headers data_chunks field_mapping c = (Ok 1%nat, c')
      ∧ durable c' ++ pending c' = [[VInt 3]]
      ∧ ([[VInt 1; VInt 2; VInt 3]] ≠ [] → pending c' = []).
Proof.
  intros headers field_mapping data_chunks c.
  apply (mysql_write_data_keeps_long_rows (fun _ _ => true)
           (fun _ _ => eq_refl) headers data_chunks field_mapping c).
  - apply insert_non_empty.
  - vm_compute. discriminate.
Defined.


(** ** The embedded backend's [write_data] *)

Section SQLiteFacts.
Context `{PyRuntime}.
Variable accepts : conn → list row → bool.
Variable headers : list pystr.
Variable field_mapping : mapping.


Lemma open_rows_app cur tr1 tr2 :
  open_rows cur (tr1 ++ tr2) = open_rows (open_rows cur tr1) tr2.
Proof.
  revert cur. induction tr1 as [|e tr1 IH]; intros cur; [done|].
  destruct e; simpl; apply IH.
Qed.

Lemma mapM_result_length {A B} (f : A → result B) (l : list A) l' :
  mapM f l = Ok l' → length l' = length l.
Proof.
  revert l'. induction l as [|x l IH]; intros l'; simpl.
  - by intros [= <-].
  - destruct (f x) as [y|e]; simpl; [|done].
    destruct (mapM f l) as [k|e]; simpl; [|done].
    intros [= <-]. simpl. f_equal. by apply IH.
Qed.

Lemma chunk_rows_length chunk_data rows :
  SQLite.chunk_rows headers field_mapping chunk_data = Ok rows →
  length rows = length chunk_data.
Proof.
  unfold SQLite.chunk_rows. destruct (truthy_mapping field_mapping).
  - apply mapM_result_length.
  - by intros [= <-].
Qed.

Lemma mapM_result_snoc {A B} (f : A → result B) (l : list A) x l' y :
  mapM f l = Ok l' → f x = Ok y → mapM f (l ++ [x]) = Ok (l' ++ [y]).
Proof.
  revert l'. induction l as [|a l IH]; intros l'; simpl.
  - intros [= <-] ->. done.
  - destruct (f a) as [b|e]; simpl; [|done].
    destruct (mapM f l) as [k|e]; simpl; [|done].
    intros [= <-] Hx. by rewrite (IH k eq_refl Hx).
Qed.

(** The four ways one turn of the loop can go. *)
Lemma write_chunk_cases chunk_data st c :
  in_txn c = true →
  (chunk_data = [] ∧ SQLite.write_chunk accepts headers field_mapping chunk_data st c = (Ok st, c))
  ∨ (chunk_data ≠ [] ∧ ∃ e,
       SQLite.write_chunk accepts headers field_mapping chunk_data st c = (Raise e, c))
  ∨ (chunk_data ≠ [] ∧ ∃ rows,
       SQLite.chunk_rows headers field_mapping chunk_data = Ok rows
       ∧ (st.2 + length rows < SQLite.max_batch_size)%nat
       ∧ SQLite.write_chunk accepts headers field_mapping chunk_data st c
         = (Ok ((st.1 + length rows)%nat, (st.2 + length rows)%nat),
            {| durable := durable c; pending := pending c ++ rows; in_txn := true;
               trace := trace c ++ [EInsert (length rows)] |}))
  ∨ (chunk_data ≠ [] ∧ ∃ rows,
       SQLite.chunk_rows headers field_mapping chunk_data = Ok rows
       ∧ (SQLite.max_batch_size ≤ st.2 + length rows)%nat
       ∧ SQLite.write_chunk accepts headers field_mapping chunk_data st c
         = (Ok ((st.1 + length rows)%nat, 0%nat),
            {| durable := durable c ++ pending c ++ rows; pending := []; in_txn := true;
               trace := trace c ++ [EInsert (length rows); ECommit; EBegin] |})).
Proof.
  intros Htxn. destruct chunk_data as [|r chunk_data]; [by left|].
  right. unfold SQLite.write_chunk.
  destruct (SQLite.chunk_rows headers field_mapping (r :: chunk_data)) as [rows|e];
    [|left; split; [done|by exists e]].
  unfold executemany. destruct (accepts c rows);
    [|left; split; [done|by exists DatabaseError]].
  right. cbn [fst snd].
  destruct (bool_decide (SQLite.max_batch_size ≤ st.2 + length rows)%nat) eqn:Hfull.
  - apply bool_decide_eq_true in Hfull. right. split; [done|]. exists rows.
    split; [done|]. split; [done|].
    unfold SQLite.commit, SQLite.begin_transaction. cbn [in_txn durable pending trace].
    rewrite Htxn. cbn [in_txn durable pending trace].
    by rewrite <-!app_assoc.
  - apply bool_decide_eq_false in Hfull. left. split; [done|]. exists rows.
    split; [done|]. split; [lia|]. by rewrite Htxn.
Qed.


Lemma max_batch_size_pos : (0 < SQLite.max_batch_size)%nat.
Proof. apply Nat.ltb_lt. vm_compute. reflexivity. Qed.

#[local] Opaque SQLite.max_batch_size.

Lemma max_list_lengths_cons {A} (d : list A) (l : list (list A)) :
  max_list (length <$> (d :: l)) = Nat.max (length d) (max_list (length <$> l)).
Proof. reflexivity. Qed.

Lemma write_chunks_cons chunk_data rest st c :
  SQLite.write_chunks accepts headers field_mapping (chunk_data :: rest) st c
  = match SQLite.write_chunk accepts headers field_mapping chunk_data st c with
    | (Raise e, c1) => (Raise e, c1)
    | (Ok st1, c1) => SQLite.write_chunks accepts headers field_mapping rest st1 c1
    end.
Proof. reflexivity. Qed.

(** The loop keeps a transaction open with fewer than [max_batch_size]
    rows in flight between two turns; what it made durable is a prefix,
    in whole chunks, of what it sent. *)
Lemma write_chunks_inv data_chunks : ∀ st c,
  in_txn c = true → st.2 = length (pending c) →
  (st.2 < SQLite.max_batch_size)%nat →
  ∃ res c' tr,
    SQLite.write_chunks accepts headers field_mapping data_chunks st c = (res, c')
    ∧ in_txn c' = true
    ∧ trace c' = trace c ++ tr
    ∧ (txn_peak (length (pending c)) tr
       < SQLite.max_batch_size + max_list (length <$> data_chunks))%nat
    ∧ match res with
      | Ok st' =>
          ∃ sent,
            mapM (SQLite.chunk_rows headers field_mapping)
                 (filter (fun d => d ≠ []) data_chunks) = Ok sent
            ∧ st'.1 = (st.1 + length (concat sent))%nat
            ∧ durable c' ++ pending c' = durable c ++ pending c ++ concat sent
      | Raise e =>
          ∃ k sent j,
            mapM (SQLite.chunk_rows headers field_mapping)
                 (take k (filter (fun d => d ≠ []) data_chunks)) = Ok sent
            ∧ (durable c' = durable c
               ∨ durable c' = durable c ++ pending c ++ concat (take j sent))
      end.
Proof.
  induction data_chunks as [|chunk_data rest IH]; intros st c Htxn Hbs Hlt.
  { exists (Ok st), c, []. rewrite !app_nil_r.
    split; [done|]. split; [done|]. split; [done|]. split; [cbn [txn_peak]; lia|].
    exists []. simpl. rewrite app_nil_r. split; [done|]. split; [lia|done]. }
  rewrite write_chunks_cons.
  destruct (write_chunk_cases chunk_data st c Htxn)
    as [[-> Hrun]|[[Hne [e Hrun]]|[[Hne (rows & Hrows & Hsmall & Hrun)]
       |[Hne (rows & Hrows & Hfull & Hrun)]]]]; rewrite Hrun; clear Hrun.
  - (* an empty chunk *)
    destruct (IH st c Htxn Hbs Hlt) as (res & c' & tr & Hrun & ? & ? & Hpeak & Hres).
    exists res, c', tr. rewrite filter_cons.
    destruct (decide _) as [Hd|_]; [done|].
    split; [done|]. split; [done|]. split; [done|]. split; [|done].
    rewrite max_list_lengths_cons. simpl length. lia.
  - (* the chunk fails *)
    exists (Raise e), c, []. rewrite app_nil_r.
    split; [done|]. split; [done|]. split; [done|]. split; [cbn [txn_peak]; lia|].
    exists 0%nat, [], 0%nat. split; [done|]. by left.
  - (* the chunk is inserted, the transaction stays open *)
    pose proof (chunk_rows_length _ _ Hrows) as Hlen.
    match goal with |- context [SQLite.write_chunks _ _ _ _ ?st1 ?c1] =>
      destruct (IH st1 c1) as (res & c' & tr & Hrun & Hin & Htr & Hpeak & Hres) end;
      [done|cbn [fst snd pending]; rewrite length_app; lia|cbn [snd]; lia|].
    cbn [durable pending trace] in *.
    exists res, c', (EInsert (length rows) :: tr). rewrite Hrun.
    split; [done|]. split; [done|]. split; [by rewrite Htr, <-app_assoc|].
    rewrite length_app in Hpeak. split.
    { rewrite max_list_lengths_cons. cbn [txn_peak]. lia. }
    rewrite filter_cons. destruct (decide _) as [_|Hd]; [|done].
    destruct res as [st'|e].
    + destruct Hres as (sent & Hsent & Htot & Hdur).
      exists (rows :: sent). simpl. rewrite Hrows, Hsent. simpl.
      split; [done|]. cbn [fst] in Htot. rewrite length_app.
      split; [lia|]. by rewrite Hdur, <-!app_assoc.
    + destruct Hres as (k & sent & j & Hsent & Hdur).
      exists (S k), (rows :: sent), (S j). simpl. rewrite Hrows, Hsent. simpl.
      split; [done|]. destruct Hdur as [->| ->]; [by left|right].
      by rewrite <-!app_assoc.
  - (* the chunk is inserted and fills the transaction: commit, begin *)
    pose proof (chunk_rows_length _ _ Hrows) as Hlen.
    match goal with |- context [SQLite.write_chunks _ _ _ _ ?st1 ?c1] =>
      destruct (IH st1 c1) as (res & c' & tr & Hrun & Hin & Htr & Hpeak & Hres) end;
      [done|done|cbn [snd]; apply max_batch_size_pos|].
    cbn [durable pending trace] in *.
    exists res, c', (EInsert (length rows) :: ECommit :: EBegin :: tr). rewrite Hrun.
    split; [done|]. split; [done|]. split; [by rewrite Htr, <-app_assoc|].
    split.
    { rewrite max_list_lengths_cons. cbn [txn_peak]. simpl length in Hpeak. lia. }
    rewrite filter_cons. destruct (decide _) as [_|Hd]; [|done].
    destruct res as [st'|e].
    + destruct Hres as (sent & Hsent & Htot & Hdur).
      exists (rows :: sent). simpl. rewrite Hrows, Hsent. simpl.
      split; [done|]. cbn [fst] in Htot. rewrite length_app.
      split; [lia|]. rewrite Hdur. cbn [app]. by rewrite <-!app_assoc.
    + destruct Hres as (k & sent & j & Hsent & [Hdur|Hdur]).
      * exists (S k), (rows :: sent), 1%nat. simpl. rewrite Hrows, Hsent. simpl.
        split; [done|]. right. rewrite Hdur. cbn [take concat]. by rewrite app_nil_r.
      * exists (S k), (rows :: sent), (S j). simpl. rewrite Hrows, Hsent. simpl.
        split; [done|]. right. rewrite Hdur. cbn [app]. by rewrite <-!app_assoc.
Qed.


(** Why a turn of the loop fails: the chunk cannot be reorganised, or
    the engine refuses its rows. The connection is as it was. *)
Lemma write_chunk_fails chunk_data st c e c' :
  in_txn c = true →
  SQLite.write_chunk accepts headers field_mapping chunk_data st c = (Raise e, c') →
  c' = c ∧ chunk_data ≠ []
  ∧ (SQLite.chunk_rows headers field_mapping chunk_data = Raise e
     ∨ ∃ rows, SQLite.chunk_rows headers field_mapping chunk_data = Ok rows
         ∧ e = DatabaseError ∧ accepts c rows = false).
Proof.
  intros Htxn. unfold SQLite.write_chunk. destruct chunk_data as [|r d]; [done|].
  destruct (SQLite.chunk_rows headers field_mapping (r :: d)) as [rows|e'] eqn:Hrows.
  - unfold executemany. destruct (accepts c rows) eqn:Hacc.
    + cbn [fst snd]. unfold SQLite.commit, SQLite.begin_transaction.
      cbn [in_txn]. rewrite Htxn. cbn [in_txn]. by destruct (bool_decide _).
    + intros [= <- <-]. split; [done|]. split; [done|]. right. by exists rows.
  - intros [= <- <-]. split; [done|]. split; [done|]. by left.
Qed.

(** What the loop has made durable and which statements it has issued,
    told from the rows it sent; when it fails, the chunk it fails on. *)
Lemma write_chunks_run data_chunks : ∀ st c,
  in_txn c = true → st.2 = length (pending c) →
  match SQLite.write_chunks accepts headers field_mapping data_chunks st c with
  | (Ok st', c') =>
      ∃ sent,
        mapM (SQLite.chunk_rows headers field_mapping)
             (filter (fun d => d ≠ []) data_chunks) = Ok sent
        ∧ durable c' = durable c ++ committed (pending c) sent
        ∧ trace c' = trace c ++ statements (length (pending c)) sent
  | (Raise e, c') =>
      ∃ k chunk_data sent,
        filter (fun d => d ≠ []) data_chunks !! k = Some chunk_data
        ∧ mapM (SQLite.chunk_rows headers field_mapping)
               (take k (filter (fun d => d ≠ []) data_chunks)) = Ok sent
        ∧ durable c' = durable c ++ committed (pending c) sent
        ∧ durable c' ++ pending c' = durable c ++ pending c ++ concat sent
        ∧ trace c' = trace c ++ statements (length (pending c)) sent
        ∧ (SQLite.chunk_rows headers field_mapping chunk_data = Raise e
           ∨ ∃ rows, SQLite.chunk_rows headers field_mapping chunk_data = Ok rows
               ∧ e = DatabaseError ∧ accepts c' rows = false)
  end.
Proof.
  induction data_chunks as [|chunk_data rest IH]; intros st c Htxn Hbs.
  { cbn [SQLite.write_chunks]. exists []. cbn. by rewrite !app_nil_r. }
  rewrite write_chunks_cons.
  destruct (write_chunk_cases chunk_data st c Htxn)
    as [[-> Hrun]|[[Hne [e Hrun]]|[[Hne (rows & Hrows & Hsmall & Hrun)]
       |[Hne (rows & Hrows & Hfull & Hrun)]]]]; rewrite Hrun.
  - (* an empty chunk *)
    specialize (IH st c Htxn Hbs). rewrite filter_cons.
    by destruct (decide _) as [Hd|_].
  - (* the chunk fails *)
    apply write_chunk_fails in Hrun as (_ & _ & Hwhy); [|done].
    rewrite filter_cons. destruct (decide _) as [_|Hd]; [|done].
    exists 0%nat, chunk_data, []. cbn. by rewrite !app_nil_r.
  - (* the chunk is inserted, the transaction stays open *)
    clear Hrun.
    match goal with |- context [SQLite.write_chunks _ _ _ _ ?st1 ?c1] =>
      specialize (IH st1 c1) end.
    cbn [in_txn pending durable trace fst snd] in IH.
    rewrite length_app in IH. specialize (IH eq_refl ltac:(lia)).
    rewrite filter_cons. destruct (decide _) as [_|Hd]; [|done].
    assert (∀ sent, committed (pending c) (rows :: sent)
                    = committed (pending c ++ rows) sent) as Hcom.
    { intros sent. cbn [committed]. by rewrite bool_decide_eq_false_2 by lia. }
    assert (∀ sent, statements (length (pending c)) (rows :: sent)
                    = EInsert (length rows)
                      :: statements (length (pending c) + length rows) sent) as Hst.
    { intros sent. cbn [statements]. by rewrite bool_decide_eq_false_2 by lia. }
    destruct (SQLite.write_chunks _ _ _ _ _ _) as [[st'|e] c'].
    + destruct IH as (sent & Hsent & Hdur & Htr).
      exists (rows :: sent). rewrite Hcom, Hst. cbn. rewrite Hrows, Hsent. cbn.
      split; [done|]. rewrite Hdur, Htr, <- app_assoc. done.
    + destruct IH as (k & d & sent & Hk & Hsent & Hdur & Hall & Htr & Hwhy).
      exists (S k), d, (rows :: sent). rewrite Hcom, Hst. cbn.
      rewrite Hrows, Hsent. cbn.
      split; [done|]. split; [done|].
      rewrite Hall, Hdur, Htr, <- !app_assoc. done.
  - (* the chunk is inserted and fills the transaction: commit, begin *)
    clear Hrun.
    match goal with |- context [SQLite.write_chunks _ _ _ _ ?st1 ?c1] =>
      specialize (IH st1 c1 eq_refl eq_refl) end.
    cbn [in_txn pending durable trace fst snd length] in IH.
    rewrite filter_cons. destruct (decide _) as [_|Hd]; [|done].
    assert (∀ sent, committed (pending c) (rows :: sent)
                    = pending c ++ rows ++ committed [] sent) as Hcom.
    { intros sent. cbn [committed]. by rewrite bool_decide_eq_true_2 by lia. }
    assert (∀ sent, statements (length (pending c)) (rows :: sent)
                    = EInsert (length rows) :: ECommit :: EBegin
                      :: statements 0 sent) as Hst.
    { intros sent. cbn [statements]. by rewrite bool_decide_eq_true_2 by lia. }
    destruct (SQLite.write_chunks _ _ _ _ _ _) as [[st'|e] c'].
    + destruct IH as (sent & Hsent & Hdur & Htr).
      exists (rows :: sent). rewrite Hcom, Hst. cbn. rewrite Hrows, Hsent. cbn.
      split; [done|]. rewrite Hdur, Htr, <- !app_assoc. done.
    + destruct IH as (k & d & sent & Hk & Hsent & Hdur & Hall & Htr & Hwhy).
      exists (S k), d, (rows :: sent). rewrite Hcom, Hst. cbn.
      rewrite Hrows, Hsent. cbn.
      split; [done|]. split; [done|].
      rewrite Hall, Hdur, Htr, <- !app_assoc. done.
Qed.







End SQLiteFacts.



(** ** Sample type inference *)

Section TypeInferenceFacts.
Context `{PyRuntime}.

(** The single pass over a column agrees with counting category by
    category: a value counts for the first classifier that accepts it, in
    the order integer, float, date, boolean. *)
Lemma count_value_fold (values : list pyval) (tc : type_counters) :
  let tc' := foldl count_value tc values in
  integer tc' = (integer tc + length (List.filter is_integer_value values))%nat
  ∧ float_ tc' = (float_ tc + length (List.filter
      (fun x => negb (is_integer_value x) && is_float_value x) values))%nat
  ∧ date tc' = (date tc + length (List.filter
      (fun x => negb (is_integer_value x) && negb (is_float_value x)
                && is_date_value x) values))%nat
  ∧ boolean tc' = (boolean tc + length (List.filter
      (fun x => negb (is_integer_value x) && negb (is_float_value x)
                && negb (is_date_value x) && is_boolean_token x) values))%nat
  ∧ long_text tc' = (long_text tc + length (List.filter
      (fun x => match x with
                | VStr s => (255 <? length s)%nat
                | _ => false
                end) values))%nat
  ∧ max_str_length tc'
    = Nat.max (max_str_length tc) (max_list ((fun x => length (py_str x)) <$> values)).
Proof.
  revert tc. induction values as [|x values IH]; intros tc.
  { cbn. repeat split; lia. }
  cbn [foldl]. destruct (IH (count_value tc x)) as (Hi & Hf & Hd & Hb & Hl & Hm).
  cbv zeta. rewrite Hi, Hf, Hd, Hb, Hl, Hm. clear.
  rewrite fmap_cons.
  cbn [List.filter max_list count_value integer float_ date boolean
       long_text max_str_length].
  repeat split.
  - destruct (is_integer_value x); cbn [length]; lia.
  - destruct (is_integer_value x), (is_float_value x); cbn [length negb andb]; lia.
  - destruct (is_integer_value x), (is_float_value x), (is_date_value x);
      cbn [length negb andb]; lia.
  - destruct (is_integer_value x), (is_float_value x), (is_date_value x),
      (is_boolean_token x); cbn [length negb andb]; lia.
  - destruct x as [| | | |s|]; cbn [length py_str]; try lia.
    destruct (255 <? length s)%nat; cbn [length]; lia.
  - unfold id. lia.
Qed.

(** X6: the four scalar counters partition the values they count: each
    value counts for at most one category, and the values counted for
    none are those no classifier accepts. *)
Theorem type_counters_partition (values : list pyval) :
  let tc := foldl count_value zero_counters values in
  (integer tc + float_ tc + date tc + boolean tc
   + length (List.filter
       (fun x => negb (is_integer_value x) && negb (is_float_value x)
                 && negb (is_date_value x) && negb (is_boolean_token x)) values)
   = length values)%nat.
Proof.
  intros tc. subst tc.
  destruct (count_value_fold values zero_counters) as (Hi & Hf & Hd & Hb & _).
  cbv zeta in *. rewrite Hi, Hf, Hd, Hb. cbn [zero_counters integer float_ date boolean].
  clear. induction values as [|x values IH]; [done|].
  cbn [List.filter length].
  destruct (is_integer_value x), (is_float_value x), (is_date_value x),
    (is_boolean_token x); cbn [length negb andb]; lia.
Qed.

Ltac not_listed Hin :=
  cbn in Hin;
  repeat (apply elem_of_cons in Hin as [Hin|Hin]; [discriminate Hin|]);
  by apply elem_of_nil in Hin.

Lemma threshold_pos n : (1 ≤ threshold n)%nat.
Proof. unfold threshold. lia. Qed.

(** The counts behind each scalar type. *)
Lemma column_type_scalar_counts db_type pk i (column_data : list pyval) :
  let values := non_empty column_data in
  let thr := threshold (length values) in
  let t := column_type db_type pk i column_data in
  (1 ≤ thr)%nat
  ∧ (t ∈ ["INTEGER PRIMARY KEY"; "INTEGER"; "INT AUTO_INCREMENT PRIMARY KEY"; "INT"]%string →
     (thr ≤ length (List.filter is_integer_value values))%nat)
  ∧ (t ∈ ["REAL"; "DOUBLE"]%string →
     (thr ≤ length (List.filter
        (fun x => negb (is_integer_value x) && is_float_value x) values))%nat)
  ∧ (t ∈ ["DATE"; "DATETIME"]%string →
     (thr ≤ length (List.filter
        (fun x => negb (is_integer_value x) && negb (is_float_value x)
                  && is_date_value x) values))%nat)
  ∧ (t ∈ ["BOOLEAN"; "TINYINT(1)"]%string →
     (thr ≤ length (List.filter
        (fun x => negb (is_integer_value x) && negb (is_float_value x)
                  && negb (is_date_value x) && is_boolean_token x) values))%nat).
Proof.
  intros values thr t. split; [apply threshold_pos|].
  subst t. unfold column_type. fold values.
  destruct (existsb str_fails column_data).
  { unfold default_type. destruct (is_sqlite db_type);
      repeat split; intros Hin; not_listed Hin. }
  destruct (count_value_fold values zero_counters) as (Hi & Hf & Hd & Hb & _).
  cbv zeta in Hi, Hf, Hd, Hb. cbn [zero_counters integer float_ date boolean] in *.
  destruct values as [|v values'] eqn:Hv.
  { unfold default_type. destruct (is_sqlite db_type);
      repeat split; intros Hin; not_listed Hin. }
  rewrite <-Hv in *. cbv zeta. fold thr.
  rewrite Hi, Hf, Hd, Hb. cbn [Nat.add].
  repeat case_bool_decide;
    destruct (is_sqlite db_type), pk; cbn [andb];
    repeat split; intros Hin;
    first [subst thr; rewrite <-Hv; assumption | not_listed Hin].
Qed.

(** X7: a column gets a scalar type only when the values counted for that
    category number at least [max(1, int(total * 0.95))], the total being
    that of the column's non-blank sampled values. *)
Theorem column_type_scalar_reaches_threshold db_type pk i (column_data : list pyval) :
  let values := non_empty column_data in
  let thr := threshold (length values) in
  let t := column_type db_type pk i column_data in
  (1 ≤ thr)%nat
  ∧ (t ∈ ["INTEGER PRIMARY KEY"; "INTEGER"; "INT AUTO_INCREMENT PRIMARY KEY"; "INT"]%string →
     (thr ≤ length (List.filter is_integer_value values))%nat)
  ∧ (t ∈ ["REAL"; "DOUBLE"]%string →
     (thr ≤ length (List.filter
        (fun x => negb (is_integer_value x) && is_float_value x) values))%nat)
  ∧ (t ∈ ["DATE"; "DATETIME"]%string →
     (thr ≤ length (List.filter
        (fun x => negb (is_integer_value x) && negb (is_float_value x)
                  && is_date_value x) values))%nat)
  ∧ (t ∈ ["BOOLEAN"; "TINYINT(1)"]%string →
     (thr ≤ length (List.filter
        (fun x => negb (is_integer_value x) && negb (is_float_value x)
                  && negb (is_date_value x) && is_boolean_token x) values))%nat).
Proof. apply column_type_scalar_counts. Qed.

Lemma filter_length_pos {A} (p : A → bool) (l : list A) :
  (0 < length (List.filter p l))%nat ↔ existsb p l = true.
Proof.
  induction l as [|x l IH]; cbn [List.filter existsb length]; [split; [lia|done]|].
  destruct (p x); cbn [length orb]; [split; [done|lia]|exact IH].
Qed.

Lemma column_type_text db_type pk i (column_data : list pyval) :
  let values := non_empty column_data in
  let thr := threshold (length values) in
  let m := max_list ((fun x => length (py_str x)) <$> values) in
  let L := Nat.min (Nat.max (m + 50) 100) 255 in
  values ≠ [] →
  (length (List.filter is_integer_value values) < thr)%nat →
  (length (List.filter
     (fun x => negb (is_integer_value x) && is_float_value x) values) < thr)%nat →
  (length (List.filter
     (fun x => negb (is_integer_value x) && negb (is_float_value x)
               && is_date_value x) values) < thr)%nat →
  (length (List.filter
     (fun x => negb (is_integer_value x) && negb (is_float_value x)
               && negb (is_date_value x) && is_boolean_token x) values) < thr)%nat →
  column_type db_type pk i column_data
  = (if existsb str_fails column_data then default_type db_type
     else if is_sqlite db_type then "TEXT"
     else if existsb (fun x => match x with
                               | VStr s => (255 <? length s)%nat
                               | _ => false
                               end) values
          then "TEXT"
          else "VARCHAR(" ++ decimal L ++ ")")%string
  ∧ (100 ≤ L ≤ 255)%nat.
Proof.
  intros values thr m L Hne Hi Hf Hd Hb. split; [|subst L; lia].
  unfold column_type. change (non_empty column_data) with values.
  destruct (existsb str_fails column_data); [done|].
  subst thr m L. clearbody values.
  destruct (count_value_fold values zero_counters) as (Ei & Ef & Ed & Eb & El & Em).
  cbv zeta in Ei, Ef, Ed, Eb, El, Em.
  cbn [zero_counters integer float_ date boolean long_text max_str_length Nat.add] in *.
  destruct values as [|v values']; [done|].
  cbv beta iota zeta. set (vals := v :: values') in *.
  rewrite Ei, Ef, Ed, Eb, El, Em.
  rewrite !bool_decide_eq_false_2 by lia.
  destruct (existsb _ vals) eqn:Hlong.
  - apply filter_length_pos in Hlong.
    rewrite bool_decide_eq_true_2 by done. by destruct (is_sqlite db_type).
  - rewrite bool_decide_eq_false_2.
    + rewrite Nat.max_0_l. by destruct (is_sqlite db_type).
    + rewrite filter_length_pos, Hlong. done.
Qed.

(** X9: a column with a non-blank value in which no scalar category reaches
    the threshold gets a text type. When [str] raises on one of its
    values, the [except] branch gives the default text type. Otherwise,
    for the embedded backend it is TEXT; for the other it is TEXT as soon
    as one sampled [str] is longer than 255 characters, and otherwise
    VARCHAR(L) with L = min(max(m + 50, 100), 255), [m] being the longest
    [str(x)] of the column's non-blank values (so 100 <= L <= 255). *)
Theorem column_type_text_fallthrough db_type pk i (column_data : list pyval) :
  let values := non_empty column_data in
  let thr := threshold (length values) in
  let m := max_list ((fun x => length (py_str x)) <$> values) in
  let L := Nat.min (Nat.max (m + 50) 100) 255 in
  values ≠ [] →
  (length (List.filter is_integer_value values) < thr)%nat →
  (length (List.filter
     (fun x => negb (is_integer_value x) && is_float_value x) values) < thr)%nat →
  (length (List.filter
     (fun x => negb (is_integer_value x) && negb (is_float_value x)
               && is_date_value x) values) < thr)%nat →
  (length (List.filter
     (fun x => negb (is_integer_value x) && negb (is_float_value x)
               && negb (is_date_value x) && is_boolean_token x) values) < thr)%nat →
  column_type db_type pk i column_data
  = (if existsb str_fails column_data then default_type db_type
     else if is_sqlite db_type then "TEXT"
     else if existsb (fun x => match x with
                               | VStr s => (255 <? length s)%nat
                               | _ => false
                               end) values
          then "TEXT"
          else "VARCHAR(" ++ decimal L ++ ")")%string
  ∧ (100 ≤ L ≤ 255)%nat.
Proof. exact (column_type_text db_type pk i column_data). Qed.

Lemma threshold_floor (total_values : nat) :
  (total_values ≤ 5000)%nat →
  threshold total_values = Nat.max 1 (19 * total_values / 20).
Proof.
  intros Hle.
  assert (forallb (fun n => threshold n =? Nat.max 1 (19 * n / 20))%nat (seq 0 (S 5000)) = true)
    as Hall by (vm_compute; reflexivity).
  rewrite forallb_forall in Hall.
  apply Nat.eqb_eq, Hall, in_seq. lia.
Qed.

(** X8: for every column of up to 5000 non-blank values, which covers every
    sample [get_sample_data] can return, the threshold
    [max(1, int(total * 0.95))] is max(1, floor(19 * total / 20)): the
    product is truncated, so one value of another category is tolerated
    from 2 values on. *)
Theorem threshold_truncates (total_values : nat) :
  (total_values ≤ 5000)%nat →
  threshold total_values = Nat.max 1 (19 * total_values / 20).
Proof. exact (threshold_floor total_values). Qed.

Lemma detect_column_types_count (sample_data : list row) headers db_type :
  length (detect_column_types sample_data headers db_type)
  = match headers with
    | [] => 0%nat
    | _ => Nat.max (length headers) (max_cols sample_data)
    end.
Proof.
  unfold detect_column_types.
  destruct sample_data as [|r sample]; [rewrite length_replicate; by destruct headers|].
  destruct headers as [|h headers]; [done|].
  set (sample_data := r :: sample). set (hs := h :: headers).
  destruct (filter _ sample_data) as [|r' rows] eqn:Hrows.
  - rewrite length_replicate.
    assert (max_cols sample_data = 0%nat) as ->; [|lia].
    unfold max_cols. clearbody sample_data. clear -Hrows.
    induction sample_data as [|x l IH]; [done|].
    rewrite filter_cons in Hrows. destruct (decide (x ≠ [])) as [|Hx]; [done|].
    rewrite fmap_cons. cbn [max_list]. rewrite (IH Hrows).
    destruct x; [done|by destruct Hx].
  - cbv zeta. rewrite length_app, length_replicate, length_imap, length_fmap, length_seq.
    lia.
Qed.

(** X10: [detect_column_types] returns one type per header and one per
    sampled column, whichever is more: with no header it returns nothing,
    and otherwise as many types as the longer of the header list and the
    widest sampled row. It pads a narrow sample and does not cut a wide
    one. *)
Theorem detect_column_types_length (sample_data : list row) headers db_type :
  length (detect_column_types sample_data headers db_type)
  = match headers with
    | [] => 0%nat
    | _ => Nat.max (length headers) (max_cols sample_data)
    end.
Proof. apply detect_column_types_count. Qed.

Lemma column_0 (sample_data : list row) : column sample_data 0 = first_col_values sample_data.
Proof.
  unfold column, first_col_values. induction sample_data as [|r l IH]; [done|].
  cbn [omap list_omap]. rewrite IH. by destruct r as [|[] r].
Qed.

Lemma set_add_length seen x :
  length (set_add seen x)
  = (length seen + if existsb (py_eqb x) seen then 0 else 1)%nat.
Proof.
  unfold set_add. destruct (existsb _ seen); [lia|]. rewrite length_app. done.
Qed.

Lemma py_set_length_le seen l :
  (length (foldl set_add seen l) ≤ length seen + length l)%nat.
Proof.
  revert seen. induction l as [|x l IH]; intros seen; cbn [foldl length]; [lia|].
  specialize (IH (set_add seen x)). rewrite set_add_length in IH.
  destruct (existsb _ seen); lia.
Qed.

(** [len(set(l)) == len(l)] holds only when no value equals an earlier
    one. *)
Lemma py_set_full_distinct seen l :
  length (foldl set_add seen l) = (length seen + length l)%nat →
  (∀ a b, a ∈ seen → b ∈ l → py_eqb b a = false)
  ∧ (∀ j k a b, (j < k)%nat → l !! j = Some a → l !! k = Some b → py_eqb b a = false).
Proof.
  revert seen. induction l as [|x l IH]; intros seen Hlen.
  { split; [intros a b _ Hb; by apply elem_of_nil in Hb|intros j k a b _ Hj; done]. }
  cbn [foldl length] in Hlen.
  pose proof (py_set_length_le (set_add seen x) l) as Hle.
  rewrite set_add_length in Hle.
  destruct (existsb (py_eqb x) seen) eqn:Hex; [lia|].
  assert (set_add seen x = seen ++ [x]) as Eadd by (unfold set_add; by rewrite Hex).
  rewrite Eadd in Hlen.
  destruct (IH (seen ++ [x])) as [Hseen Hpair]; [rewrite length_app; cbn [length]; lia|].
  assert (∀ a, a ∈ seen → py_eqb x a = false) as Hx.
  { intros a Ha. apply not_true_is_false. intros Heq.
    assert (existsb (py_eqb x) seen = true) as Hc; [|congruence].
    apply existsb_exists. exists a. split; [by apply list_elem_of_In|done]. }
  split.
  - intros a b Ha Hb. apply elem_of_cons in Hb as [->|Hb]; [by apply Hx|].
    apply Hseen; [|done]. apply elem_of_app. by left.
  - intros j k a b Hjk Hj Hk. destruct k as [|k]; [lia|]. cbn in Hk.
    destruct j as [|j].
    + cbn in Hj. injection Hj as <-. apply Hseen.
      * apply elem_of_app. right. by apply list_elem_of_singleton.
      * by eapply list_elem_of_lookup_2.
    + cbn in Hj. apply (Hpair j k); [lia|done..].
Qed.

Lemma primary_key_facts
    (sample_data : list row) headers db_type (i : nat) (t : string) :
  detect_column_types sample_data headers db_type !! i = Some t →
  t ∈ ["INTEGER PRIMARY KEY"; "INT AUTO_INCREMENT PRIMARY KEY"]%string →
  let values := first_col_values sample_data in
  i = 0%nat
  ∧ values ≠ []
  ∧ (∀ j k a b, (j < k)%nat → values !! j = Some a → values !! k = Some b →
       py_eqb b a = false)
  ∧ (threshold (length (non_empty values))
     ≤ length (List.filter is_integer_value (non_empty values)))%nat.
Proof.
  intros Hlook Hin values.
  assert (t ≠ default_type db_type) as Hnd.
  { intros ->. unfold default_type in Hin. destruct (is_sqlite db_type); not_listed Hin. }
  assert (∀ n j, replicate n (default_type db_type) !! j = Some t → False) as Hrep.
  { intros n j [Heq _]%lookup_replicate. done. }
  unfold detect_column_types in Hlook.
  destruct sample_data as [|r sample]; [by apply Hrep in Hlook|].
  destruct headers as [|h headers]; [by apply Hrep in Hlook|].
  set (sample_data := r :: sample) in *.
  destruct (filter _ sample_data) as [|r' rows]; [by apply Hrep in Hlook|].
  cbv zeta in Hlook. apply lookup_app_Some in Hlook as [Hlook|[_ Hlook]];
    [|by apply Hrep in Hlook].
  apply list_lookup_imap_Some in Hlook as (column_data & Hcol & ->).
  apply list_lookup_fmap_Some in Hcol as (i' & -> & Hseq).
  apply lookup_seq in Hseq as [-> _]. change (0 + i)%nat with i in *.
  pose proof (column_type_scalar_counts db_type (is_potential_pk sample_data)
                i (column sample_data i)) as (_ & Hint & _).
  cbv zeta in Hint.
  assert (i = 0%nat ∧ is_potential_pk sample_data = true) as [-> Hpk].
  { revert Hin. unfold column_type.
    destruct (existsb str_fails (column sample_data i));
      [unfold default_type; destruct (is_sqlite db_type); intros Hin; not_listed Hin|].
    destruct (non_empty (column sample_data i));
      [unfold default_type; destruct (is_sqlite db_type); intros Hin; not_listed Hin|].
    cbv zeta. repeat case_bool_decide;
      destruct (is_sqlite db_type), (is_potential_pk sample_data); cbn [andb];
      intros Hin; first [done | not_listed Hin]. }
  rewrite column_0 in Hint, Hin. fold values in Hint, Hin.
  unfold is_potential_pk in Hpk. fold values in Hpk.
  apply andb_prop in Hpk as [Hset%bool_decide_eq_true Hpos%bool_decide_eq_true].
  split; [done|]. split.
  { intros Hnil. rewrite Hnil in Hpos. cbn in Hpos. lia. }
  split.
  - apply (py_set_full_distinct [] values). symmetry. exact Hset.
  - apply Hint. revert Hin. rewrite !elem_of_cons, !elem_of_nil. tauto.
Qed.

(** X11: only the first column can get the primary-key variant of a type,
    and only when the sample has a first-column value that is not [None],
    no such value equals an earlier one ([set] keeps them all), and the
    integer category reaches the threshold for that column. *)
Theorem primary_key_needs_distinct_first_column
    (sample_data : list row) headers db_type (i : nat) (t : string) :
  detect_column_types sample_data headers db_type !! i = Some t →
  t ∈ ["INTEGER PRIMARY KEY"; "INT AUTO_INCREMENT PRIMARY KEY"]%string →
  let values := first_col_values sample_data in
  i = 0%nat
  ∧ values ≠ []
  ∧ (∀ j k a b, (j < k)%nat → values !! j = Some a → values !! k = Some b →
       py_eqb b a = false)
  ∧ (threshold (length (non_empty values))
     ≤ length (List.filter is_integer_value (non_empty values)))%nat.
Proof. exact (primary_key_facts sample_data headers db_type i t). Qed.

Lemma default_type_text db_type :
  default_type db_type = "TEXT"%string
  ∨ ∃ L, (100 ≤ L ≤ 255)%nat
         ∧ default_type db_type = ("VARCHAR(" ++ decimal L ++ ")")%string.
Proof.
  unfold default_type. destruct (is_sqlite db_type); [by left|right].
  exists 255%nat. split; [lia|reflexivity].
Qed.

(** C3: a column gets a scalar type only when the values counted for that
    category (each non-blank value counting for the first of integer,
    float, date, boolean that accepts it) number at least
    [max(1, int(n * 0.95))], [n] being the number of non-blank values.
    For every sample the product is truncated: the threshold is
    max(1, floor(19 n / 20)), which is less than 95% of [n] unless 20
    divides [n]. When no category reaches it the column gets a text
    type. *)
Theorem scalar_type_needs_truncated_threshold db_type pk i (column_data : list pyval) :
  let values := non_empty column_data in
  let n := length values in
  let thr := Nat.max 1 (19 * n / 20) in
  let t := column_type db_type pk i column_data in
  let integers := length (List.filter is_integer_value values) in
  let floats := length (List.filter
    (fun x => negb (is_integer_value x) && is_float_value x) values) in
  let dates := length (List.filter
    (fun x => negb (is_integer_value x) && negb (is_float_value x)
              && is_date_value x) values) in
  let booleans := length (List.filter
    (fun x => negb (is_integer_value x) && negb (is_float_value x)
              && negb (is_date_value x) && is_boolean_token x) values) in
  (n ≤ 5000)%nat →
  threshold n = thr
  ∧ (t ∈ ["INTEGER PRIMARY KEY"; "INTEGER"; "INT AUTO_INCREMENT PRIMARY KEY"; "INT"]%string →
     (thr ≤ integers)%nat)
  ∧ (t ∈ ["REAL"; "DOUBLE"]%string → (thr ≤ floats)%nat)
  ∧ (t ∈ ["DATE"; "DATETIME"]%string → (thr ≤ dates)%nat)
  ∧ (t ∈ ["BOOLEAN"; "TINYINT(1)"]%string → (thr ≤ booleans)%nat)
  ∧ ((integers < thr)%nat → (floats < thr)%nat → (dates < thr)%nat →
     (booleans < thr)%nat →
     t = "TEXT"%string
     ∨ ∃ L, (100 ≤ L ≤ 255)%nat ∧ t = ("VARCHAR(" ++ decimal L ++ ")")%string).
Proof.
  intros values n thr t integers floats dates booleans Hn.
  pose proof (threshold_floor n Hn) as Hthr. fold thr in Hthr.
  pose proof (column_type_scalar_counts db_type pk i column_data) as Hcounts.
  cbv zeta in Hcounts. fold values n t in Hcounts. rewrite Hthr in Hcounts.
  destruct Hcounts as (_ & Hi & Hf & Hd & Hb).
  split; [done|]. split; [done|]. split; [done|]. split; [done|]. split; [done|].
  intros Li Lf Ld Lb. subst t.
  destruct (decide (values = [])) as [Hnil|Hne].
  { unfold column_type. fold values. rewrite Hnil.
    destruct (existsb str_fails column_data); apply default_type_text. }
  pose proof (column_type_text db_type pk i column_data) as Htext.
  cbv zeta in Htext. fold values n in Htext. rewrite Hthr in Htext.
  destruct (Htext Hne Li Lf Ld Lb) as [-> HL].
  destruct (existsb str_fails column_data); [apply default_type_text|].
  destruct (is_sqlite db_type); [by left|].
  destruct (existsb _ values); [by left|right]. eexists. split; [exact HL|done].
Qed.

(** C4: [detect_column_types] returns as many types as the longer of the
    header list and the widest sampled row. When no sampled row is wider
    than the header list this is one type per header, the headers beyond
    the sample getting the default text type, as every header does for
    an empty sample. A sample wider than the headers is not cut. *)
Theorem detect_column_types_length_and_padding (sample_data : list row) headers db_type :
  headers ≠ [] →
  let types := detect_column_types sample_data headers db_type in
  length types = Nat.max (length headers) (max_cols sample_data)
  ∧ ((max_cols sample_data ≤ length headers)%nat → length types = length headers)
  ∧ (∀ i, (max_cols sample_data ≤ i < length headers)%nat →
       types !! i = Some (default_type db_type))
  ∧ (sample_data = [] → types = replicate (length headers) (default_type db_type)).
Proof.
  intros Hh types.
  assert (length types = Nat.max (length headers) (max_cols sample_data)) as Hlen.
  { subst types. rewrite detect_column_types_count. by destruct headers. }
  split; [done|]. split; [lia|]. split; [|by intros ->].
  intros i Hi. subst types. unfold detect_column_types in *.
  destruct sample_data as [|r sample]; [apply lookup_replicate_2; lia|].
  destruct headers as [|h headers]; [done|].
  set (sample_data := r :: sample) in *. set (hs := h :: headers) in *.
  destruct (filter _ sample_data) as [|r' rows]; [apply lookup_replicate_2; lia|].
  cbv zeta.
  rewrite lookup_app_r; rewrite length_imap, length_fmap, length_seq; [|lia].
  apply lookup_replicate_2. lia.
Qed.

(** C6: for the networked backend, a column with a non-blank value on
    which [str] does not fail and in which no scalar category reaches the
    threshold gets TEXT exactly when one of its sampled strings is longer
    than 255 characters, and otherwise VARCHAR(L) with
    L = min(max(m + 50, 100), 255), [m] the longest [str(x)] of its
    non-blank values. Only strings count as long: a value of another type
    whose text is longer than 255 characters gives VARCHAR(255). *)
Theorem text_type_counts_long_strings_only db_type pk i (column_data : list pyval) :
  let values := non_empty column_data in
  let thr := threshold (length values) in
  let m := max_list ((fun x => length (py_str x)) <$> values) in
  let L := Nat.min (Nat.max (m + 50) 100) 255 in
  let long_str := existsb (fun x => match x with
                                    | VStr s => (255 <? length s)%nat
                                    | _ => false
                                    end) values in
  is_sqlite db_type = false →
  existsb str_fails column_data = false →
  values ≠ [] →
  (length (List.filter is_integer_value values) < thr)%nat →
  (length (List.filter
     (fun x => negb (is_integer_value x) && is_float_value x) values) < thr)%nat →
  (length (List.filter
     (fun x => negb (is_integer_value x) && negb (is_float_value x)
               && is_date_value x) values) < thr)%nat →
  (length (List.filter
     (fun x => negb (is_integer_value x) && negb (is_float_value x)
               && negb (is_date_value x) && is_boolean_token x) values) < thr)%nat →
  column_type db_type pk i column_data
  = (if long_str then "TEXT" else "VARCHAR(" ++ decimal L ++ ")")%string
  ∧ (long_str = false → (255 < m)%nat →
     column_type db_type pk i column_data = "VARCHAR(255)"%string).
Proof.
  intros values thr m L long_str Hdb Hstr Hne Hi Hf Hd Hb.
  pose proof (column_type_text db_type pk i column_data) as Htext.
  cbv zeta in Htext. fold values thr m L long_str in Htext.
  destruct (Htext Hne Hi Hf Hd Hb) as [Ht _].
  rewrite Hstr, Hdb in Ht. split; [done|].
  intros Hshort Hm. rewrite Ht, Hshort.
  replace L with 255%nat by (subst L; lia). reflexivity.
Qed.

End TypeInferenceFacts.

(** One integer and one word: the integer decides. *)
Lemma scalar_type_needs_truncated_threshold_witness :
  let column_data := [VInt 1; VStr (lit "a")] in
  let values := non_empty (H := ascii_runtime) column_data in
  let n := length values in
  let thr := Nat.max 1 (19 * n / 20) in
  let t := column_type (H := ascii_runtime) "sqlite" false 1 column_data in
  let integers := length (List.filter (is_integer_value (H := ascii_runtime)) values) in
  let floats := length (List.filter
    (fun x => negb (is_integer_value (H := ascii_runtime) x)
              && is_float_value (H := ascii_runtime) x) values) in
  let dates := length (List.filter
    (fun x => negb (is_integer_value (H := ascii_runtime) x)
              && negb (is_float_value (H := ascii_runtime) x)
              && is_date_value (H := ascii_runtime) x) values) in
  let booleans := length (List.filter
    (fun x => negb (is_integer_value (H := ascii_runtime) x)
              && negb (is_float_value (H := ascii_runtime) x)
              && negb (is_date_value (H := ascii_runtime) x)
              && is_boolean_token (H := ascii_runtime) x) values) in
  threshold n = thr
  ∧ (t ∈ ["INTEGER PRIMARY KEY"; "INTEGER"; "INT AUTO_INCREMENT PRIMARY KEY"; "INT"]%string →
     (thr ≤ integers)%nat)
  ∧ (t ∈ ["REAL"; "DOUBLE"]%string → (thr ≤ floats)%nat)
  ∧ (t ∈ ["DATE"; "DATETIME"]%string → (thr ≤ dates)%nat)
  ∧ (t ∈ ["BOOLEAN"; "TINYINT(1)"]%string → (thr ≤ booleans)%nat)
  ∧ ((integers < thr)%nat → (floats < thr)%nat → (dates < thr)%nat →
     (booleans < thr)%nat →
     t = "TEXT"%string
     ∨ ∃ L, (100 ≤ L ≤ 255)%nat ∧ t = ("VARCHAR(" ++ decimal L ++ ")")%string).
Proof.
  intros column_data.
  apply (scalar_type_needs_truncated_threshold (H := ascii_runtime) "sqlite" false 1
           column_data).
  vm_compute. lia.
Defined.

(** One integer of two values, half of them, makes the column INTEGER. *)
Lemma scalar_type_on_half_of_the_values :
  let column_data := [VInt 1; VStr (lit "a")] in
  column_type (H := ascii_runtime) "sqlite" false 1 column_data = "INTEGER"%string
  ∧ length (non_empty (H := ascii_runtime) column_data) = 2%nat
  ∧ length (List.filter (is_integer_value (H := ascii_runtime))
              (non_empty (H := ascii_runtime) column_data)) = 1%nat
  ∧ ¬ (95 * 2 ≤ 100 * 1)%nat.
Proof.
  intros column_data. split; [vm_compute; reflexivity|].
  split; [vm_compute; reflexivity|]. split; [vm_compute; reflexivity|]. lia.
Qed.

(** Two headers, a sample of one column. *)
Lemma detect_column_types_length_and_padding_witness :
  let sample_data := [[VInt 1]; [VInt 2]] in
  let headers := [lit "id"; lit "name"] in
  let types := detect_column_types (H := ascii_runtime) sample_data headers "mysql" in
  length types = Nat.max (length headers) (max_cols sample_data)
  ∧ ((max_cols sample_data ≤ length headers)%nat → length types = length headers)
  ∧ (∀ i, (max_cols sample_data ≤ i < length headers)%nat →
       types !! i = Some (default_type "mysql"))
  ∧ (sample_data = [] → types = replicate (length headers) (default_type "mysql")).
Proof.
  intros sample_data headers.
  apply (detect_column_types_length_and_padding (H := ascii_runtime)
           sample_data headers "mysql").
  discriminate.
Defined.

(** One header, a sample of two columns: two types. *)
Lemma detect_column_types_longer_than_headers :
  detect_column_types (H := ascii_runtime) [[VInt 1; VInt 2]] [lit "a"] "sqlite"
  = ["INTEGER PRIMARY KEY"; "INTEGER"]%string
  ∧ length (detect_column_types (H := ascii_runtime) [[VInt 1; VInt 2]] [lit "a"] "sqlite")
    ≠ length [lit "a"].
Proof. split; [vm_compute; reflexivity|vm_compute; discriminate]. Qed.

(** Two short words in a column of the networked backend. *)
Lemma text_type_counts_long_strings_only_witness :
  let column_data := [VStr (lit "hello"); VStr (lit "world!")] in
  let values := non_empty (H := ascii_runtime) column_data in
  let m := max_list ((fun x => length (py_str (H := ascii_runtime) x)) <$> values) in
  let L := Nat.min (Nat.max (m + 50) 100) 255 in
  let long_str := existsb (fun x => match x with
                                    | VStr s => (255 <? length s)%nat
                                    | _ => false
                                    end) values in
  column_type (H := ascii_runtime) "mysql" true 0 column_data
  = (if long_str then "TEXT" else "VARCHAR(" ++ decimal L ++ ")")%string
  ∧ (long_str = false → (255 < m)%nat →
     column_type (H := ascii_runtime) "mysql" true 0 column_data = "VARCHAR(255)"%string).
Proof.
  intros column_data.
  apply (text_type_counts_long_strings_only (H := ascii_runtime) "mysql" true 0
           column_data);
    vm_compute; first [reflexivity | discriminate | lia].
Defined.

(** An integer of 301 digits, beyond the 64-bit range and so in no scalar
    category: its text is longer than 255 characters, the column is
    VARCHAR(255) and not TEXT. *)
Lemma long_integer_text_is_not_long_text :
  let column_data := [VInt (10 ^ 300)] in
  column_type (H := ascii_runtime) "mysql" false 0 column_data = "VARCHAR(255)"%string
  ∧ non_empty (H := ascii_runtime) column_data = column_data
  ∧ length (py_str (H := ascii_runtime) (VInt (10 ^ 300))) = 301%nat
  ∧ is_integer_value (H := ascii_runtime) (VInt (10 ^ 300)) = false
  ∧ is_float_value (H := ascii_runtime) (VInt (10 ^ 300)) = false
  ∧ is_date_value (H := ascii_runtime) (VInt (10 ^ 300)) = false
  ∧ is_boolean_token (H := ascii_runtime) (VInt (10 ^ 300)) = false.
Proof. vm_compute. done. Qed.

(** Two short words in a column of the networked backend: VARCHAR(100). *)
Lemma column_type_text_fallthrough_witness :
  column_type (H := ascii_runtime) "mysql" true 0
    [VStr (lit "hello"); VStr (lit "world!")]
  = "VARCHAR(100)"%string
  ∧ (100 ≤ 100 ≤ 255)%nat.
Proof.
  apply (column_type_text_fallthrough (H := ascii_runtime) "mysql" true 0
           [VStr (lit "hello"); VStr (lit "world!")]);
    vm_compute; first [discriminate | lia].
Defined.

(** Two values: one of them decides. *)
Lemma threshold_truncates_witness : threshold 2 = Nat.max 1 (19 * 2 / 20).
Proof. apply (threshold_truncates 2). lia. Defined.

(** Two distinct integers in the only column. *)
Lemma primary_key_needs_distinct_first_column_witness :
  let sample_data := [[VInt 1]; [VInt 2]] in
  let values := first_col_values sample_data in
  0%nat = 0%nat
  ∧ values ≠ []
  ∧ (∀ j k a b, (j < k)%nat → values !! j = Some a → values !! k = Some b →
       py_eqb b a = false)
  ∧ (threshold (length (non_empty (H := ascii_runtime) values))
     ≤ length (List.filter (is_integer_value (H := ascii_runtime))
                 (non_empty (H := ascii_runtime) values)))%nat.
Proof.
  intros sample_data.
  apply (primary_key_needs_distinct_first_column (H := ascii_runtime)
           sample_data [lit "id"] "sqlite" 0 "INTEGER PRIMARY KEY").
  - vm_compute. reflexivity.
  - apply elem_of_cons. by left.
Defined.
(** ** More on the coordinator *)

Section CoordinatorCounts.
Import Coordinator.

Lemma processed_rows_collect_from c completed :
  processed_rows (foldl store c completed)
  = (processed_rows c + sum_list ((fun r : chunk_result => length r.2) <$> completed))%nat.
Proof.
  revert c. induction completed as [|r l IH]; intros c; cbn [foldl]; [cbn; lia|].
  rewrite IH, fmap_cons.
  change (sum_list (length r.2 :: ((fun r : chunk_result => length r.2) <$> l)))
    with (length r.2 + sum_list ((fun r : chunk_result => length r.2) <$> l))%nat.
  unfold store. destruct r as [i [|x d]]; cbn [snd fst processed_rows length]; lia.
Qed.

Lemma sum_list_lengths {A} (l : list (list A)) :
  sum_list (length <$> l) = length (concat l).
Proof.
  induction l as [|x l IH]; [done|].
  rewrite fmap_cons.
  change (sum_list (length x :: (length <$> l)))
    with (length x + sum_list (length <$> l))%nat.
  cbn [concat]. rewrite length_app. lia.
Qed.

(** X12: the row count the coordinator reports for a sheet is the number of
    rows it hands to the write step, whatever the order of completion: a
    chunk that came back empty adds nothing to either. *)
Theorem processed_rows_counts_rows_written
    (results : list (list row)) (completed : list chunk_result) :
  completed ≡ₚ tagged results →
  processed_rows (collect completed) = length (rows_written completed)
  ∧ processed_rows (collect completed) = length (concat results).
Proof.
  intros Hperm.
  assert (processed_rows (collect completed) = length (concat results)) as Hn.
  { unfold collect. rewrite processed_rows_collect_from. cbn [processed_rows].
    rewrite Hperm. unfold tagged. rewrite fmap_imap.
    rewrite (imap_ext _ (const length)) by done.
    rewrite imap_const. apply sum_list_lengths. }
  split; [|done]. rewrite Hn. unfold rows_written, chunk_data_only.
  rewrite (sorted_chunks_collect _ results Hperm).
  rewrite (filter_tagged_snd_from id). by rewrite concat_filter_nonempty.
Qed.

(** X13: the number of chunks is the least that covers the estimated rows:
    every estimated row falls in a window, and the last window starts
    before the estimate ends. *)
Theorem total_chunks_is_ceiling estimated_rows chunk_size :
  (0 < chunk_size)%nat → (0 < estimated_rows)%nat →
  ((total_chunks estimated_rows chunk_size - 1) * chunk_size < estimated_rows
   ≤ total_chunks estimated_rows chunk_size * chunk_size)%nat.
Proof.
  intros Hpos Hrows. split; [|by apply total_chunks_cover].
  unfold total_chunks.
  pose proof (Nat.div_mod (estimated_rows + chunk_size - 1) chunk_size ltac:(lia)).
  pose proof (Nat.mod_upper_bound (estimated_rows + chunk_size - 1) chunk_size ltac:(lia)).
  nia.
Qed.

End CoordinatorCounts.

(** A failed chunk (empty) between two others, completing first. *)
Lemma processed_rows_counts_rows_written_witness :
  let results := [[[VInt 1]; [VInt 2]]; []; [[VInt 5]]] in
  let completed := [(1%nat, []); (0%nat, [[VInt 1]; [VInt 2]]); (2%nat, [[VInt 5]])] in
  Coordinator.processed_rows (Coordinator.collect completed)
  = length (Coordinator.rows_written completed)
  ∧ Coordinator.processed_rows (Coordinator.collect completed) = length (concat results).
Proof.
  intros results completed.
  apply (processed_rows_counts_rows_written results completed).
  apply Permutation_swap.
Defined.

(** 45 rows in windows of 20: three chunks. *)
Lemma total_chunks_is_ceiling_witness :
  ((Coordinator.total_chunks 45 20 - 1) * 20 < 45
   ≤ Coordinator.total_chunks 45 20 * 20)%nat.
Proof. apply (total_chunks_is_ceiling 45 20); lia. Defined.

(** ** More on the backends *)

Section MySQLUnmapped.
Variable accepts : conn → list row → bool.
Hypothesis accepts_all : ∀ c rows, accepts c rows = true.

Lemma filtered_data_unmapped headers (field_mapping : mapping) rows :
  field_mapping = ∅ ∨ mapped_indices headers field_mapping = [] →
  MySQL.filtered_data headers field_mapping rows
  = Ok ((fun r : row => MySQL.nan_to_none <$> r) <$> rows).
Proof.
  intros Hm. unfold MySQL.filtered_data, truthy_mapping.
  destruct Hm as [-> | ->].
  - by rewrite bool_decide_eq_false_2 by (intros Hne; by apply Hne).
  - rewrite (bool_decide_eq_false_2 ([] ≠ [])) by (intros Hne; by apply Hne).
    by rewrite andb_false_r.
Qed.

(** X14: without a field mapping, and also under a mapping that names none
    of the headers, the networked backend sends every row whole, each NaN
    turned into [None], and returns the number of rows. *)
Theorem mysql_write_data_unmapped headers data_chunks (field_mapping : mapping) c :
  field_mapping = ∅ ∨ mapped_indices headers field_mapping = [] →
  let rows := MySQL.all_data data_chunks in
  ∃ c', MySQL.write_data accepts headers data_chunks field_mapping c
        = (Ok (length rows), c')
      ∧ durable c' ++ pending c'
        = (durable c ++ pending c) ++ ((fun r : row => MySQL.nan_to_none <$> r) <$> rows)
      ∧ (rows ≠ [] → pending c' = []).
Proof.
  intros Hm rows. unfold MySQL.write_data. fold rows.
  destruct rows as [|r0 rows'] eqn:Hall.
  { exists c. simpl. by rewrite app_nil_r. }
  rewrite <-Hall. rewrite (filtered_data_unmapped headers field_mapping rows Hm).
  set (sent := (fun r : row => MySQL.nan_to_none <$> r) <$> rows).
  destruct (write_batches_accepting accepts accepts_all sent
              (range_step (length sent) MySQL.batch_size)
              (0%nat, 0%nat) c) as (st' & c' & Hrun & Hcount & Hrows & Hlast).
  rewrite Hrun. exists c'.
  assert (0 < MySQL.batch_size)%nat as Hpos by (unfold MySQL.batch_size; lia).
  rewrite concat_slices in Hcount, Hrows by done.
  assert (length sent = length rows) as Hlen by (subst sent; by rewrite length_fmap).
  rewrite Hlen in Hcount. cbn [fst Nat.add] in Hcount. rewrite Hcount.
  split; [done|]. split; [done|].
  intros _.
  destruct (last (range_step (length sent) MySQL.batch_size)) as [i|] eqn:Hl.
  - apply (Hlast i eq_refl). by apply last_range_step.
  - apply last_None in Hl. unfold range_step in Hl.
    apply fmap_nil_inv in Hl.
    pose proof (total_chunks_cover (length sent) MySQL.batch_size Hpos) as Hcover.
    unfold Coordinator.total_chunks in Hcover.
    destruct ((length sent + MySQL.batch_size - 1) / MySQL.batch_size)%nat; [|done].
    rewrite Hlen, Hall in Hcover. cbn in Hcover. lia.
Qed.

End MySQLUnmapped.

(** A mapping that names no header of the sheet: both cells are sent. *)
Lemma mysql_write_data_unmapped_witness :
  let headers := [lit "a"; lit "b"] in
  let field_mapping : mapping := {[ lit "x" := lit "y" ]} in
  let c := {| durable := []; pending := []; in_txn := false; trace := [] |} in
  let rows := MySQL.all_data [[[VInt 1; VNone]]] in
  ∃ c', MySQL.write_data (fun _ _ => true) headers [[[VInt 1; VNone]]] field_mapping c
        = (Ok (length rows), c')
      ∧ durable c' ++ pending c'
        = (durable c ++ pending c) ++ ((fun r : row => MySQL.nan_to_none <$> r) <$> rows)
      ∧ (rows ≠ [] → pending c' = []).
Proof.
  intros headers field_mapping c.
  apply (mysql_write_data_unmapped (fun _ _ => true) (fun _ _ => eq_refl)
           headers [[[VInt 1; VNone]]] field_mapping c).
  right. vm_compute. reflexivity.
Defined.

Section SQLiteShortRow.
Context `{PyRuntime}.
Variable accepts : conn → list row → bool.
Variable headers : list pystr.
Variable field_mapping : mapping.

Lemma mapM_result_Ok_inv {A B} (f : A → result B) (l : list A) l' x :
  mapM f l = Ok l' → x ∈ l → ∃ y, f x = Ok y.
Proof.
  revert l'. induction l as [|a l IH]; intros l' Hm Hx; [by apply elem_of_nil in Hx|].
  cbn in Hm. destruct (f a) as [b|e] eqn:Hfa; [|done].
  cbn in Hm. destruct (mapM f l) as [k|e] eqn:Hk; [|done].
  apply elem_of_cons in Hx as [->|Hx]; [by exists b|by apply (IH k)].
Qed.

Lemma mapM_result_Raise {A B} (f : A → result B) (l : list A) e :
  mapM f l = Raise e → ∃ x, x ∈ l ∧ f x = Raise e.
Proof.
  induction l as [|a l IH]; intros Hm; [done|].
  cbn in Hm. destruct (f a) as [b|e'] eqn:Hfa.
  - cbn in Hm. destruct (mapM f l) as [k|e'] eqn:Hk; [done|].
    cbn in Hm. injection Hm as ->.
    destruct (IH eq_refl) as (x & Hx & Hfx). exists x. split; [by right|done].
  - cbn in Hm. injection Hm as ->. exists a. split; [by left|done].
Qed.

Lemma str_raises x e : str x = Raise e → e = ValueError ∧ str_fails x = true.
Proof. unfold str. destruct (str_fails x); [by intros [= <-]|done]. Qed.

Lemma is_nan_or_empty_raises value e :
  is_nan_or_empty value = Raise e → e = ValueError ∧ str_fails value = true.
Proof.
  destruct value as [|b|z|f|s|ts]; cbn [is_nan_or_empty]; try done;
    try (destruct (str _) as [text|e'] eqn:Hs; [done|];
         cbn; intros [= <-]; by apply str_raises in Hs).
  by destruct (strip s).
Qed.

(** The exceptions the reorganisation of a chunk can raise: IndexError
    for a row without a mapped position, ValueError for a cell [str]
    refuses. *)
Lemma chunk_rows_raises chunk_data e :
  SQLite.chunk_rows headers field_mapping chunk_data = Raise e →
  e = IndexError
  ∨ (e = ValueError ∧ ∃ r v, r ∈ chunk_data ∧ v ∈ r ∧ str_fails v = true).
Proof.
  unfold SQLite.chunk_rows. destruct (truthy_mapping field_mapping); [|done].
  intros (r & Hin & Hr)%mapM_result_Raise.
  unfold SQLite.filtered_row in Hr.
  apply mapM_result_Raise in Hr as (i & _ & Hi).
  unfold getitem in Hi. destruct (r !! i) as [v|] eqn:Hv; cbn in Hi; [|left; congruence].
  destruct (is_nan_or_empty v) as [blank|e'] eqn:Hb; [done|].
  cbn in Hi. injection Hi as ->. apply is_nan_or_empty_raises in Hb as [-> Hf].
  right. split; [done|]. exists r, v. split; [done|]. split; [|done].
  by eapply list_elem_of_lookup_2.
Qed.

(** X15: under a field mapping, the embedded backend indexes every row at
    every mapped position, so a chunk holding a row too short for one of
    them never gets written: [write_data] raises, with the open
    transaction rolled back. The error is IndexError, unless [str] had
    refused a cell before (ValueError) or the engine a chunk
    (DatabaseError). (The networked backend leaves such a row out
    instead.) *)
Theorem sqlite_write_data_short_row_raises data_chunks c chunk_data (r : row) (i : nat) :
  in_txn c = false →
  field_mapping ≠ ∅ →
  chunk_data ∈ data_chunks → r ∈ chunk_data →
  i ∈ mapped_indices headers field_mapping → (length r ≤ i)%nat →
  let run := SQLite.write_data accepts headers data_chunks field_mapping c in
  pending run.2 = [] ∧ in_txn run.2 = false
  ∧ ∃ e, run.1 = Raise e
      ∧ (e = IndexError
         ∨ (e = ValueError
            ∧ ∃ d row v, d ∈ data_chunks ∧ row ∈ d ∧ v ∈ row ∧ str_fails v = true)
         ∨ (e = DatabaseError ∧ ∃ ck rows, accepts ck rows = false)).
Proof.
  intros Hout Hm Hchunk Hr Hi Hshort run. subst run.
  unfold SQLite.write_data, SQLite.begin_transaction. rewrite Hout.
  match goal with |- context [SQLite.write_chunks _ _ _ _ ?st1 ?c1] =>
    destruct (write_chunks_inv accepts headers field_mapping data_chunks st1 c1)
      as (res & c' & tr & Hrun & Hin & Htr & Hpeak & Hres);
      [done|done|apply max_batch_size_pos|];
    pose proof (write_chunks_run accepts headers field_mapping data_chunks st1 c1
                  eq_refl eq_refl) as Hexact
  end.
  rewrite Hrun in Hexact |- *. destruct res as [st'|e].
  - exfalso. destruct Hres as (sent & Hsent & _).
    assert (chunk_data ∈ filter (fun d : list row => d ≠ []) data_chunks) as Hne.
    { apply list_elem_of_filter. split; [|done]. intros ->. by apply elem_of_nil in Hr. }
    destruct (mapM_result_Ok_inv _ _ _ _ Hsent Hne) as (rows & Hrows).
    unfold SQLite.chunk_rows, truthy_mapping in Hrows.
    rewrite bool_decide_eq_true_2 in Hrows by done.
    destruct (mapM_result_Ok_inv _ _ _ _ Hrows Hr) as (fr & Hfr).
    unfold SQLite.filtered_row in Hfr.
    destruct (mapM_result_Ok_inv _ _ _ _ Hfr Hi) as (v & Hv).
    unfold getitem in Hv. rewrite lookup_ge_None_2 in Hv by done. done.
  - unfold SQLite.rollback. rewrite Hin. cbn [fst snd pending in_txn].
    split; [done|]. split; [done|]. exists e. split; [done|].
    destruct Hexact as (k & d & sent & Hk & _ & _ & _ & _ & Hwhy).
    destruct Hwhy as [Hwhy|(rows & _ & -> & Hacc)].
    + apply chunk_rows_raises in Hwhy as [->|[-> (row & v & Hrow & Hv & Hf)]];
        [by left|right; left].
      split; [done|]. exists d, row, v. split; [|done].
      apply list_elem_of_lookup_2 in Hk. by apply list_elem_of_filter in Hk as [_ ?].
    + right. right. split; [done|]. by exists c', rows.
Qed.

End SQLiteShortRow.

(** Header [b] mapped, a row of one cell. *)
Lemma sqlite_write_data_short_row_raises_witness :
  let c := {| durable := []; pending := []; in_txn := false; trace := [] |} in
  let field_mapping : mapping := {[ lit "b" := lit "z" ]} in
  let data_chunks := [[[VInt 1; VInt 2]; [VInt 3]]] in
  let accepts := fun (_ : conn) (_ : list row) => true in
  let run := SQLite.write_data (H := ascii_runtime) accepts
               [lit "a"; lit "b"] data_chunks field_mapping c in
  pending run.2 = [] ∧ in_txn run.2 = false
  ∧ ∃ e, run.1 = Raise e
      ∧ (e = IndexError
         ∨ (e = ValueError
            ∧ ∃ d row v, d ∈ data_chunks ∧ row ∈ d ∧ v ∈ row
                         ∧ str_fails (H := ascii_runtime) v = true)
         ∨ (e = DatabaseError ∧ ∃ ck rows, accepts ck rows = false)).
Proof.
  intros c field_mapping data_chunks accepts.
  apply (sqlite_write_data_short_row_raises (H := ascii_runtime) accepts
           [lit "a"; lit "b"] field_mapping
           data_chunks c [[VInt 1; VInt 2]; [VInt 3]] [VInt 3] 1).
  - reflexivity.
  - apply insert_non_empty.
  - apply list_elem_of_singleton. reflexivity.
  - apply elem_of_cons. right. apply list_elem_of_singleton. reflexivity.
  - vm_compute. apply list_elem_of_singleton. reflexivity.
  - cbn. lia.
Defined.

(** ** Identifier sanitisation *)

Section StringFacts.

Lemma lstrip_by_suffix p s : ∃ a, s = a ++ lstrip_by p s ∧ forallb p a = true.
Proof.
  induction s as [|c t IH]; [by exists []|].
  cbn [lstrip_by]. destruct (p c) eqn:Hc.
  - destruct IH as (a & Ha & Hp). exists (c :: a). cbn. rewrite Hc, Hp.
    split; [by f_equal|done].
  - by exists [].
Qed.

Lemma lstrip_by_head p s c t : lstrip_by p s = c :: t → p c = false.
Proof.
  induction s as [|d s IH]; cbn [lstrip_by]; [done|].
  destruct (p d) eqn:Hd; [done|]. by intros [= <- _].
Qed.

Lemma lstrip_by_id p s :
  match s with [] => True | c :: _ => p c = false end → lstrip_by p s = s.
Proof. destruct s as [|c t]; [done|]. cbn. by intros ->. Qed.

Lemma rstrip_by_prefix p s : ∃ b, s = rstrip_by p s ++ b ∧ forallb p b = true.
Proof.
  unfold rstrip_by. destruct (lstrip_by_suffix p (rev s)) as (a & Ha & Hp).
  exists (rev a). split.
  - rewrite <-rev_app_distr, <-Ha. by rewrite rev_involutive.
  - rewrite forallb_forall in *. intros x Hx. apply Hp. by apply in_rev.
Qed.

Lemma rstrip_by_keeps_head p c t :
  p c = false →
  ∃ t' b, rstrip_by p (c :: t) = c :: t' ∧ t = t' ++ b ∧ forallb p b = true.
Proof.
  intros Hc. destruct (rstrip_by_prefix p (c :: t)) as (b & Hb & Hp).
  destruct (rstrip_by p (c :: t)) as [|c' t'].
  - cbn in Hb. subst b. cbn in Hp. by rewrite Hc in Hp.
  - cbn in Hb. injection Hb as <- ->. by exists t', b.
Qed.

Lemma rstrip_by_last p s c : last (rstrip_by p s) = Some c → p c = false.
Proof.
  unfold rstrip_by. destruct (lstrip_by p (rev s)) as [|d t] eqn:Hl; [done|].
  apply lstrip_by_head in Hl. cbn [rev]. rewrite last_snoc. by intros [= <-].
Qed.

Lemma rstrip_by_id p s :
  match last s with None => True | Some c => p c = false end → rstrip_by p s = s.
Proof.
  intros Hl. unfold rstrip_by. rewrite lstrip_by_id; [apply rev_involutive|].
  destruct s as [|c t] using rev_ind; [done|].
  rewrite rev_app_distr. cbn. by rewrite last_snoc in Hl.
Qed.

Lemma strip_by_id p s :
  match s with [] => True | c :: _ => p c = false end →
  match last s with None => True | Some c => p c = false end →
  strip_by p s = s.
Proof.
  intros Hh Hl. unfold strip_by. rewrite lstrip_by_id by done. by apply rstrip_by_id.
Qed.

(** What [strip] leaves is a segment of the string, with no stripped
    character at either end. *)
Lemma strip_by_segment p s :
  ∃ a b, s = a ++ strip_by p s ++ b ∧ forallb p a = true ∧ forallb p b = true.
Proof.
  unfold strip_by. destruct (lstrip_by_suffix p s) as (a & Ha & Hpa).
  destruct (rstrip_by_prefix p (lstrip_by p s)) as (b & Hb & Hpb).
  exists a, b. split; [|done]. by rewrite <-Hb.
Qed.

Lemma strip_by_head p s c t : strip_by p s = c :: t → p c = false.
Proof.
  unfold strip_by. intros Hs.
  destruct (rstrip_by_prefix p (lstrip_by p s)) as (b & Hb & _).
  rewrite Hs in Hb. cbn in Hb. by apply lstrip_by_head in Hb.
Qed.

Lemma strip_by_last p s c : last (strip_by p s) = Some c → p c = false.
Proof. apply rstrip_by_last. Qed.

Lemma strip_by_idemp p s : strip_by p (strip_by p s) = strip_by p s.
Proof.
  apply strip_by_id.
  - destruct (strip_by p s) as [|c t] eqn:Hs; [done|]. by eapply strip_by_head.
  - destruct (last (strip_by p s)) as [c|] eqn:Hl; [|done]. by eapply strip_by_last.
Qed.

Lemma strip_by_Forall (P : N → Prop) p s : Forall P s → Forall P (strip_by p s).
Proof.
  destruct (strip_by_segment p s) as (a & b & Hs & _). intros HF.
  rewrite Hs in HF. by apply Forall_app in HF as [_ [HF _]%Forall_app].
Qed.

Lemma strip_by_length p s : (length (strip_by p s) ≤ length s)%nat.
Proof.
  destruct (strip_by_segment p s) as (a & b & Hs & _).
  rewrite Hs at 2. rewrite !length_app. lia.
Qed.

Lemma startswith_app p s t : startswith p s = true → startswith p (s ++ t) = true.
Proof.
  revert s. induction p as [|a p IH]; intros s; [done|].
  destruct s as [|b s]; [done|]. cbn. intros [-> Hp]%andb_prop. cbn. by apply IH.
Qed.

Lemma contains_cons p c s : contains p s = true → contains p (c :: s) = true.
Proof. intros Hs. cbn [contains]. rewrite Hs. apply orb_true_r. Qed.

Lemma contains_app_r p a s : contains p s = true → contains p (a ++ s) = true.
Proof. induction a as [|c a IH]; [done|]. intros Hs. by apply contains_cons, IH. Qed.

Lemma contains_app_l p s t : contains p s = true → contains p (s ++ t) = true.
Proof.
  induction s as [|c s IH].
  - cbn. rewrite orb_false_r. destruct p; [|done]. intros _. by destruct t.
  - cbn [contains app]. intros [Hs|Hs]%orb_prop.
    + change (c :: s ++ t) with ((c :: s) ++ t). by rewrite startswith_app.
    + rewrite IH by done. apply orb_true_r.
Qed.

(** A pattern absent from a string is absent from each of its segments. *)
Lemma contains_segment p a s b :
  contains p (a ++ s ++ b) = false → contains p s = false.
Proof.
  intros Hn. apply not_true_is_false. intros Hs.
  rewrite contains_app_r in Hn; [done|]. by apply contains_app_l.
Qed.

End StringFacts.

Section ValidateFacts.
Context `{PyRuntime}.

Lemma tail_ok_spec (b : N → bool) t :
  rep at_end (InClass b) 0 None t = true ↔
  forallb b t = true ∨ ∃ t0, t = t0 ++ [10%N] ∧ forallb b t0 = true.
Proof.
  induction t as [|c t IH].
  - cbn. split; [by left|done].
  - cbn [rep atom_ok forallb Nat.sub]. rewrite orb_true_iff, andb_true_iff, IH. split.
    + intros [Hend|[Hc [Ht|(t0 & -> & Ht0)]]].
      * right. exists []. destruct t; cbn in Hend; [|done].
        apply N.eqb_eq in Hend as ->. done.
      * left. by rewrite Hc, Ht.
      * right. exists (c :: t0). cbn. by rewrite Hc, Ht0.
    + intros [[Hc Ht]%andb_prop|(t0 & Heq & Ht0)].
      * right. split; [done|by left].
      * destruct t0 as [|d t0]; cbn in Heq; injection Heq as -> ->.
        -- by left.
        -- cbn in Ht0. apply andb_prop in Ht0 as [Hc Ht0].
           right. split; [done|]. right. by exists t0.
Qed.

Lemma ident_pattern_spec s :
  match_items [once (InClass ident_start); many (InClass ident_char)] s = true ↔
  ∃ c t, s = c :: t ∧ ident_start c = true
         ∧ (forallb ident_char t = true
            ∨ ∃ t0, t = t0 ++ [10%N] ∧ forallb ident_char t0 = true).
Proof.
  destruct s as [|c t].
  - cbn. split; [done|]. by intros (? & ? & ? & _).
  - assert (match_items [once (InClass ident_start); many (InClass ident_char)] (c :: t)
            = ident_start c && rep at_end (InClass ident_char) 0 None t) as ->.
    { destruct t as [|c' t']; cbn; rewrite ?andb_false_r, ?orb_false_r; reflexivity. }
    rewrite andb_true_iff, tail_ok_spec. split.
    + intros [Hc Ht]. by exists c, t.
    + by intros (? & ? & [= <- <-] & Hc & Ht).
Qed.

Lemma existsb_false_Forall {A} (f : A → bool) l :
  existsb f l = false ↔ Forall (fun x => f x = false) l.
Proof.
  induction l as [|x l IH]; cbn; [split; [constructor|done]|].
  rewrite orb_false_iff, IH, Forall_cons. done.
Qed.

(** What [validate_sql_identifier] accepts, and what it returns. *)
Lemma validate_sql_identifier_spec (name r : pystr) :
  validate_sql_identifier name = Ok r ↔
  name ≠ [] ∧ r = strip name ∧ (length r ≤ 64)%nat
  ∧ (∃ c t, r = c :: t ∧ ident_start c = true ∧ forallb ident_char t = true)
  ∧ Forall (fun pattern => contains pattern (upper r) = false) dangerous_patterns.
Proof.
  unfold validate_sql_identifier. destruct name as [|c0 name0].
  { split; [done|]. by intros (? & _). }
  set (name := c0 :: name0). cbv zeta.
  destruct (64 <? length (strip name))%nat eqn:Hlen.
  { apply Nat.ltb_lt in Hlen. split; [done|]. intros (_ & -> & ? & _). lia. }
  apply Nat.ltb_ge in Hlen.
  destruct (match_items _ (strip name)) eqn:Hre; cbn [negb].
  - apply ident_pattern_spec in Hre as (c & t & Hs & Hc & Ht).
    assert (forallb ident_char t = true) as Ht'.
    { destruct Ht as [Ht|(t0 & -> & _)]; [done|]. exfalso.
      assert (last (strip name) = Some 10%N) as Hl.
      { rewrite Hs. change (c :: t0 ++ [10%N]) with ((c :: t0) ++ [10%N]).
        apply last_snoc. }
      apply strip_by_last in Hl. done. }
    destruct (existsb _ dangerous_patterns) eqn:Hp.
    + split; [done|]. intros (_ & -> & _ & _ & HF).
      apply existsb_false_Forall in HF. congruence.
    + apply existsb_false_Forall in Hp. split.
      * intros [= <-]. split; [done|]. split; [done|]. split; [done|].
        split; [by exists c, t|done].
      * by intros (_ & -> & _).
  - split; [done|]. intros (_ & -> & _ & (c & t & Hs & Hc & Ht) & _).
    assert (match_items [once (InClass ident_start); many (InClass ident_char)]
              (strip name) = true) as Hm; [|congruence].
    apply ident_pattern_spec. exists c, t. split; [done|]. split; [done|by left].
Qed.

(** X1: [validate_sql_identifier] accepts exactly the non-empty names that,
    once stripped, are at most 64 characters long, start with an ASCII
    letter, an underscore or a character of U+4E00..U+9FFF, continue with
    those or ASCII digits, and whose upper-case form holds none of the
    listed keywords and tokens; it returns the stripped name. *)
Theorem validate_sql_identifier_accepts (name r : pystr) :
  validate_sql_identifier name = Ok r ↔
  name ≠ [] ∧ r = strip name ∧ (length r ≤ 64)%nat
  ∧ (∃ c t, r = c :: t ∧ ident_start c = true ∧ forallb ident_char t = true)
  ∧ Forall (fun pattern => contains pattern (upper r) = false) dangerous_patterns.
Proof. apply validate_sql_identifier_spec. Qed.

End ValidateFacts.

Section HashedNames.
Context `{PyRuntime}.

Lemma sym_startswith_sound p ss s :
  Forall2 (fun o c => match o with
                      | Some k => c = k
                      | None => is_upper_hex c = true
                      end) ss s →
  startswith p s = true → sym_startswith p ss = true.
Proof.
  intros HF. revert p. induction HF as [|o c ss s Hoc HF IH]; intros p.
  - by destruct p.
  - destruct p as [|a p]; [done|]. cbn. intros [Ha Hp]%andb_prop.
    apply N.eqb_eq in Ha as ->. destruct o as [k|].
    + subst. rewrite N.eqb_refl. by apply IH.
    + rewrite Hoc. by apply IH.
Qed.

Lemma sym_contains_sound p ss s :
  Forall2 (fun o c => match o with
                      | Some k => c = k
                      | None => is_upper_hex c = true
                      end) ss s →
  contains p s = true → sym_contains p ss = true.
Proof.
  induction 1 as [|o c ss s Hoc HF IH].
  - cbn. rewrite !orb_false_r. by destruct p.
  - cbn [contains sym_contains]. intros [Hs|Hs]%orb_prop.
    + rewrite (sym_startswith_sound p (o :: ss) (c :: s)); [done| |done].
      by constructor.
    + rewrite IH by done. apply orb_true_r.
Qed.

Lemma hex_digit_lower d :
  (d < 16)%N → in_range 48 57 (hex_digit d) || in_range 97 102 (hex_digit d) = true.
Proof.
  intros Hd. unfold hex_digit, in_range.
  destruct (d <? 10)%N eqn:Hlt; [apply N.ltb_lt in Hlt|apply N.ltb_ge in Hlt].
  - apply orb_true_iff. left. apply andb_true_iff. split; apply N.leb_le; lia.
  - apply orb_true_iff. right. apply andb_true_iff. split; apply N.leb_le; lia.
Qed.

Lemma hex_prefix_lower n digest :
  Forall (fun c => in_range 48 57 c || in_range 97 102 c = true) (hex_prefix n digest).
Proof.
  unfold hex_prefix. apply Forall_fmap, Forall_forall. intros k _. cbn.
  apply hex_digit_lower. apply N.mod_lt. done.
Qed.

Lemma upper_app a b : upper (a ++ b) = upper a ++ upper b.
Proof. unfold upper. apply flat_map_app. Qed.

Lemma upper_hex_digits s :
  Forall (fun c => in_range 48 57 c || in_range 97 102 c = true) s →
  Forall2 (fun (o : option N) c => match o with
                      | Some k => c = k
                      | None => is_upper_hex c = true
                      end) (replicate (length s) None) (upper s).
Proof.
  induction 1 as [|c s Hc HF IH]; [constructor|].
  cbn [length replicate]. unfold upper. cbn [flat_map].
  assert (is_ascii c = true) as ->.
  { unfold is_ascii, in_range in *. apply N.ltb_lt.
    apply orb_prop in Hc as [[_ Hc%N.leb_le]%andb_prop|[_ Hc%N.leb_le]%andb_prop]; lia. }
  cbn [app]. constructor; [|exact IH].
  unfold is_upper_hex, ascii_upper, ascii_islower, in_range in *.
  apply orb_prop in Hc as [[H1%N.leb_le H2%N.leb_le]%andb_prop
                          |[H1%N.leb_le H2%N.leb_le]%andb_prop].
  - assert ((97 <=? c)%N && (c <=? 122)%N = false) as ->.
    { apply andb_false_iff. left. apply N.leb_gt. lia. }
    apply orb_true_iff. left. apply andb_true_iff. split; apply N.leb_le; lia.
  - assert ((97 <=? c)%N && (c <=? 122)%N = true) as ->.
    { apply andb_true_iff. split; apply N.leb_le; lia. }
    apply orb_true_iff. right. apply andb_true_iff. split; apply N.leb_le; lia.
Qed.

Lemma Forall2_Some_refl (s : pystr) :
  Forall2 (fun (o : option N) c => match o with
                      | Some k => c = k
                      | None => is_upper_hex c = true
                      end) (Some <$> s) s.
Proof. induction s; cbn; constructor; auto. Qed.

(** No listed keyword or token occurs in the upper-case form of a name
    made of [table_] or [col_] and eight hexadecimal digits. *)
Lemma hashed_name_patterns prefix digest :
  prefix = lit "table_" ∨ prefix = lit "col_" →
  Forall (fun pattern => contains pattern (upper (prefix ++ hex_prefix 8 digest)) = false)
         dangerous_patterns.
Proof.
  intros Hp.
  assert (∃ P, upper prefix = P ∧
            forallb (fun pattern => negb (sym_contains pattern ((Some <$> P) ++ replicate 8 None)))
                    dangerous_patterns = true) as (P & HP & Hall).
  { destruct Hp as [-> | ->]; eexists; (split; [vm_compute; reflexivity|]);
      vm_compute; reflexivity. }
  rewrite forallb_forall in Hall. apply Forall_forall. intros pattern Hin.
  apply list_elem_of_In, Hall, negb_true_iff in Hin.
  apply not_true_is_false. intros Hc.
  eapply sym_contains_sound in Hc; [by rewrite Hc in Hin|].
  rewrite upper_app, HP. apply Forall2_app; [apply Forall2_Some_refl|].
  pose proof (upper_hex_digits _ (hex_prefix_lower 8 digest)) as HF.
  unfold hex_prefix in HF at 1. rewrite length_fmap, length_seq in HF. exact HF.
Qed.

End HashedNames.

Section SanitizeFacts.
Context `{PyRuntime}.

Lemma ident_char_not_space c : ident_char c = true → isspace c = false.
Proof.
  unfold ident_char, ascii_isalpha, ascii_isupper, ascii_islower, ascii_isdigit,
    is_cjk, isspace, in_range.
  rewrite !orb_true_iff, !andb_true_iff, !N.leb_le, N.eqb_eq. intros Hc.
  repeat (apply orb_false_iff; split);
    first [apply N.eqb_neq | apply andb_false_iff; rewrite !N.leb_gt]; lia.
Qed.

Lemma ident_start_char c : ident_start c = true → ident_char c = true.
Proof.
  unfold ident_start, ident_char. rewrite !orb_true_iff. tauto.
Qed.

Lemma hex_lower_ident_char c :
  in_range 48 57 c || in_range 97 102 c = true → ident_char c = true.
Proof.
  unfold ident_char, ascii_isalpha, ascii_isupper, ascii_islower, ascii_isdigit, in_range.
  rewrite !orb_true_iff, !andb_true_iff, !N.leb_le. intros Hc.
  destruct Hc as [Hc|Hc]; [left; left; right|left; left; left; right]; lia.
Qed.

Lemma validate_sql_identifier_fixpoint name r :
  validate_sql_identifier name = Ok r → validate_sql_identifier r = Ok r.
Proof.
  intros (Hne & Hr & Hlen & Hshape & Hpat)%validate_sql_identifier_spec.
  apply validate_sql_identifier_spec.
  destruct Hshape as (c & t & Hct & Hc & Ht).
  split; [by rewrite Hct|]. split; [|split; [done|split; [by exists c, t|done]]].
  rewrite Hr. symmetry. apply strip_by_idemp.
Qed.

Lemma replace_go_absent q new s :
  forallb (fun c => negb (q =? c)%N) s = true → replace_go [q] new 0 s = s.
Proof.
  induction s as [|c s IH]; [done|]. cbn [forallb]. intros [Hc Hs]%andb_prop.
  cbn [replace_go startswith]. apply negb_true_iff in Hc. rewrite Hc. cbn [andb].
  by rewrite IH.
Qed.

Lemma safe_sql_identifier_validated name :
  safe_sql_identifier name = validate_sql_identifier name.
Proof.
  unfold safe_sql_identifier.
  destruct (validate_sql_identifier name) as [v|e] eqn:Hv; [|done].
  cbn. f_equal.
  apply validate_sql_identifier_spec in Hv as (_ & _ & _ & (c & t & -> & Hc & Ht) & _).
  assert (forallb ident_char (c :: t) = true) as Hall.
  { cbn. by rewrite (ident_start_char c Hc), Ht. }
  assert (∀ q, ident_char q = false →
            forallb (fun c => negb (q =? c)%N) (c :: t) = true) as Hq.
  { intros q Hq. rewrite forallb_forall in *. intros x Hx.
    apply negb_true_iff, N.eqb_neq. intros ->. apply Hall in Hx. congruence. }
  unfold replace. rewrite (replace_go_absent 34%N) by (by apply Hq).
  by rewrite (replace_go_absent 39%N) by (by apply Hq).
Qed.

Lemma utf8_encode_raises s e : utf8_encode s = Raise e → e = UnicodeEncodeError.
Proof.
  unfold utf8_encode. destruct (mapM utf8_encode_char s) as [l|e'] eqn:Hm; [done|].
  cbn. intros [= <-]. clear -Hm. revert Hm. induction s as [|c s IH]; [done|].
  cbn. destruct (utf8_encode_char c) as [b|e0] eqn:Hc.
  - cbn. destruct (mapM utf8_encode_char s); [done|]. cbn. intros [= <-]. by apply IH.
  - cbn. intros [= <-]. unfold utf8_encode_char in Hc.
    repeat match type of Hc with (if ?b then _ else _) = _ => destruct b end;
      congruence.
Qed.

Lemma hashed_name_valid prefix raw_name r :
  prefix = lit "table_" ∨ prefix = lit "col_" →
  hashed_name prefix raw_name = Ok r → validate_sql_identifier r = Ok r.
Proof.
  intros Hp. unfold hashed_name.
  destruct (utf8_encode raw_name) as [bytes|e]; [|done].
  change (Ok (prefix ++ hex_prefix 8 (md5 bytes)) = Ok r →
          validate_sql_identifier r = Ok r).
  intros [= <-]. set (hex := hex_prefix 8 (md5 bytes)).
  pose proof (hex_prefix_lower 8 (md5 bytes)) as Hhex. fold hex in Hhex.
  assert (length hex = 8%nat) as Hlen by (unfold hex, hex_prefix; by rewrite length_fmap).
  pose proof (hashed_name_patterns prefix (md5 bytes) Hp) as Hpat. fold hex in Hpat.
  clearbody hex.
  assert (forallb ident_char hex = true) as Hid.
  { apply forallb_forall. intros c Hc%list_elem_of_In.
    rewrite Forall_forall in Hhex. by apply hex_lower_ident_char, Hhex. }
  assert (∃ c t, prefix = c :: t ∧ ident_start c = true ∧ forallb ident_char t = true
                 ∧ isspace c = false ∧ (length prefix ≤ 6)%nat) as (c & t & -> & Hc & Ht & Hsp & Hpl).
  { destruct Hp as [-> | ->]; eexists _, _; (split; [reflexivity|]);
      repeat split; first [reflexivity | cbn; lia]. }
  apply validate_sql_identifier_spec.
  split; [done|]. split; [|split; [|split]].
  - symmetry. apply strip_by_id; [done|].
    destruct (last hex) as [h|] eqn:Hl;
      [|apply last_None in Hl; rewrite Hl in Hlen; done].
    apply last_Some in Hl as [hex' Hh]. rewrite Hh in Hid |- *.
    rewrite app_assoc, last_snoc.
    apply ident_char_not_space. rewrite forallb_app in Hid.
    apply andb_prop in Hid as [_ Hid]. cbn in Hid. by rewrite andb_true_r in Hid.
  - rewrite length_app, Hlen. lia.
  - exists c, (t ++ hex). split; [done|]. split; [done|].
    by rewrite forallb_app, Ht, Hid.
  - done.
Qed.

Lemma sanitize_table_name_valid (raw_name : pystr) :
  match sanitize_table_name raw_name with
  | Ok r => validate_sql_identifier r = Ok r
  | Raise e => e = UnicodeEncodeError ∧ utf8_encode raw_name = Raise UnicodeEncodeError
  end.
Proof.
  unfold sanitize_table_name. destruct raw_name as [|c0 raw]; [vm_compute; reflexivity|].
  set (raw_name := c0 :: raw). rewrite safe_sql_identifier_validated.
  destruct (validate_sql_identifier (clean_table_name raw_name)) as [v|e] eqn:Hv;
    cbn [try_except].
  { by eapply validate_sql_identifier_fixpoint. }
  destruct (hashed_name (lit "table_") raw_name) as [r|e'] eqn:Hh.
  - eapply hashed_name_valid; [|exact Hh]. by left.
  - unfold hashed_name in Hh. destruct (utf8_encode raw_name) as [b|e2] eqn:He; [done|].
    cbn in Hh. injection Hh as <-. apply utf8_encode_raises in He as Hk. by subst.
Qed.

(** X2: whatever the sheet or table name, [sanitize_table_name] returns a
    name that [validate_sql_identifier] accepts as it is: at most 64
    characters, identifier-shaped, free of the listed keywords and
    tokens. It raises only when validation fails on a name that UTF-8
    cannot encode (a lone surrogate): the digest's [encode] raises
    UnicodeEncodeError inside the handler. *)
Theorem sanitize_table_name_safe (raw_name : pystr) :
  match sanitize_table_name raw_name with
  | Ok r => validate_sql_identifier r = Ok r
  | Raise e => e = UnicodeEncodeError ∧ utf8_encode raw_name = Raise UnicodeEncodeError
  end.
Proof. apply sanitize_table_name_valid. Qed.

Lemma sanitize_column_name_valid (raw_name : pystr) :
  match sanitize_column_name raw_name with
  | Ok r => validate_sql_identifier r = Ok r
  | Raise e => e = UnicodeEncodeError ∧ utf8_encode raw_name = Raise UnicodeEncodeError
  end.
Proof.
  unfold sanitize_column_name. destruct raw_name as [|c0 raw]; [vm_compute; reflexivity|].
  set (raw_name := c0 :: raw). cbv zeta. rewrite safe_sql_identifier_validated.
  destruct (validate_sql_identifier _) as [v|e] eqn:Hv; cbn [try_except].
  { by eapply validate_sql_identifier_fixpoint. }
  destruct (hashed_name (lit "col_") raw_name) as [r|e'] eqn:Hh.
  - eapply hashed_name_valid; [|exact Hh]. by right.
  - unfold hashed_name in Hh. destruct (utf8_encode raw_name) as [b|e2] eqn:He; [done|].
    cbn in Hh. injection Hh as <-. apply utf8_encode_raises in He as Hk. by subst.
Qed.

(** X3: the same for [sanitize_column_name] and the header of a column. *)
Theorem sanitize_column_name_safe (raw_name : pystr) :
  match sanitize_column_name raw_name with
  | Ok r => validate_sql_identifier r = Ok r
  | Raise e => e = UnicodeEncodeError ∧ utf8_encode raw_name = Raise UnicodeEncodeError
  end.
Proof. apply sanitize_column_name_valid. Qed.

End SanitizeFacts.

Section CleanShape.
Context `{PyRuntime}.

Lemma no_double_underscore_cons c s :
  no_double_underscore (c :: s)
  = negb ((c =? 95)%N && match s with d :: _ => (d =? 95)%N | [] => false end)
    && no_double_underscore s.
Proof. destruct s; cbn; [by rewrite andb_false_r|done]. Qed.

Lemma no_double_underscore_tail c s :
  no_double_underscore (c :: s) = true → no_double_underscore s = true.
Proof. rewrite no_double_underscore_cons. by intros [_ ?]%andb_prop. Qed.

Lemma no_double_underscore_app_r a s :
  no_double_underscore (a ++ s) = true → no_double_underscore s = true.
Proof. induction a as [|c a IH]; [done|]. intros Hs%no_double_underscore_tail. auto. Qed.

Lemma no_double_underscore_app_l s b :
  no_double_underscore (s ++ b) = true → no_double_underscore s = true.
Proof.
  induction s as [|c s IH]; [done|].
  change ((c :: s) ++ b) with (c :: s ++ b). rewrite !no_double_underscore_cons.
  intros [Hc Hs]%andb_prop. rewrite (IH Hs), andb_true_r.
  destruct s as [|d s]; [by rewrite andb_false_r|exact Hc].
Qed.

Lemma no_double_underscore_take n s :
  no_double_underscore s = true → no_double_underscore (take n s) = true.
Proof.
  intros Hs. rewrite <-(take_drop n s) in Hs. by apply no_double_underscore_app_l in Hs.
Qed.

Lemma no_double_underscore_strip p s :
  no_double_underscore s = true → no_double_underscore (strip_by p s) = true.
Proof.
  destruct (strip_by_segment p s) as (a & b & Hs & _). intros Hn. rewrite Hs in Hn.
  by apply no_double_underscore_app_r, no_double_underscore_app_l in Hn.
Qed.

Lemma collapse_underscores_shape b s :
  no_double_underscore (collapse_underscores b s) = true
  ∧ (b = true → match collapse_underscores b s with
                | c :: _ => c ≠ 95%N
                | [] => True
                end).
Proof.
  revert b. induction s as [|c s IH]; intros b; [done|].
  cbn [collapse_underscores]. destruct (c =? 95)%N eqn:Hc.
  - destruct b.
    + destruct (IH true) as [Hn Hh]. split; [done|]. intros _. by apply Hh.
    + destruct (IH true) as [Hn Hh]. split; [|done].
      rewrite no_double_underscore_cons, Hn, andb_true_r.
      destruct (collapse_underscores true s) as [|d t]; [by rewrite andb_false_r|].
      specialize (Hh eq_refl). apply N.eqb_neq in Hh. by rewrite Hh, andb_false_r.
  - destruct (IH false) as [Hn _]. split.
    + by rewrite no_double_underscore_cons, Hn, Hc.
    + intros _. by apply N.eqb_neq.
Qed.

Lemma collapse_underscores_Forall (P : N → Prop) b s :
  Forall P s → Forall P (collapse_underscores b s).
Proof.
  intros HF. revert b. induction HF as [|c s Hc HF IH]; intros b; [constructor|].
  cbn. destruct (c =? 95)%N, b; try constructor; auto.
Qed.

Lemma collapse_underscores_id s :
  no_double_underscore s = true → collapse_underscores false s = s
  ∧ (match s with c :: _ => c ≠ 95%N | [] => True end → collapse_underscores true s = s).
Proof.
  induction s as [|c s IH]; [done|].
  rewrite no_double_underscore_cons. intros [Hc Hs]%andb_prop.
  destruct (IH Hs) as [IHf IHt]. cbn [collapse_underscores].
  destruct (c =? 95)%N eqn:Hc95.
  - cbn [andb negb] in Hc. apply negb_true_iff in Hc.
    assert (collapse_underscores true s = s) as Ht.
    { apply IHt. destruct s as [|d s]; [done|]. by apply N.eqb_neq. }
    split; [by rewrite Ht|]. intros Hne. apply N.eqb_eq in Hc95. done.
  - by rewrite IHf.
Qed.

Lemma replace_special_Forall s :
  Forall (fun c => re_word c || is_cjk c = true) (replace_special s).
Proof.
  unfold replace_special. apply Forall_fmap, Forall_forall. intros c _. cbn.
  destruct (re_word c || is_cjk c) eqn:Hc; [done|]. reflexivity.
Qed.

Lemma ident_char_word c : ident_char c = true → re_word c || is_cjk c = true.
Proof.
  unfold ident_char, re_word, isalnum, is_ascii.
  intros [[[Ha|Hd]%orb_prop|Hu]%orb_prop|Hc]%orb_prop.
  - assert ((c <? 128)%N = true) as ->; [|by rewrite Ha].
    unfold ascii_isalpha, ascii_isupper, ascii_islower, in_range in Ha.
    apply N.ltb_lt. rewrite orb_true_iff, !andb_true_iff, !N.leb_le in Ha. lia.
  - assert ((c <? 128)%N = true) as ->; [|by rewrite Hd, orb_true_r].
    unfold ascii_isdigit, in_range in Hd.
    apply N.ltb_lt. rewrite andb_true_iff, !N.leb_le in Hd. lia.
  - by rewrite Hu, orb_true_r.
  - by rewrite Hc, orb_true_r.
Qed.

Lemma replace_special_id s : forallb ident_char s = true → replace_special s = s.
Proof.
  unfold replace_special. induction s as [|c s IH]; [done|].
  cbn [forallb]. intros [Hc Hs]%andb_prop. rewrite fmap_cons, IH by done.
  by rewrite (ident_char_word c Hc).
Qed.

Lemma mem_char_underscore c : mem_char (lit "_") c = (c =? 95)%N.
Proof. cbn. apply orb_false_r. Qed.

End CleanShape.

Section SanitizeIdempotence.
Context `{PyRuntime}.

Lemma is_cjk_not_space c : is_cjk c = true → isspace c = false.
Proof.
  intros Hc. apply ident_char_not_space. unfold ident_char. by rewrite Hc, orb_true_r.
Qed.

Lemma word_not_space c :
  whitespace_is_not_alnum → re_word c || is_cjk c = true → isspace c = false.
Proof.
  intros Hsane [[Ha|Hu]%orb_prop|Hc]%orb_prop.
  - destruct (isspace c) eqn:Hs; [|done]. apply Hsane in Hs as [Hs _]. congruence.
  - apply N.eqb_eq in Hu as ->. reflexivity.
  - by apply is_cjk_not_space.
Qed.

Lemma alpha_not_underscore c : isalpha c || is_cjk c = true → c ≠ 95%N.
Proof. intros Hc ->. vm_compute in Hc. done. Qed.

(** The shape of a cleaned name, before validation. *)
Lemma cleaned_shape (pre s : pystr) :
  pre = lit "T_" ∨ pre = lit "col_" →
  let body := strip_chars (lit "_") (collapse_underscores false (replace_special s)) in
  let cleaned := take 64 (if needs_prefix body then pre ++ body else body) in
  Forall (fun c => re_word c || is_cjk c = true) cleaned
  ∧ no_double_underscore cleaned = true
  ∧ ∃ c t, cleaned = c :: t ∧ isalpha c || is_cjk c = true.
Proof.
  intros Hpre body cleaned.
  assert (Forall (fun c => re_word c || is_cjk c = true) body) as HF.
  { apply strip_by_Forall, collapse_underscores_Forall, replace_special_Forall. }
  assert (no_double_underscore body = true) as Hn.
  { apply no_double_underscore_strip, collapse_underscores_shape. }
  assert (match body with c :: _ => c ≠ 95%N | [] => True end) as Hh.
  { destruct body as [|c t] eqn:Hb; [done|]. subst body.
    apply strip_by_head in Hb. rewrite mem_char_underscore in Hb. by apply N.eqb_neq. }
  subst cleaned. clearbody body.
  destruct (needs_prefix body) eqn:Hp.
  - assert (Forall (fun c => re_word c || is_cjk c = true) pre
            ∧ no_double_underscore (pre ++ body) = true
            ∧ ∃ c t, pre = c :: t ∧ isalpha c || is_cjk c = true) as (HFp & Hnp & c & t & -> & Hc).
    { destruct Hpre as [-> | ->].
      - split; [repeat constructor|]. split; [|by eexists _, _].
        cbn [lit app List.map list_ascii_of_string]. rewrite !no_double_underscore_cons, Hn.
        destruct body as [|d b]; [done|]. apply N.eqb_neq in Hh. cbn. by rewrite Hh.
      - split; [repeat constructor|]. split; [|by eexists _, _].
        cbn [lit app List.map list_ascii_of_string]. rewrite !no_double_underscore_cons, Hn.
        destruct body as [|d b]; [done|]. apply N.eqb_neq in Hh. cbn. by rewrite Hh. }
    split; [apply Forall_take, Forall_app; by split|].
    split; [by apply no_double_underscore_take|].
    exists c, (take 63 (t ++ body)). split; [done|done].
  - destruct body as [|c t]; [done|]. cbn in Hp. apply negb_false_iff in Hp.
    split; [by apply Forall_take|]. split; [by apply no_double_underscore_take|].
    by exists c, (take 63 t).
Qed.

(** Under a sane Unicode database validation returns a cleaned name as it
    is. *)
Lemma validate_cleaned (pre s v : pystr) :
  whitespace_is_not_alnum →
  pre = lit "T_" ∨ pre = lit "col_" →
  let body := strip_chars (lit "_") (collapse_underscores false (replace_special s)) in
  let cleaned := take 64 (if needs_prefix body then pre ++ body else body) in
  validate_sql_identifier cleaned = Ok v →
  no_double_underscore v = true ∧ head v ≠ Some 95%N.
Proof.
  intros Hsane Hpre body cleaned Hv.
  destruct (cleaned_shape pre s Hpre) as (HF & Hn & c & t & Hct & Hc).
  fold body in HF, Hn, Hct. fold cleaned in HF, Hn, Hct.
  apply validate_sql_identifier_spec in Hv as (_ & -> & _).
  assert (strip cleaned = cleaned) as ->.
  { apply strip_by_id.
    - rewrite Hct. rewrite Hct in HF. apply Forall_cons in HF as [Hw _].
      by apply word_not_space.
    - destruct (last cleaned) as [d|] eqn:Hl; [|done].
      apply last_Some in Hl as [l' Hl]. rewrite Hl in HF.
      apply Forall_app in HF as [_ [Hw _]%Forall_cons]. by apply word_not_space. }
  split; [done|]. rewrite Hct. cbn. intros [= ->]. by apply alpha_not_underscore in Hc.
Qed.

Lemma no_double_underscore_app a b :
  no_double_underscore a = true → no_double_underscore b = true →
  match b with d :: _ => d ≠ 95%N | [] => True end →
  no_double_underscore (a ++ b) = true.
Proof.
  intros Ha Hb Hh. induction a as [|c a IH]; [done|].
  change ((c :: a) ++ b) with (c :: a ++ b).
  rewrite no_double_underscore_cons in Ha |- *. apply andb_prop in Ha as [Hc Ha].
  rewrite (IH Ha), andb_true_r. destruct a as [|d a]; [|exact Hc].
  cbn [app]. destruct b as [|d b]; [by rewrite andb_false_r|].
  apply N.eqb_neq in Hh. by rewrite Hh, andb_false_r.
Qed.

Lemma hashed_name_shape pre raw_name r :
  pre = lit "table_" ∨ pre = lit "col_" →
  hashed_name pre raw_name = Ok r →
  no_double_underscore r = true ∧ head r ≠ Some 95%N ∧ last r ≠ Some 95%N.
Proof.
  intros Hpre. unfold hashed_name.
  destruct (utf8_encode raw_name) as [bytes|e]; [|done].
  change (Ok (pre ++ hex_prefix 8 (md5 bytes)) = Ok r → 
          no_double_underscore r = true ∧ head r ≠ Some 95%N ∧ last r ≠ Some 95%N).
  intros [= <-]. set (hex := hex_prefix 8 (md5 bytes)).
  pose proof (hex_prefix_lower 8 (md5 bytes)) as Hhex. fold hex in Hhex.
  assert (length hex = 8%nat) as Hlen by (unfold hex, hex_prefix; by rewrite length_fmap).
  clearbody hex.
  assert (∀ c, c ∈ hex → c ≠ 95%N) as Hne.
  { intros c Hc ->. rewrite Forall_forall in Hhex. apply Hhex in Hc. vm_compute in Hc. done. }
  assert (no_double_underscore hex = true) as Hn.
  { clear Hlen Hhex. induction hex as [|c hex IH]; [done|].
    rewrite no_double_underscore_cons, IH; [|intros d Hd; apply Hne; by right].
    assert ((c =? 95)%N = false) as ->; [|done].
    apply N.eqb_neq, Hne. by left. }
  split; [|split].
  - apply no_double_underscore_app; [by destruct Hpre as [-> | ->]|done|].
    destruct hex as [|h0 hex0]; [done|]. apply Hne. by left.
  - destruct Hpre as [-> | ->]; cbn; by intros [=].
  - destruct (last hex) as [h|] eqn:Hl;
      [|apply last_None in Hl; rewrite Hl in Hlen; done].
    apply last_Some in Hl as [hex' Hl]. rewrite Hl.
    rewrite app_assoc, last_snoc. intros [= ->].
    apply (Hne 95%N); [|done]. rewrite Hl. apply elem_of_app. right. by left.
Qed.

(** The second pass over a name that validation accepts, that has no two
    underscores in a row and does not start with one: only its trailing
    underscores go. *)
Lemma cleaned_of_identifier (pre r : pystr) :
  validate_sql_identifier r = Ok r →
  no_double_underscore r = true → head r ≠ Some 95%N →
  let body := strip_chars (lit "_") (collapse_underscores false (replace_special r)) in
  take 64 (if needs_prefix body then pre ++ body else body) = rstrip_chars (lit "_") r.
Proof.
  intros (_ & _ & Hlen & (c & t & -> & Hc & Ht) & _)%validate_sql_identifier_spec
         Hn Hh body.
  assert (c ≠ 95%N) as Hc95 by (intros ->; by apply Hh).
  assert (forallb ident_char (c :: t) = true) as Hall.
  { cbn. by rewrite (ident_start_char c Hc), Ht. }
  assert (body = rstrip_chars (lit "_") (c :: t)) as Hbody.
  { subst body. rewrite replace_special_id by done.
    destruct (collapse_underscores_id _ Hn) as [-> _].
    unfold strip_chars, strip_by, rstrip_chars. rewrite lstrip_by_id; [done|].
    rewrite mem_char_underscore. by apply N.eqb_neq. }
  rewrite Hbody. clear body Hbody.
  destruct (rstrip_by_keeps_head (mem_char (lit "_")) c t) as (t' & b & Hr & Ht' & _).
  { rewrite mem_char_underscore. by apply N.eqb_neq. }
  unfold rstrip_chars. rewrite Hr.
  assert (needs_prefix (c :: t') = false) as ->.
  { cbn. apply negb_false_iff. unfold ident_start in Hc.
    apply orb_prop in Hc as [[Ha|Hu]%orb_prop|Hj].
    - unfold isalpha, is_ascii. assert ((c <? 128)%N = true) as ->; [|by rewrite Ha].
      unfold ascii_isalpha, ascii_isupper, ascii_islower, in_range in Ha.
      apply N.ltb_lt. rewrite orb_true_iff, !andb_true_iff, !N.leb_le in Ha. lia.
    - by apply N.eqb_eq in Hu.
    - by rewrite Hj, orb_true_r. }
  apply take_ge. rewrite Ht' in Hlen. cbn [length] in *. rewrite length_app in Hlen. lia.
Qed.

End SanitizeIdempotence.

Section SanitizeIdempotenceTheorems.
Context `{PyRuntime}.

Lemma second_pass (hpre r : pystr) :
  hpre = lit "table_" ∨ hpre = lit "col_" →
  validate_sql_identifier r = Ok r →
  try_except (validate_sql_identifier (rstrip_chars (lit "_") r))
    (fun _ => hashed_name hpre r) = Ok r
  ↔ last r ≠ Some 95%N.
Proof.
  intros Hpre Hv. split.
  - intros Hres Hlast.
    destruct (rstrip_by_prefix (mem_char (lit "_")) r) as (b & Hb & _).
    fold (rstrip_chars (lit "_") r) in Hb.
    assert (length (rstrip_chars (lit "_") r) < length r)%nat as Hlt.
    { destruct b as [|d b].
      - rewrite app_nil_r in Hb. rewrite Hb in Hlast at 1.
        apply rstrip_by_last in Hlast. by rewrite mem_char_underscore in Hlast.
      - rewrite Hb at 2. rewrite length_app. cbn [length]. lia. }
    destruct (validate_sql_identifier (rstrip_chars (lit "_") r)) as [v|e] eqn:Hv';
      cbn [try_except] in Hres.
    + injection Hres as ->.
      apply validate_sql_identifier_spec in Hv' as (_ & Hr & _).
      pose proof (strip_by_length isspace (rstrip_chars (lit "_") r)) as Hle.
      fold (strip (rstrip_chars (lit "_") r)) in Hle. rewrite <-Hr in Hle. lia.
    + apply (hashed_name_shape hpre r r Hpre) in Hres as (_ & _ & Hl). done.
  - intros Hlast. unfold rstrip_chars. rewrite rstrip_by_id.
    + by rewrite Hv.
    + destruct (last r) as [c|]; [|done]. rewrite mem_char_underscore.
      apply N.eqb_neq. congruence.
Qed.

Lemma sanitize_table_name_shape raw_name r :
  whitespace_is_not_alnum →
  sanitize_table_name raw_name = Ok r →
  validate_sql_identifier r = Ok r
  ∧ no_double_underscore r = true ∧ head r ≠ Some 95%N.
Proof.
  intros Hsane. unfold sanitize_table_name.
  destruct raw_name as [|c0 raw].
  { intros [= <-]. split; [vm_compute; reflexivity|]. split; [reflexivity|].
    by intros [=]. }
  rewrite safe_sql_identifier_validated.
  destruct (validate_sql_identifier (clean_table_name (c0 :: raw))) as [v|e] eqn:Hv;
    cbn [try_except].
  - intros [= <-]. split; [by eapply validate_sql_identifier_fixpoint|].
    apply (validate_cleaned (lit "T_") (c0 :: raw) v Hsane); [by left|exact Hv].
  - intros Hh. split; [eapply hashed_name_valid; [|exact Hh]; by left|].
    apply (hashed_name_shape (lit "table_") (c0 :: raw) r) in Hh as (? & ? & _); [done|by left].
Qed.

Lemma sanitize_column_name_shape raw_name r :
  whitespace_is_not_alnum →
  sanitize_column_name raw_name = Ok r →
  validate_sql_identifier r = Ok r
  ∧ no_double_underscore r = true ∧ head r ≠ Some 95%N.
Proof.
  intros Hsane. unfold sanitize_column_name.
  destruct raw_name as [|c0 raw].
  { intros [= <-]. split; [vm_compute; reflexivity|]. split; [reflexivity|].
    by intros [=]. }
  cbv zeta. rewrite safe_sql_identifier_validated.
  destruct (validate_sql_identifier _) as [v|e] eqn:Hv; cbn [try_except].
  - intros [= <-]. split; [by eapply validate_sql_identifier_fixpoint|].
    apply (validate_cleaned (lit "col_") (strip (c0 :: raw)) v Hsane); [by right|exact Hv].
  - intros Hh. split; [eapply hashed_name_valid; [|exact Hh]; by right|].
    apply (hashed_name_shape (lit "col_") (c0 :: raw) r) in Hh as (? & ? & _); [done|by right].
Qed.

Lemma sanitize_table_name_again (raw_name r : pystr) :
  whitespace_is_not_alnum →
  sanitize_table_name raw_name = Ok r →
  sanitize_table_name r = Ok r ↔ last r ≠ Some 95%N.
Proof.
  intros Hsane Hr.
  destruct (sanitize_table_name_shape raw_name r Hsane Hr) as (Hv & Hn & Hh).
  rewrite <-(second_pass (lit "table_") r (or_introl eq_refl) Hv).
  unfold sanitize_table_name at 1.
  destruct r as [|c t] eqn:Er; [by apply validate_sql_identifier_spec in Hv as (? & _)|].
  rewrite <-Er in *. rewrite safe_sql_identifier_validated.
  assert (clean_table_name r = rstrip_chars (lit "_") r) as ->; [|done].
  rewrite Er. rewrite Er in Hv, Hn, Hh.
  exact (cleaned_of_identifier (lit "T_") (c :: t) Hv Hn Hh).
Qed.

(** X4: a second pass of [sanitize_table_name] over a name it returned
    gives the same name exactly when that name does not end with an
    underscore. (A name such as [T_], which a name of punctuation alone
    yields, comes back as [T].) Whitespace is assumed not to be
    alphanumeric, as in Unicode. *)
Theorem sanitize_table_name_idempotent_iff (raw_name r : pystr) :
  whitespace_is_not_alnum →
  sanitize_table_name raw_name = Ok r →
  sanitize_table_name r = Ok r ↔ last r ≠ Some 95%N.
Proof. exact (sanitize_table_name_again raw_name r). Qed.

Lemma sanitize_column_name_again (raw_name r : pystr) :
  whitespace_is_not_alnum →
  sanitize_column_name raw_name = Ok r →
  sanitize_column_name r = Ok r ↔ last r ≠ Some 95%N.
Proof.
  intros Hsane Hr.
  destruct (sanitize_column_name_shape raw_name r Hsane Hr) as (Hv & Hn & Hh).
  rewrite <-(second_pass (lit "col_") r (or_intror eq_refl) Hv).
  unfold sanitize_column_name at 1.
  destruct r as [|c t] eqn:Er; [by apply validate_sql_identifier_spec in Hv as (? & _)|].
  rewrite <-Er in *. cbv zeta. rewrite safe_sql_identifier_validated.
  assert (strip r = r) as ->.
  { by apply validate_sql_identifier_spec in Hv as (_ & <- & _). }
  by rewrite (cleaned_of_identifier (lit "col_") r Hv Hn Hh).
Qed.

(** X5: the same for [sanitize_column_name]: [col_] comes back as [col]. *)
Theorem sanitize_column_name_idempotent_iff (raw_name r : pystr) :
  whitespace_is_not_alnum →
  sanitize_column_name raw_name = Ok r →
  sanitize_column_name r = Ok r ↔ last r ≠ Some 95%N.
Proof. exact (sanitize_column_name_again raw_name r). Qed.


End SanitizeIdempotenceTheorems.

Lemma ascii_runtime_sane : whitespace_is_not_alnum (H := ascii_runtime).
Proof.
  intros c Hc. unfold isalnum, isalpha. cbn [uni_isalnum uni_isalpha ascii_runtime].
  destruct (is_ascii c) eqn:Ha; [|done].
  unfold isspace, is_ascii, ascii_isalpha, ascii_isupper, ascii_islower, ascii_isdigit,
    in_range in *.
  apply N.ltb_lt in Ha.
  repeat (apply orb_prop in Hc as [Hc|Hc]);
    rewrite ?andb_true_iff, ?N.leb_le, ?N.eqb_eq in Hc;
    (split; repeat (apply orb_false_iff; split); apply andb_false_iff;
     rewrite !N.leb_gt; lia).
Defined.

(** [my table] gives [my_table], which stays. *)
Lemma sanitize_table_name_idempotent_iff_witness :
  sanitize_table_name (H := ascii_runtime) (lit "my_table") = Ok (lit "my_table")
  ↔ last (lit "my_table") ≠ Some 95%N.
Proof.
  apply (sanitize_table_name_idempotent_iff (H := ascii_runtime)
           (lit "my table") (lit "my_table") ascii_runtime_sane).
  vm_compute. reflexivity.
Defined.

(** A header of punctuation alone gives [col_], which does not stay. *)
Lemma sanitize_column_name_idempotent_iff_witness :
  sanitize_column_name (H := ascii_runtime) (lit "col_") = Ok (lit "col_")
  ↔ last (lit "col_") ≠ Some 95%N.
Proof.
  apply (sanitize_column_name_idempotent_iff (H := ascii_runtime)
           (lit "?!") (lit "col_") ascii_runtime_sane).
  vm_compute. reflexivity.
Defined.



(** ** Transform rules *)

Section TransformFacts.
Context `{PyRuntime}.

Lemma split1_None sep s : (split1 sep s).2 = None ↔ sep ∉ s.
Proof.
  induction s as [|c s IH]; cbn [split1].
  - split; [intros _; apply not_elem_of_nil|done].
  - destruct (N.eqb_spec c sep) as [->|Hne].
    + split; [done|]. intros Hn. destruct Hn. left.
    + destruct (split1 sep s) as [a b]. cbn in *. rewrite IH.
      rewrite not_elem_of_cons. naive_solver.
Qed.

Lemma try_except_Ok_handler {A} (r : result A) (v : A) e :
  try_except r (fun _ => Ok v) ≠ Raise e.
Proof. by destruct r. Qed.

Lemma lower_nil : lower [] = [].
Proof. reflexivity. Qed.

Lemma apply_column_transformation_raises v rule e :
  apply_column_transformation v rule = Raise e ↔
  e = ValueError ∧ v ≠ VNone ∧
  ∃ name arg, split1 58 rule = (name, arg) ∧
    ((∃ a, arg = Some a ∧ lower name = lit "replace" ∧ 44%N ∉ a)
     ∨ (str_fails v = true
        ∧ (lower name ∈ [lit "uppercase"; lit "lowercase"; lit "trim"]
           ∨ (is_Some arg
              ∧ lower name ∈ [lit "prefix"; lit "suffix"; lit "replace"])))).
Proof.
  destruct rule as [|c r].
  { split; [done|]. intros (_ & _ & n & a & [= <- <-] & Hc). exfalso.
    rewrite lower_nil, !elem_of_cons in Hc.
    destruct Hc as [(? & ? & ? & _)|(_ & [Hc|[_ Hc]])]; [done|..];
      repeat (destruct Hc as [Hc|Hc]; [done|]); by apply elem_of_nil in Hc. }
  assert (v = VNone ∨ v ≠ VNone) as [->|Hv] by (destruct v; auto).
  { split; [done|]. by intros (_ & ? & _). }
  set (rule := c :: r).
  assert (apply_column_transformation v rule =
    let rule_parts := split1 58 rule in
    let rule_name := lower (fst rule_parts) in
    if pystr_eqb rule_name (lit "uppercase") then s ← str v; Ok (VStr (upper s))
    else if pystr_eqb rule_name (lit "lowercase") then s ← str v; Ok (VStr (lower s))
    else if pystr_eqb rule_name (lit "trim") then s ← str v; Ok (VStr (strip s))
    else match snd rule_parts with
    | None => Ok v
    | Some arg =>
        if pystr_eqb rule_name (lit "prefix") then s ← str v; Ok (VStr (arg ++ s))
        else if pystr_eqb rule_name (lit "suffix") then s ← str v; Ok (VStr (s ++ arg))
        else if pystr_eqb rule_name (lit "replace") then
          match split1 44 arg with
          | (old, Some new) => s ← str v; Ok (VStr (replace old new s))
          | (_, None) => Raise ValueError
          end
        else if pystr_eqb rule_name (lit "date_format") then
          try_except
            (match v with
             | VTimestamp t => s ← strftime t arg; Ok (VStr s)
             | _ => text ← str v; t ← strptime_ymd text;
                    s ← strftime t arg; Ok (VStr s)
             end)
            (fun _ => Ok v)
        else Ok v
    end) as -> by (by destruct v).
  clearbody rule. cbv zeta. unfold pystr_eqb, str.
  destruct (split1 58 rule) as [name arg] eqn:Hs. cbn [fst snd].
  split.
  - intros Hr.
    assert (e = ValueError ∧
            ((∃ a, arg = Some a ∧ lower name = lit "replace" ∧ 44%N ∉ a)
             ∨ (str_fails v = true
                ∧ (lower name ∈ [lit "uppercase"; lit "lowercase"; lit "trim"]
                   ∨ (is_Some arg
                      ∧ lower name ∈ [lit "prefix"; lit "suffix"; lit "replace"])))))
      as [-> Hc]; [|split; [done|]; split; [done|]; by exists name, arg].
    rewrite !elem_of_cons. revert Hr.
    destruct arg as [arg|]; destruct (str_fails v) eqn:Hf;
      repeat case_bool_decide; cbn; try done;
      try (intros [= <-]; split; [done|]; right; split; [done|]; naive_solver).
    + destruct (split1 44 arg) as [old [new|]] eqn:Hc; cbn;
        intros [= <-]; (split; [done|]).
      * right. split; [done|]. naive_solver.
      * left. exists arg. split; [done|]. split; [done|].
        apply split1_None. by rewrite Hc.
    + intros Hr. by apply try_except_Ok_handler in Hr.
    + destruct (split1 44 arg) as [old [new|]] eqn:Hc; cbn; [done|].
      intros [= <-]. split; [done|]. left. exists arg. split; [done|]. split; [done|].
      apply split1_None. by rewrite Hc.
    + intros Hr. by apply try_except_Ok_handler in Hr.
  - intros (-> & _ & n & a & [= -> ->] & Hc). rewrite !elem_of_cons in Hc.
    destruct Hc as [(a' & -> & Hn & Hc)|(Hf & Hc)].
    + rewrite Hn. apply split1_None in Hc.
      repeat (case_bool_decide; [done|]).
      repeat (case_bool_decide; try done).
      destruct (split1 44 a') as [old new]. cbn in Hc. by rewrite Hc.
    + rewrite Hf.
      destruct Hc as [[Hn|[Hn|[Hn|Hn]]]|[[a' ->] [Hn|[Hn|[Hn|Hn]]]]];
        try (by apply elem_of_nil in Hn); rewrite Hn;
        repeat (case_bool_decide; try done).
      by destruct (split1 44 a') as [old [new|]].
Qed.

(** X16: [apply_column_transformation] raises in two cases only, both on a
    value that is not [None], both with ValueError: the rule is
    [replace:] (in any letter case) followed by an argument without a
    comma, where unpacking [old, new] fails; or the rule is one that
    prints the value ([uppercase], [lowercase], [trim], and [prefix],
    [suffix] and [replace] with an argument) and [str] refuses the
    value. Every other rule and value gives a result; a failing
    [date_format] gives the value back. *)
Theorem apply_column_transformation_raises_iff v rule e :
  apply_column_transformation v rule = Raise e ↔
  e = ValueError ∧ v ≠ VNone ∧
  ∃ name arg, split1 58 rule = (name, arg) ∧
    ((∃ a, arg = Some a ∧ lower name = lit "replace" ∧ 44%N ∉ a)
     ∨ (str_fails v = true
        ∧ (lower name ∈ [lit "uppercase"; lit "lowercase"; lit "trim"]
           ∨ (is_Some arg
              ∧ lower name ∈ [lit "prefix"; lit "suffix"; lit "replace"])))).
Proof. apply apply_column_transformation_raises. Qed.
End TransformFacts.

(** ** Header cleaning *)

Section HeaderFacts.
Context `{PyRuntime}.

Lemma lit_inj a b : lit a = lit b → a = b.
Proof.
  unfold lit. revert b. induction a as [|x a IH]; intros [|y b]; cbn; try done.
  intros [= Hx Hl]. f_equal; [|by apply IH].
  rewrite <- (ascii_N_embedding x), <- (ascii_N_embedding y). by rewrite Hx.
Qed.

Lemma str_of_Z_inj a b : (0 < a)%Z → (0 < b)%Z → str_of_Z a = str_of_Z b → a = b.
Proof.
  intros Ha Hb Heq%lit_inj. apply DecimalZ.to_int_inj.
  assert (∀ z, (0 < z)%Z → NilZero.int_of_string (NilZero.string_of_int (Z.to_int z))
                           = Some (Z.to_int z)) as Hrt.
  { intros z Hz. apply NilZero.isi; destruct z as [|p|p]; try done; cbn;
      intros [= Hp]; by apply (DecimalPos.Unsigned.to_uint_nonnil p). }
  apply Hrt in Ha, Hb. rewrite Heq in Ha. congruence.
Qed.

Lemma numbered_inj base j k : (0 < j)%nat → (0 < k)%nat →
  numbered base j = numbered base k → j = k.
Proof.
  unfold numbered. intros Hj Hk Heq. do 2 apply app_inv_head in Heq.
  apply str_of_Z_inj in Heq; lia.
Qed.

Lemma unique_name_Some fuel base k col cleaned c :
  unique_name fuel base k col cleaned = Some c → c ∉ cleaned.
Proof.
  revert k col. induction fuel as [|f IH]; intros k col; cbn [unique_name];
    case_bool_decide; try done; try (by intros [= <-]).
  apply IH.
Qed.

Lemma unique_name_None fuel base k col cleaned :
  unique_name fuel base k col cleaned = None →
  ∀ j, (k ≤ j < k + fuel)%nat → numbered base j ∈ cleaned.
Proof.
  revert k col. induction fuel as [|f IH]; intros k col; cbn [unique_name];
    case_bool_decide; try done.
  - intros _ j Hj. lia.
  - intros Hn j Hj. destruct (decide (j = k)) as [->|Hne].
    + destruct f; cbn [unique_name] in Hn; by case_bool_decide.
    + apply (IH _ _ Hn). lia.
Qed.

Lemma unique_name_finds base col cleaned :
  is_Some (unique_name (S (length cleaned)) base 1 col cleaned).
Proof.
  destruct (unique_name _ _ _ _ _) as [c|] eqn:Hu; [by eexists|]. exfalso.
  pose proof (unique_name_None _ _ _ _ _ Hu) as Hin.
  set (L := numbered base <$> seq 1 (S (length cleaned))).
  assert (NoDup L) as Hnd.
  { apply NoDup_fmap_2_strong; [|apply NoDup_seq].
    intros j k Hj%elem_of_seq Hk%elem_of_seq. apply numbered_inj; lia. }
  assert (L ⊆ cleaned) as Hsub.
  { intros x (j & -> & Hj%elem_of_seq)%list_elem_of_fmap. apply Hin. lia. }
  pose proof (submseteq_length _ _ (NoDup_submseteq _ _ Hnd Hsub)) as Hlen.
  unfold L in Hlen. rewrite length_fmap, length_seq in Hlen. lia.
Qed.

Lemma sanitize_column_name_raises raw e :
  sanitize_column_name raw = Raise e → e = UnicodeEncodeError.
Proof.
  unfold sanitize_column_name. destruct raw as [|c0 raw]; [done|].
  cbv zeta. destruct (safe_sql_identifier _) as [v|e0]; [done|]. cbn [try_except].
  unfold hashed_name. destruct (utf8_encode (c0 :: raw)) as [b|e2] eqn:He; [done|].
  cbn. intros [= <-]. by apply utf8_encode_raises in He.
Qed.

Lemma clean_header_from_spec i header cleaned :
  NoDup cleaned →
  ∃ r, clean_header_from i header cleaned = Some r ∧
       match r with
       | Ok l => length l = (length cleaned + length header)%nat ∧ NoDup l
       | Raise e => e = UnicodeEncodeError
       end.
Proof.
  revert i cleaned. induction header as [|col rest IH]; intros i cleaned Hnd.
  { eexists. split; [done|]. cbn. split; [lia|done]. }
  cbn [clean_header_from].
  destruct (base_name i col) as [base|e] eqn:Hb.
  - destruct (unique_name_finds base base cleaned) as [c Hc]. rewrite Hc.
    apply unique_name_Some in Hc.
    destruct (IH (S i) (cleaned ++ [c])) as (r & -> & Hr).
    { apply NoDup_app. split; [done|]. split; [|apply NoDup_singleton].
      intros x Hx ->%list_elem_of_singleton. done. }
    exists r. split; [done|]. destruct r as [l|e]; [|done].
    rewrite length_app in Hr. cbn [length] in *. split; [lia|apply Hr].
  - eexists. split; [done|]. cbn. unfold base_name in Hb.
    destruct (blank_header col); [done|].
    by apply sanitize_column_name_raises in Hb.
Qed.

(** X17: the header cleaning of [get_excel_info] and [get_csv_info] always
    comes to an end: the renaming loop stops within one round more than
    there are names so far. It gives as many names as the header row has
    cells, no two of them equal; the only failure is a header text that
    UTF-8 cannot encode and that fails validation. *)
Theorem clean_header_distinct (header : list pyval) :
  ∃ r, clean_header header = Some r ∧
       match r with
       | Ok cleaned_header =>
           length cleaned_header = length header ∧ NoDup cleaned_header
       | Raise e => e = UnicodeEncodeError
       end.
Proof.
  destruct (clean_header_from_spec 0 header []) as (r & Hr & Hs); [apply NoDup_nil_2|].
  exists r. split; [done|]. by destruct r.
Qed.
End HeaderFacts.

(** ** CSV sniffing *)

Section CsvFacts.

Lemma max_by_value_spec best items :
  ∃ pre kv post, best :: items = pre ++ kv :: post ∧
    max_by_value best items = kv.1 ∧
    Forall (fun x => (x.2 < kv.2)%nat) pre ∧
    Forall (fun x => (x.2 ≤ kv.2)%nat) post.
Proof.
  revert best. induction items as [|x items IH]; intros best.
  { exists [], best, []. by repeat split. }
  cbn [max_by_value]. destruct (Nat.ltb_spec best.2 x.2) as [Hlt|Hge].
  - destruct (IH x) as (pre & kv & post & Heq & Hm & Hpre & Hpost).
    exists (best :: pre), kv, post. rewrite Hm, Heq. repeat split; [|done].
    constructor; [|done].
    destruct pre as [|p pre]; injection Heq as <- Heq; [done|].
    apply Forall_cons in Hpre as [Hp _]. lia.
  - destruct (IH best) as (pre & kv & post & Heq & Hm & Hpre & Hpost).
    destruct pre as [|p pre]; injection Heq as <- Heq.
    + exists [], best, (x :: post). rewrite Hm. subst items. repeat split; [done|].
      constructor; [lia|done].
    + exists (best :: x :: pre), kv, post. rewrite Hm, Heq. repeat split; [|done].
      apply Forall_cons in Hpre as [Hp Hpre].
      constructor; [done|]. constructor; [lia|done].
Qed.

Lemma count_app c a b : count c (a ++ b) = (count c a + count c b)%nat.
Proof. unfold count. by rewrite List.filter_app, length_app. Qed.

Lemma count_pos c s : (0 < count c s)%nat ↔ c ∈ s.
Proof.
  unfold count. induction s as [|x s IH]; cbn [List.filter].
  - cbn. split; [lia|by intros ?%elem_of_nil].
  - rewrite elem_of_cons. destruct (N.eqb_spec c x) as [->|Hne].
    + cbn. split; [auto|lia].
    + rewrite IH. naive_solver.
Qed.

Lemma split_no_sep c s : c ∉ s → split c s = [s].
Proof.
  induction s as [|x s IH]; [done|]. intros [Hx Hs]%not_elem_of_cons.
  cbn [split]. destruct (N.eqb_spec x c) as [->|_]; [done|]. by rewrite IH.
Qed.

Lemma split_app_sep c a b : c ∉ a → split c (a ++ c :: b) = a :: split c b.
Proof.
  induction a as [|x a IH]; intros Ha.
  - cbn. by rewrite N.eqb_refl.
  - apply not_elem_of_cons in Ha as [Hx Ha]. cbn [app split].
    destruct (N.eqb_spec x c) as [->|_]; [done|]. by rewrite IH.
Qed.

Lemma detect_csv_properties_sep_most_frequent (text_sample : pystr) :
  ∃ pre post,
    [44; 59; 9; 124]%N = pre ++ sep (detect_csv_properties (Ok text_sample)) :: post ∧
    Forall (fun c => (count c text_sample
                      < count (sep (detect_csv_properties (Ok text_sample))) text_sample)%nat) pre ∧
    Forall (fun c => (count c text_sample
                      ≤ count (sep (detect_csv_properties (Ok text_sample))) text_sample)%nat) post.
Proof.
  cbn [detect_csv_properties sep].
  set (cands := sep_candidates text_sample).
  destruct (existsb _ cands) eqn:Hany.
  - unfold cands, sep_candidates. cbn [fmap list_fmap].
    destruct (max_by_value_spec (44%N, count 44 text_sample)
                [(59%N, count 59 text_sample); (9%N, count 9 text_sample);
                 (124%N, count 124 text_sample)])
      as (pre & kv & post & Heq & -> & Hpre & Hpost).
    exists (fst <$> pre), (fst <$> post).
    assert (kv.2 = count kv.1 text_sample ∧
            Forall (fun x => x.2 = count x.1 text_sample) pre ∧
            Forall (fun x => x.2 = count x.1 text_sample) post) as (Hk & Hp1 & Hp2).
    { assert (Forall (fun x : N * nat => x.2 = count x.1 text_sample)
                (pre ++ kv :: post)) as Hall.
      { rewrite <- Heq. by repeat constructor. }
      apply Forall_app in Hall as [? [? ?]%Forall_cons]. done. }
    split.
    { apply (f_equal (fmap fst)) in Heq. rewrite fmap_app in Heq. exact Heq. }
    rewrite !Forall_fmap. split.
    + eapply Forall_impl; [apply Forall_and; split; [exact Hpre|exact Hp1]|].
      intros x [Hx Hc]. cbn. rewrite <- Hc, <- Hk. exact Hx.
    + eapply Forall_impl; [apply Forall_and; split; [exact Hpost|exact Hp2]|].
      intros x [Hx Hc]. cbn. rewrite <- Hc, <- Hk. exact Hx.
  - exists [], [59; 9; 124]%N. split; [done|]. split; [done|].
    unfold cands, sep_candidates in Hany. cbn [fmap list_fmap existsb snd] in Hany.
    repeat (apply orb_false_elim in Hany as [?%Nat.ltb_ge Hany]).
    repeat constructor; lia.
Qed.

(** X18: the delimiter [detect_csv_properties] reports is the candidate
    among comma, semicolon, tab and bar that occurs most often in the
    sample; of several that occur equally often the first in this order;
    the comma when none occurs. *)
Theorem detect_csv_properties_sep (text_sample : pystr) :
  ∃ pre post,
    [44; 59; 9; 124]%N = pre ++ sep (detect_csv_properties (Ok text_sample)) :: post ∧
    Forall (fun c => (count c text_sample
                      < count (sep (detect_csv_properties (Ok text_sample))) text_sample)%nat) pre ∧
    Forall (fun c => (count c text_sample
                      ≤ count (sep (detect_csv_properties (Ok text_sample))) text_sample)%nat) post.
Proof. exact (detect_csv_properties_sep_most_frequent text_sample). Qed.

(** X19: a sample that is one line ended by a line feed, with at least one
    candidate delimiter in the line, is reported as having no header: the
    empty text after the line feed counts as a second line, with no
    delimiter in it. The same line without the line feed is reported as a
    header. *)
Theorem detect_csv_properties_single_line (line : pystr) (c : N) :
  10%N ∉ line → c ∈ [44; 59; 9; 124]%N → c ∈ line →
  has_header (detect_csv_properties (Ok (line ++ [10%N]))) = false ∧
  has_header (detect_csv_properties (Ok line)) = true.
Proof.
  intros Hnl Hc Hin. split.
  - destruct (detect_csv_properties_sep_most_frequent (line ++ [10%N])) as (pre & post & Heq & Hpre & Hpost).
    revert Heq Hpre Hpost. cbn [detect_csv_properties has_header sep].
    set (max_sep := if existsb _ _ then _ else _). intros Heq Hpre Hpost.
    rewrite split_app_sep by done. cbn [split].
    apply bool_decide_eq_false. change (count max_sep []) with 0%nat.
    assert (max_sep ∈ [44; 59; 9; 124]%N) as Hm.
    { rewrite Heq. apply elem_of_app. right. left. }
    assert (count c (line ++ [10%N]) ≤ count max_sep (line ++ [10%N]))%nat as Hle.
    { rewrite Heq in Hc. apply elem_of_app in Hc as [Hc|Hc].
      - rewrite Forall_forall in Hpre. apply Hpre in Hc. lia.
      - apply elem_of_cons in Hc as [->|Hc]; [done|].
        rewrite Forall_forall in Hpost. by apply Hpost. }
    apply count_pos in Hin. rewrite !count_app in Hle.
    assert (count c [10%N] = 0 ∧ count max_sep [10%N] = 0)%nat as [Hc0 Hm0].
    { clear -Hc Hm. rewrite !elem_of_cons in Hc, Hm.
      split; [destruct Hc as [->|[->|[->|[->|Hc]]]]|destruct Hm as [->|[->|[->|[->|Hm]]]]];
        try done; by apply elem_of_nil in Hc || by apply elem_of_nil in Hm. }
    lia.
  - cbn [detect_csv_properties has_header]. by rewrite split_no_sep.
Qed.

Lemma detect_csv_properties_single_line_witness :
  has_header (detect_csv_properties (Ok (lit "a,b" ++ [10%N]))) = false ∧
  has_header (detect_csv_properties (Ok (lit "a,b"))) = true.
Proof.
  apply (detect_csv_properties_single_line (lit "a,b") 44%N).
  - vm_compute. intros Hin. repeat (apply elem_of_cons in Hin as [Hin|Hin]; [done|]).
    by apply elem_of_nil in Hin.
  - left.
  - vm_compute. right. left.
Defined.
End CsvFacts.

(** ** Chunk workers: string cleaning *)

Section CleanStringFacts.
Context `{PyRuntime}.

Lemma replace_go_single q new s :
  replace_go [q] new 0 s = flat_map (fun c => if (q =? c)%N then new else [c]) s.
Proof.
  induction s as [|c s IH]; [done|]. cbn [replace_go startswith flat_map].
  rewrite andb_true_r. destruct (q =? c)%N; cbn; by rewrite IH.
Qed.

Lemma replace_single_absent q new s : q ∉ new → q ∉ replace [q] new s.
Proof.
  intros Hn. unfold replace. rewrite replace_go_single.
  intros (c & Hc & Hin)%list_elem_of_In%in_flat_map.
  destruct (N.eqb_spec q c) as [->|Hne].
  - by apply list_elem_of_In in Hin.
  - destruct Hin as [->|[]]. done.
Qed.

Lemma replace_single_keeps_absent x q new s :
  x ∉ new → x ∉ s → x ∉ replace [q] new s.
Proof.
  intros Hn Hs. unfold replace. rewrite replace_go_single.
  intros (c & Hc%list_elem_of_In & Hin)%list_elem_of_In%in_flat_map.
  destruct (q =? c)%N.
  - by apply list_elem_of_In in Hin.
  - destruct Hin as [->|[]]. done.
Qed.

(** X20: a string that went through the cleaning of [process_chunk] holds
    no control or format character (categories Cc and Cf): line feeds,
    carriage returns, tabs, form feeds and vertical tabs have become
    spaces, the rest is dropped. *)
Theorem clean_string_no_control (x : pystr) :
  Forall (fun char => is_control char = false) (clean_string x).
Proof.
  apply Forall_forall. intros c Hc. unfold clean_string in Hc.
  apply list_elem_of_In, filter_In in Hc as [Hin%list_elem_of_In Hk].
  apply orb_prop in Hk as [Hk|Hk]; [by apply negb_true_iff in Hk|].
  cbn in Hk. rewrite orb_false_r in Hk.
  apply orb_prop in Hk as [Hk|Hk]; apply N.eqb_eq in Hk; subst c; [done|].
  exfalso. revert Hin.
  do 2 (apply replace_single_keeps_absent; [apply not_elem_of_nil|]).
  do 2 (apply replace_single_keeps_absent;
        [by intros ?%list_elem_of_singleton|]).
  apply replace_single_absent. by intros ?%list_elem_of_singleton.
Qed.
End CleanStringFacts.

(** ** Chunk workers: merged cells *)

Section MergedCellFacts.

Lemma iloc_with_cell df r0 c0 v r c :
  iloc (with_cell df r0 c0 v) r c
  = if bool_decide (r = r0 ∧ c = c0) then (fun _ => v) <$> iloc df r c
    else iloc df r c.
Proof.
  unfold iloc, with_cell, getitem. rewrite list_lookup_alter.
  destruct (decide (r0 = r)) as [->|Hr].
  - destruct (df !! r) as [cells|] eqn:Hd; cbn [fmap option_fmap option_map].
    + rewrite list_lookup_insert. destruct (decide (c0 = c ∧ (c0 < length cells)%nat))
        as [[-> Hlt]|Hn].
      * rewrite bool_decide_true by done.
        apply lookup_lt_is_Some in Hlt as [x ->]. done.
      * case_bool_decide as Hb; [|done]. destruct Hb as [_ ->].
        destruct (cells !! c0) eqn:Hc; [|done].
        apply lookup_lt_Some in Hc. naive_solver.
    + by case_bool_decide.
  - rewrite bool_decide_false by naive_solver. done.
Qed.

Lemma shape_with_cell df r0 c0 v :
  length <$> with_cell df r0 c0 v = length <$> df.
Proof.
  unfold with_cell. apply list_eq. intros i. rewrite !list_lookup_fmap, list_lookup_alter.
  destruct (decide (r0 = i)) as [->|]; [|done].
  destruct (df !! i); cbn; [|done]. by rewrite length_insert.
Qed.

Lemma fmap_fmap_const (v : pyval) (x : result pyval) :
  (fun _ => v) <$> ((fun _ => v) <$> x) = (fun _ => v) <$> x.
Proof. by destruct x. Qed.

Lemma iloc_fill_cols v (g : Z → bool) r0 cols df r c :
  iloc (foldl (fun df z => if g z then with_cell df r0 (Z.to_nat z) v else df) df cols) r c
  = if bool_decide (r = r0) && existsb (fun z => g z && (Z.to_nat z =? c)%nat) cols
    then (fun _ => v) <$> iloc df r c else iloc df r c.
Proof.
  revert df. induction cols as [|z cols IH]; intros df; cbn [foldl existsb].
  { by rewrite andb_false_r. }
  rewrite IH. destruct (g z) eqn:Hg; cbn [andb orb].
  - rewrite iloc_with_cell.
    destruct (Nat.eqb_spec (Z.to_nat z) c) as [<-|Hne]; cbn [orb].
    + rewrite andb_true_r. case_bool_decide as Hr.
      * subst. rewrite bool_decide_true by done. cbn [andb].
        rewrite fmap_fmap_const. by destruct (existsb _ _).
      * rewrite bool_decide_false by naive_solver. done.
    + rewrite (bool_decide_false (_ ∧ _)) by naive_solver. done.
  - done.
Qed.

Lemma shape_fill_cols v (g : Z → bool) r0 cols df :
  length <$> foldl (fun df z => if g z then with_cell df r0 (Z.to_nat z) v else df) df cols
  = length <$> df.
Proof.
  revert df. induction cols as [|z cols IH]; intros df; cbn [foldl]; [done|].
  rewrite IH. destruct (g z); [apply shape_with_cell|done].
Qed.

Lemma iloc_fill_rows v (g : Z → Z → bool) rows cols df r c :
  iloc (foldl (fun df zr =>
          foldl (fun df zc => if g zr zc
                              then with_cell df (Z.to_nat zr) (Z.to_nat zc) v else df)
            df cols) df rows) r c
  = if existsb (fun zr => (Z.to_nat zr =? r)%nat
                 && existsb (fun zc => g zr zc && (Z.to_nat zc =? c)%nat) cols) rows
    then (fun _ => v) <$> iloc df r c else iloc df r c.
Proof.
  revert df. induction rows as [|zr rows IH]; intros df; cbn [foldl existsb]; [done|].
  rewrite IH, (iloc_fill_cols v (g zr)).
  destruct (Nat.eqb_spec (Z.to_nat zr) r) as [<-|Hne].
  - rewrite bool_decide_true by done. cbn [andb].
    destruct (existsb (fun zc => _) cols); cbn [orb]; [|done].
    rewrite fmap_fmap_const. by destruct (existsb _ rows).
  - rewrite bool_decide_false by done. done.
Qed.

Lemma shape_fill_rows v (g : Z → Z → bool) rows cols df :
  length <$> foldl (fun df zr =>
          foldl (fun df zc => if g zr zc
                              then with_cell df (Z.to_nat zr) (Z.to_nat zc) v else df)
            df cols) df rows
  = length <$> df.
Proof.
  revert df. induction rows as [|zr rows IH]; intros df; cbn [foldl]; [done|].
  by rewrite IH, (shape_fill_cols v (g zr)).
Qed.

Lemma elem_of_range a b z : z ∈ range a b ↔ a ≤ z < b.
Proof.
  unfold range. rewrite list_elem_of_fmap. setoid_rewrite elem_of_seq. split.
  - intros (k & -> & Hk). lia.
  - intros Hz. exists (Z.to_nat (z - a)). lia.
Qed.

Lemma shape_heads (df df0 : dataframe) :
  length <$> df = length <$> df0 →
  length df = length df0 ∧ shape1 df = shape1 df0.
Proof.
  intros Heq. split.
  - by rewrite <- (length_fmap length df), Heq, length_fmap.
  - destruct df as [|x df], df0 as [|y df0]; try done. by injection Heq.
Qed.

Section AcceptedWrites.
Variable iloc_set : dataframe → nat → nat → pyval → result dataframe.
Variable v : pyval.
Hypothesis accepted : ∀ df r c, iloc_set df r c v = Ok (with_cell df r c v).
Variable df0 : dataframe.

(** As long as pandas accepts the writes, the loops run to their end and
    the frame keeps its shape, so the bounds they test do not move. *)
Lemma for_each_cols_accepted (zr : Z) cols : ∀ df,
  length <$> df = length <$> df0 →
  for_each cols (fun c df =>
      if (zr <? Z.of_nat (length df)) && (c <? Z.of_nat (shape1 df))
      then match iloc_set df (Z.to_nat zr) (Z.to_nat c) v with
           | Ok df1 => (Ok (), df1)
           | Raise e => (Raise e, df)
           end
      else (Ok (), df)) df
  = (Ok (),
     foldl (fun df zc =>
              if (zr <? Z.of_nat (length df0)) && (zc <? Z.of_nat (shape1 df0))
              then with_cell df (Z.to_nat zr) (Z.to_nat zc) v else df) df cols).
Proof.
  induction cols as [|zc cols IH]; intros df Hshape; [done|].
  cbn [for_each foldl]. destruct (shape_heads _ _ Hshape) as [-> ->].
  destruct (_ && _).
  - rewrite accepted. apply IH. by rewrite shape_with_cell.
  - by apply IH.
Qed.

Lemma for_each_rows_accepted rows cols : ∀ df,
  length <$> df = length <$> df0 →
  for_each rows (fun r =>
    for_each cols (fun c df =>
      if (r <? Z.of_nat (length df)) && (c <? Z.of_nat (shape1 df))
      then match iloc_set df (Z.to_nat r) (Z.to_nat c) v with
           | Ok df1 => (Ok (), df1)
           | Raise e => (Raise e, df)
           end
      else (Ok (), df))) df
  = (Ok (),
     foldl (fun df zr =>
       foldl (fun df zc =>
                if (zr <? Z.of_nat (length df0)) && (zc <? Z.of_nat (shape1 df0))
                then with_cell df (Z.to_nat zr) (Z.to_nat zc) v else df) df cols)
       df rows).
Proof.
  induction rows as [|zr rows IH]; intros df Hshape; [done|].
  cbn [for_each foldl]. rewrite for_each_cols_accepted by done.
  apply IH.
  by rewrite (shape_fill_cols v
               (fun zc => (zr <? Z.of_nat (length df0)) && (zc <? Z.of_nat (shape1 df0)))).
Qed.
End AcceptedWrites.

Lemma iloc_in_frame df r c :
  Forall (fun cells => length cells = shape1 df) df →
  (r < length df)%nat → (c < shape1 df)%nat → ∃ x, iloc df r c = Ok x.
Proof.
  intros Hrect Hr Hc. unfold iloc, getitem.
  apply lookup_lt_is_Some in Hr as [cells Hcells]. rewrite Hcells.
  rewrite Forall_forall in Hrect. specialize (Hrect cells (list_elem_of_lookup_2 _ _ _ Hcells)).
  rewrite <- Hrect in Hc. apply lookup_lt_is_Some in Hc as [x ->]. by exists x.
Qed.

(** X21: what one merged region does to a chunk of equal-length rows when
    pandas accepts the writes of the region's value and stores it as it
    is. The frame keeps its shape. A cell at row [r],
    column [c] of the chunk belongs to the region when
    [min_row <= r + skiprows <= max_row] and
    [min_col <= c + 1 <= max_col]; every such cell ends up with the value
    the chunk had at the first of the region's rows that lies in the
    chunk, in the region's first column, which is the region's top-left
    cell only if that row is in this chunk. Every other cell keeps its
    value. *)
Theorem fill_region_cells
    (iloc_set : dataframe → nat → nat → pyval → result dataframe)
    skiprows df min_row min_col max_row max_col r c :
  Forall (fun cells => length cells = shape1 df) df →
  1 ≤ min_col →
  (r < length df)%nat → (c < shape1 df)%nat →
  (∀ v, iloc df (Z.to_nat (Z.max 0 (min_row - skiprows))) (Z.to_nat (min_col - 1))
        = Ok v →
        ∀ df' r' c', iloc_set df' r' c' v = Ok (with_cell df' r' c' v)) →
  length <$> fill_region iloc_set skiprows df (min_row, min_col, max_row, max_col)
    = length <$> df ∧
  iloc (fill_region iloc_set skiprows df (min_row, min_col, max_row, max_col)) r c
  = if bool_decide ((min_row ≤ Z.of_nat r + skiprows ≤ max_row)
                    ∧ (min_col ≤ Z.of_nat c + 1 ≤ max_col))
    then iloc df (Z.to_nat (Z.max 0 (min_row - skiprows))) (Z.to_nat (min_col - 1))
    else iloc df r c.
Proof.
  intros Hrect Hcol Hr Hc Hacc. unfold fill_region.
  destruct ((min_row - skiprows <? Z.of_nat (length df))
            && (0 <=? max_row - skiprows)) eqn:Hcross; cycle 1.
  { split; [done|]. rewrite bool_decide_false; [done|]. intros [Hrow _].
    apply andb_false_iff in Hcross as [?%Z.ltb_ge|?%Z.leb_gt]; lia. }
  apply andb_prop in Hcross as [Hlo%Z.ltb_lt Hhi%Z.leb_le].
  rewrite (proj2 (andb_true_iff _ _)) by (split; apply Z.leb_le; lia).
  set (cmin := Z.max 0 (min_row - skiprows)) in *.
  set (cmax := Z.min (Z.of_nat (length df) - 1) (max_row - skiprows)).
  set (dmax := Z.min (Z.of_nat (shape1 df) - 1) (max_col - 1)).
  destruct (iloc df (Z.to_nat cmin) (Z.to_nat (min_col - 1))) as [cell|e] eqn:Hcell; cycle 1.
  { split; [done|]. case_bool_decide as Hin; [|done]. exfalso.
    destruct (iloc_in_frame df (Z.to_nat cmin) (Z.to_nat (min_col - 1)) Hrect)
      as [x Hx]; [lia|lia|congruence]. }
  rewrite (for_each_rows_accepted iloc_set cell (Hacc cell eq_refl) df) by done.
  cbn [snd]. split.
  { apply (shape_fill_rows cell
             (fun zr zc => (zr <? Z.of_nat (length df)) && (zc <? Z.of_nat (shape1 df)))). }
  rewrite (iloc_fill_rows cell
             (fun zr zc => (zr <? Z.of_nat (length df)) && (zc <? Z.of_nat (shape1 df)))).
  destruct (iloc_in_frame df r c Hrect Hr Hc) as [x Hx].
  destruct (existsb _ (range cmin (cmax + 1))) eqn:Hex.
  - apply existsb_exists in Hex as (zr & Hzr & Hzr').
    apply list_elem_of_In, elem_of_range in Hzr.
    apply andb_prop in Hzr' as [Hzr1%Nat.eqb_eq Hzc].
    apply existsb_exists in Hzc as (zc & Hzc & Hzc').
    apply list_elem_of_In, elem_of_range in Hzc.
    apply andb_prop in Hzc' as [_ Hzc1%Nat.eqb_eq].
    rewrite bool_decide_true by lia. by rewrite Hx.
  - rewrite bool_decide_false; [done|]. intros [Hrow Hcol'].
    apply not_true_iff_false in Hex. apply Hex.
    apply existsb_exists. exists (Z.of_nat r). split.
    { apply list_elem_of_In, elem_of_range. lia. }
    rewrite Nat2Z.id, Nat.eqb_refl. cbn [andb].
    apply existsb_exists. exists (Z.of_nat c). split.
    { apply list_elem_of_In, elem_of_range. lia. }
    rewrite Nat2Z.id, Nat.eqb_refl, andb_true_r.
    apply andb_true_iff. split; apply Z.ltb_lt; lia.
Qed.

(** A region of two rows and two columns, in a frame of object columns. *)
Lemma fill_region_cells_witness :
  let iloc_set := fun df r c v => Ok (with_cell df r c v) in
  length <$> fill_region iloc_set 1 [[VInt 1; VNone]; [VInt 2; VNone]] (1, 1, 2, 2)
    = length <$> [[VInt 1; VNone]; [VInt 2; VNone]] ∧
  iloc (fill_region iloc_set 1 [[VInt 1; VNone]; [VInt 2; VNone]] (1, 1, 2, 2)) 1 1
  = if bool_decide ((1 ≤ Z.of_nat 1 + 1 ≤ 2) ∧ (1 ≤ Z.of_nat 1 + 1 ≤ 2))
    then iloc [[VInt 1; VNone]; [VInt 2; VNone]]
           (Z.to_nat (Z.max 0 (1 - 1))) (Z.to_nat (1 - 1))
    else iloc [[VInt 1; VNone]; [VInt 2; VNone]] 1 1.
Proof.
  intros iloc_set.
  apply (fill_region_cells iloc_set 1 [[VInt 1; VNone]; [VInt 2; VNone]] 1 1 2 2 1 1).
  - repeat constructor.
  - lia.
  - cbn. lia.
  - cbn. lia.
  - reflexivity.
Defined.
End MergedCellFacts.

(** ** Chunk workers: the row-level path *)

Section FallbackFacts.
Context `{PyRuntime}.

Lemma mapM_result_Forall2 {A B} (f : A → result B) (l : list A) l' :
  mapM f l = Ok l' → Forall2 (fun x y => f x = Ok y) l l'.
Proof.
  revert l'. induction l as [|a l IH]; intros l'; cbn.
  - intros [= <-]. constructor.
  - destruct (f a) as [b|e] eqn:Hfa; [|done]. cbn.
    destruct (mapM f l) as [k|e] eqn:Hk; [|done]. cbn.
    intros [= <-]. constructor; [done|by apply IH].
Qed.

Lemma mapM_result_raises {A B} (f : A → result B) (l : list A) x e :
  x ∈ l → f x = Raise e → ∃ e', mapM f l = Raise e'.
Proof.
  intros Hx Hf. destruct (mapM f l) as [l'|e'] eqn:Hm; [|by exists e'].
  destruct (mapM_result_Ok_inv _ _ _ _ Hm Hx) as [y Hy]. congruence.
Qed.

Lemma fallback_cell_None transform_rules header :
  fallback_cell transform_rules header VNone = Ok VNone.
Proof.
  unfold fallback_cell. destruct (transform_rules !! header) as [rule|]; [|done].
  by destruct rule.
Qed.

(** X22: a row that comes out of the row-level path of [process_chunk] has
    exactly one cell per header: cells beyond the headers are cut, and a
    header beyond the end of the row gets [None], rule or no rule. *)
Theorem fallback_row_shape headers transform_rules (cells out : row) :
  fallback_row headers transform_rules cells = Ok out →
  length out = length headers ∧
  ∀ i, (length cells ≤ i < length headers)%nat → out !! i = Some VNone.
Proof.
  unfold fallback_row. intros Hm. split.
  { apply mapM_result_length in Hm. by rewrite length_imap in Hm. }
  intros i [Hi Hlt]. apply mapM_result_Forall2 in Hm.
  apply lookup_lt_is_Some in Hlt as [h Hh].
  assert (imap (fun i h => (i, h)) headers !! i = Some (i, h)) as Hih.
  { by rewrite list_lookup_imap, Hh. }
  destruct (Forall2_lookup_l _ _ _ _ _ Hm Hih) as (y & Hy & Hf).
  cbn in Hf. rewrite (lookup_ge_None_2 cells i) in Hf by lia. cbn in Hf.
  rewrite fallback_cell_None in Hf. congruence.
Qed.

Section Worker.
Variable read_chunk : file_type → Z → nat → result dataframe.
Variable vectorized :
  dataframe → list pystr → gmap pystr pystr → result (list row) * dataframe.
Variable iloc_set : dataframe → nat → nat → pyval → result dataframe.

(** X23: one [replace] rule without a comma empties a chunk on the
    row-level path. When the vectorised path fails and the frame it
    leaves has a cell other than [None] in a column whose rule is
    [replace:] with no comma in its argument, the row-level path raises
    as well and [process_chunk] returns the chunk id with no rows, for
    the coordinator an empty chunk like any other. *)
Theorem process_chunk_malformed_replace chunk_id skiprows nrows headers
    merged_ranges ft transform_rules df e df' i h rule name arg cells v :
  read_chunk ft skiprows nrows = Ok df →
  vectorized
    (dropna_all (match ft with
                 | Excel => foldl (fill_region iloc_set skiprows) df merged_ranges
                 | Csv => df
                 end)) headers transform_rules = (Raise e, df') →
  headers !! i = Some h → transform_rules !! h = Some rule →
  split1 58 rule = (name, Some arg) → lower name = lit "replace" → 44%N ∉ arg →
  cells ∈ df' → cells !! i = Some v → v ≠ VNone →
  process_chunk read_chunk vectorized iloc_set chunk_id skiprows nrows headers
    merged_ranges ft transform_rules = (chunk_id, []).
Proof.
  intros Hread Hvec Hh Hrule Hsplit Hname Harg Hcells Hv Hnn.
  unfold process_chunk. rewrite Hread. cbn [mbind result_bind].
  rewrite Hvec.
  assert (∃ e', fallback_row headers transform_rules cells = Raise e') as [e1 He1].
  { unfold fallback_row.
    apply (mapM_result_raises _ _ (i, h) ValueError).
    - apply list_elem_of_lookup. exists i. by rewrite list_lookup_imap, Hh.
    - cbn. rewrite Hv. cbn. unfold fallback_cell. rewrite Hrule.
      rewrite (proj2 (apply_column_transformation_raises v rule ValueError)); [done|].
      split; [done|]. split; [done|]. exists name, (Some arg).
      split; [done|]. left. by exists arg. }
  destruct (mapM_result_raises _ _ _ _ Hcells He1) as [e2 ->]. done.
Qed.
(** C7: a chunk whose processing fails comes back empty. When the read
    raises, or when the vectorised path raises and the row-level path
    raises on one of the rows, [process_chunk] returns the chunk id with
    no rows instead of raising. The
    coordinator does not store an empty chunk and does not count it: with
    or without that completion the buffer and the row count are the same,
    and the rows written are those of the other chunks. *)
Theorem process_chunk_failure_gives_empty_chunk chunk_id skiprows nrows headers
    merged_ranges ft transform_rules :
  let out := process_chunk read_chunk vectorized iloc_set chunk_id skiprows nrows
               headers merged_ranges ft transform_rules in
  let frame df :=
    dropna_all (match ft with
                | Excel => foldl (fill_region iloc_set skiprows) df merged_ranges
                | Csv => df
                end) in
  (∃ e, read_chunk ft skiprows nrows = Raise e)
  ∨ (∃ df e df' cells e',
       read_chunk ft skiprows nrows = Ok df
       ∧ vectorized (frame df) headers transform_rules = (Raise e, df')
       ∧ cells ∈ df'
       ∧ fallback_row headers transform_rules cells = Raise e') →
  out = (chunk_id, [])
  ∧ (∀ c, Coordinator.store c out = c)
  ∧ (∀ before after,
       Coordinator.collect (before ++ out :: after) = Coordinator.collect (before ++ after))
  ∧ (∀ before after,
       Coordinator.rows_written (before ++ out :: after)
       = Coordinator.rows_written (before ++ after)).
Proof.
  intros out frame Hfail.
  assert (out = (chunk_id, [])) as ->.
  { subst out frame. unfold process_chunk.
    destruct Hfail as [[e Hread]|(df & e & df' & cells & e' & Hread & Hvec & Hin & Hrow)];
      rewrite Hread; [done|].
    cbn [mbind result_bind]. rewrite Hvec.
    destruct (mapM_result_raises _ _ _ _ Hin Hrow) as [e2 ->]. done. }
  assert (∀ before after,
            Coordinator.collect (before ++ (chunk_id, []) :: after)
            = Coordinator.collect (before ++ after)) as Hcollect.
  { intros before after. unfold Coordinator.collect.
    by rewrite !foldl_app. }
  split; [done|]. split; [done|]. split; [done|].
  intros before after.
  unfold Coordinator.rows_written, Coordinator.chunk_data_only.
  by rewrite Hcollect.
Qed.

End Worker.
End FallbackFacts.

Lemma fallback_row_shape_witness :
  length [VInt 1; VNone] = length [lit "a"; lit "b"] ∧
  ∀ i, (length [VInt 1] ≤ i < length [lit "a"; lit "b"])%nat →
       [VInt 1; VNone] !! i = Some VNone.
Proof.
  apply (fallback_row_shape (H := ascii_runtime) [lit "a"; lit "b"]
           {[ lit "b" := lit "uppercase" ]} [VInt 1] [VInt 1; VNone]).
  vm_compute. reflexivity.
Defined.


Lemma process_chunk_malformed_replace_witness :
  process_chunk (H := ascii_runtime)
    (fun _ _ _ => Ok [[VStr (lit "x")]])
    (fun df _ _ => (Raise OtherError, df))
    (fun df r c v => Ok (with_cell df r c v))
    7 1 10 [lit "a"] [] Csv {[ lit "a" := lit "replace:x" ]} = (7%nat, []).
Proof.
  apply (process_chunk_malformed_replace (H := ascii_runtime)
           (fun _ _ _ => Ok [[VStr (lit "x")]])
           (fun df _ _ => (Raise OtherError, df))
           (fun df r c v => Ok (with_cell df r c v))
           7 1 10 [lit "a"] [] Csv {[ lit "a" := lit "replace:x" ]}
           [[VStr (lit "x")]] OtherError [[VStr (lit "x")]] 0 (lit "a")
           (lit "replace:x") (lit "replace") (lit "x") [VStr (lit "x")]
           (VStr (lit "x"))).
  - reflexivity.
  - reflexivity.
  - reflexivity.
  - vm_compute. reflexivity.
  - reflexivity.
  - reflexivity.
  - vm_compute. intros Hin. apply elem_of_cons in Hin as [Hin|Hin]; [done|].
    by apply elem_of_nil in Hin.
  - left.
  - reflexivity.
  - done.
Defined.

(** A [replace] rule without a comma on the row-level path. *)
Lemma process_chunk_failure_gives_empty_chunk_witness :
  let out := process_chunk (H := ascii_runtime)
               (fun _ _ _ => Ok [[VStr (lit "x")]])
               (fun df _ _ => (Raise OtherError, df))
               (fun df r c v => Ok (with_cell df r c v))
               7 1 10 [lit "a"] [] Csv {[ lit "a" := lit "replace:x" ]} in
  out = (7%nat, [])
  ∧ (∀ c, Coordinator.store c out = c)
  ∧ (∀ before after,
       Coordinator.collect (before ++ out :: after) = Coordinator.collect (before ++ after))
  ∧ (∀ before after,
       Coordinator.rows_written (before ++ out :: after)
       = Coordinator.rows_written (before ++ after)).
Proof.
  apply (process_chunk_failure_gives_empty_chunk (H := ascii_runtime)
           (fun _ _ _ => Ok [[VStr (lit "x")]])
           (fun df _ _ => (Raise OtherError, df))
           (fun df r c v => Ok (with_cell df r c v))
           7 1 10 [lit "a"] [] Csv {[ lit "a" := lit "replace:x" ]}).
  right. exists [[VStr (lit "x")]], OtherError, [[VStr (lit "x")]], [VStr (lit "x")],
    ValueError.
  split; [reflexivity|]. split; [reflexivity|]. split; [by left|].
  vm_compute. reflexivity.
Defined.

(** ** The networked backend after a failed write *)

Section MySQLFailure.
Variable accepts : conn → list row → bool.

Lemma filtered_data_total headers (field_mapping : mapping) rows :
  ∃ filtered, MySQL.filtered_data headers field_mapping rows = Ok filtered.
Proof.
  destruct (decide (field_mapping ≠ ∅ ∧ mapped_indices headers field_mapping ≠ []))
    as [[Hm Hi]|Hn].
  - eexists. by apply filtered_data_mapped.
  - eexists. unfold MySQL.filtered_data, truthy_mapping.
    destruct (bool_decide (field_mapping ≠ ∅)) eqn:Hb1; cbn [andb]; [|done].
    destruct (bool_decide (mapped_indices headers field_mapping ≠ [])) eqn:Hb2; [|done].
    apply bool_decide_eq_true in Hb1, Hb2. naive_solver.
Qed.

Lemma batch_size_pos : (0 < MySQL.batch_size)%nat.
Proof. apply Nat.ltb_lt. vm_compute. reflexivity. Qed.

#[local] Opaque MySQL.batch_size.

Lemma batches_before_last (bs len j m : nat) :
  (0 < bs)%nat → (j + S m = (len + bs - 1) / bs)%nat → (j * bs < len)%nat.
Proof.
  intros Hbs Hn.
  pose proof (Nat.div_mod (len + bs - 1) bs ltac:(lia)) as Hdm.
  pose proof (Nat.mod_upper_bound (len + bs - 1) bs ltac:(lia)).
  rewrite <- Hn in Hdm. nia.
Qed.

Lemma tenth_batch (j : nat) :
  (S j mod 10 = 0 → S j / 10 * 10 = S j)%nat.
Proof. intros Hm. pose proof (Nat.div_mod_eq (S j) 10). lia. Qed.

Lemma other_batch (j : nat) :
  (S j mod 10 ≠ 0 → S j / 10 = j / 10)%nat.
Proof.
  intros Hm.
  pose proof (Nat.div_mod_eq (S j) 10). pose proof (Nat.div_mod_eq j 10).
  pose proof (Nat.mod_upper_bound (S j) 10). pose proof (Nat.mod_upper_bound j 10).
  lia.
Qed.

Lemma groups_below (j : nat) : (j / 10 * 10 ≤ j)%nat.
Proof. pose proof (Nat.div_mod_eq j 10). lia. Qed.

(** An accepted batch that is not the last takes the connection from
    [before_batch c0 filtered j] to [before_batch c0 filtered (S j)]. *)
Lemma before_batch_step c0 filtered j :
  (S j * MySQL.batch_size < length filtered)%nat →
  let batch := slice filtered (j * MySQL.batch_size) MySQL.batch_size in
  let c := before_batch c0 filtered j in
  let c1 := {| durable := durable c; pending := pending c ++ batch;
               in_txn := in_txn c; trace := trace c ++ [EInsert (length batch)] |} in
  (if bool_decide (S j mod 10 = 0)%nat then (MySQL.commit c1).2 else c1)
  = before_batch c0 filtered (S j).
Proof.
  intros Hj1 batch c c1.
  pose proof (groups_below j) as Hq.
  assert (length batch = MySQL.batch_size) as Hlen.
  { unfold batch, slice. rewrite length_take, length_drop. cbn [Nat.mul] in Hj1. lia. }
  assert (take (j * MySQL.batch_size) filtered ++ batch
          = take (S j * MySQL.batch_size) filtered) as Hgrow.
  { unfold batch, slice. rewrite take_take_drop. f_equal. cbn [Nat.mul]. lia. }
  assert (j / 10 * (10 * MySQL.batch_size) ≤ j * MySQL.batch_size)%nat as Hle.
  { pose proof (Nat.mul_le_mono_r _ _ MySQL.batch_size Hq).
    rewrite Nat.mul_assoc. lia. }
  unfold c1, c, before_batch. cbn [durable pending in_txn trace batch_statements].
  rewrite Hlen. case_bool_decide as Hmod; cbn [MySQL.commit snd durable pending in_txn trace].
  - pose proof (tenth_batch j Hmod) as Hq'.
    replace (S j / 10 * (10 * MySQL.batch_size))%nat with (S j * MySQL.batch_size)%nat
      by (rewrite Nat.mul_assoc, Hq'; done).
    f_equal.
    + rewrite <- app_assoc. f_equal. rewrite <- Hgrow, app_assoc. f_equal.
      rewrite <- (take_drop (j / 10 * (10 * MySQL.batch_size))
                    (take (j * MySQL.batch_size) filtered)) at 2.
      f_equal. rewrite take_take. f_equal. lia.
    + symmetry. apply drop_ge. rewrite length_take. lia.
    + by rewrite <- !app_assoc.
  - rewrite (other_batch j Hmod). f_equal.
    + rewrite <- Hgrow. rewrite drop_app_le; [done|]. rewrite length_take. lia.
    + by rewrite <- !app_assoc.
Qed.

Lemma write_batches_failure filtered c0 m : ∀ j st,
  (j + m = (length filtered + MySQL.batch_size - 1) / MySQL.batch_size)%nat →
  st.2 = j →
  (∀ i, (i < j)%nat →
     accepts (before_batch c0 filtered i)
       (slice filtered (i * MySQL.batch_size) MySQL.batch_size) = true) →
  ∀ e c', MySQL.write_batches accepts filtered
            ((fun k => (k * MySQL.batch_size)%nat) <$> seq j m) st
            (before_batch c0 filtered j) = (Raise e, c') →
  e = DatabaseError ∧
  ∃ k, (k * MySQL.batch_size < length filtered)%nat
       ∧ (∀ i, (i < k)%nat →
            accepts (before_batch c0 filtered i)
              (slice filtered (i * MySQL.batch_size) MySQL.batch_size) = true)
       ∧ accepts (before_batch c0 filtered k)
           (slice filtered (k * MySQL.batch_size) MySQL.batch_size) = false
       ∧ c' = before_batch c0 filtered k.
Proof.
  pose proof batch_size_pos as Hbs.
  induction m as [|m IH]; intros j st Hn Hst Hbefore e c'; [done|].
  pose proof (batches_before_last _ _ _ _ Hbs Hn) as Hj.
  cbn [seq fmap list_fmap MySQL.write_batches]. unfold executemany.
  destruct (accepts (before_batch c0 filtered j) _) eqn:Hacc; cycle 1.
  { intros [= <- <-]. split; [done|]. by exists j. }
  destruct m as [|m].
  { cbn [seq list_fmap MySQL.write_batches]. done. }
  assert (S j * MySQL.batch_size < length filtered)%nat as Hj1.
  { apply (batches_before_last _ _ _ m Hbs). rewrite <- Hn. lia. }
  rewrite (bool_decide_eq_false_2 (length filtered ≤ _)%nat)
    by (cbn [Nat.mul] in Hj1; lia).
  rewrite orb_false_r. cbn [fst snd]. rewrite Hst.
  replace (j + 1)%nat with (S j) by lia.
  rewrite (before_batch_step c0 filtered j Hj1).
  intros Hrun.
  eapply (fun a b c => IH (S j) _ a b c e c' Hrun); [rewrite <- Hn; lia|done|].
  intros i Hi. destruct (decide (i = j)) as [->|]; [done|]. apply Hbefore. lia.
Qed.

(** X24: what a failed write leaves in the networked backend. [write_data]
    raises only the engine's error, at the first batch the engine
    rejects: the batches before it were accepted, each on the connection
    as the batches before had left it. The rollback then leaves nothing
    pending, and the table keeps exactly the rows of the completed groups
    of ten batches (50,000 rows each) before the rejected one, a proper
    prefix of the data and not nothing once ten batches went through;
    the statements sent are those batches, their commits, and the
    rollback. *)
Theorem mysql_write_data_failure headers data_chunks (field_mapping : mapping) c e c' :
  pending c = [] →
  MySQL.write_data accepts headers data_chunks field_mapping c = (Raise e, c') →
  e = DatabaseError ∧ pending c' = [] ∧
  ∃ filtered j,
    MySQL.filtered_data headers field_mapping (MySQL.all_data data_chunks) = Ok filtered
    ∧ (j * MySQL.batch_size < length filtered)%nat
    ∧ (∀ i, (i < j)%nat →
         accepts (before_batch c filtered i)
           (slice filtered (i * MySQL.batch_size) MySQL.batch_size) = true)
    ∧ accepts (before_batch c filtered j)
        (slice filtered (j * MySQL.batch_size) MySQL.batch_size) = false
    ∧ (j / 10 * (10 * MySQL.batch_size) < length filtered)%nat
    ∧ durable c' = durable c ++ take (j / 10 * (10 * MySQL.batch_size)) filtered
    ∧ in_txn c' = in_txn c
    ∧ trace c' = trace c ++ batch_statements j ++ [ERollback].
Proof.
  intros Hpend. unfold MySQL.write_data.
  destruct (MySQL.all_data data_chunks) as [|r0 rows] eqn:Hall; [done|].
  destruct (filtered_data_total headers field_mapping (r0 :: rows)) as [filtered Hf].
  rewrite Hf.
  assert (c = before_batch c filtered 0) as Hc0.
  { unfold before_batch. cbn [batch_statements].
    change (0 / 10 * (10 * MySQL.batch_size))%nat with 0%nat.
    change (0 * MySQL.batch_size)%nat with 0%nat.
    rewrite take_0, drop_0, !app_nil_r, <- Hpend. by destruct c. }
  rewrite Hc0 at 1.
  destruct (MySQL.write_batches _ _ _ _ _) as [[st|e1] c1] eqn:Hrun; [done|].
  intros [= <- <-]. cbn [MySQL.rollback snd pending durable].
  unfold range_step in Hrun.
  eapply (write_batches_failure filtered c) in Hrun
    as (-> & j & Hj & Hbefore & Hrej & ->); [|cbn; lia|done|intros i Hi; lia].
  split; [done|]. split; [done|]. exists filtered, j.
  split; [done|]. split; [done|]. split; [done|]. split; [done|].
  split.
  { pose proof (groups_below j) as Hq.
    pose proof (Nat.mul_le_mono_r _ _ MySQL.batch_size Hq).
    rewrite Nat.mul_assoc. lia. }
  cbn [before_batch durable in_txn trace]. split; [done|]. split; [done|].
  by rewrite <- app_assoc.
Qed.
End MySQLFailure.

Lemma mysql_write_data_failure_witness :
  let c := {| durable := []; pending := []; in_txn := false; trace := [] |} in
  let c' := {| durable := []; pending := []; in_txn := false; trace := [ERollback] |} in
  let accepts := fun (_ : conn) (_ : list row) => false in
  DatabaseError = DatabaseError ∧ pending c' = [] ∧
  ∃ filtered j,
    MySQL.filtered_data [lit "a"] ∅ (MySQL.all_data [[[VInt 1]]]) = Ok filtered
    ∧ (j * MySQL.batch_size < length filtered)%nat
    ∧ (∀ i, (i < j)%nat →
         accepts (before_batch c filtered i)
           (slice filtered (i * MySQL.batch_size) MySQL.batch_size) = true)
    ∧ accepts (before_batch c filtered j)
        (slice filtered (j * MySQL.batch_size) MySQL.batch_size) = false
    ∧ (j / 10 * (10 * MySQL.batch_size) < length filtered)%nat
    ∧ durable c' = durable c ++ take (j / 10 * (10 * MySQL.batch_size)) filtered
    ∧ in_txn c' = in_txn c
    ∧ trace c' = trace c ++ batch_statements j ++ [ERollback].
Proof.
  intros c c' accepts.
  apply (mysql_write_data_failure accepts [lit "a"] [[[VInt 1]]] ∅ c
           DatabaseError c').
  - reflexivity.
  - vm_compute. reflexivity.
Defined.

(** ** Table creation *)

Section CreateTableFacts.
Context `{PyRuntime}.

Lemma listed_columns_shift (h : pystr) (hs : list pystr) (t : string)
    (ts : list string) a n :
  omap (M := list) (fun i : nat =>
          match (h :: hs) !! i, (t :: ts) !! i return option (pystr * string) with
          | Some x, Some y => Some (x, y)
          | _, _ => None
          end) (seq (S a) n)
  = omap (M := list) (fun i : nat =>
            match hs !! i, ts !! i return option (pystr * string) with
            | Some x, Some y => Some (x, y)
            | _, _ => None
            end) (seq a n).
Proof.
  revert a. induction n as [|n IH]; intros a; [done|].
  cbn [seq omap list_omap]. rewrite IH. done.
Qed.

Lemma listed_columns_0 (hs : list pystr) (ts : list string) :
  listed_columns 0 hs ts = zip hs ts.
Proof.
  unfold listed_columns. rewrite Nat.sub_0_r.
  revert ts. induction hs as [|h hs IH]; intros ts; [done|].
  destruct ts as [|t ts].
  - cbn [zip zip_with]. generalize (seq 0 (length (h :: hs))). intros l.
    induction l as [|i l IHl]; [done|]. cbn [omap list_omap].
    rewrite IHl. by destruct ((h :: hs) !! i).
  - cbn [length seq omap list_omap lookup list_lookup zip zip_with].
    rewrite listed_columns_shift. by rewrite IH.
Qed.

Lemma listed_columns_1 h (hs : list pystr) t (ts : list string) :
  listed_columns 1 (h :: hs) (t :: ts) = zip hs ts.
Proof.
  unfold listed_columns. cbn [length]. rewrite Nat.sub_succ, Nat.sub_0_r.
  rewrite listed_columns_shift. rewrite <- listed_columns_0.
  unfold listed_columns. by rewrite Nat.sub_0_r.
Qed.

Lemma contains_head p c s : contains (c :: p) s = true → c ∈ s.
Proof.
  induction s as [|x s IH]; cbn [contains startswith]; [done|].
  intros [[->%N.eqb_eq _]%andb_prop|Hs]%orb_prop; [left|right; auto].
Qed.

Lemma decimal_digits (d : Decimal.uint) c :
  c ∈ lit (NilEmpty.string_of_uint d) → (48 ≤ c ≤ 57)%N.
Proof.
  unfold lit. induction d; cbn; intros Hin;
    try (by apply elem_of_nil in Hin);
    apply elem_of_cons in Hin as [->|Hin]; auto; lia.
Qed.

Lemma nilzero_digits (d : Decimal.uint) c :
  c ∈ lit (NilZero.string_of_uint d) → (48 ≤ c ≤ 57)%N.
Proof.
  destruct d; try apply decimal_digits.
  intros Hin. vm_compute in Hin. apply elem_of_cons in Hin as [->|Hin]; [lia|].
  by apply elem_of_nil in Hin.
Qed.

Lemma lit_app a b : lit (a ++ b) = lit a ++ lit b.
Proof.
  induction a as [|x a IH]; [done|].
  change (N_of_ascii x :: lit (a ++ b) = N_of_ascii x :: (lit a ++ lit b)).
  by rewrite IH.
Qed.

Lemma varchar_no_pk n :
  contains (lit "PRIMARY KEY") (lit ("VARCHAR(" ++ decimal n ++ ")")) = false.
Proof.
  apply not_true_is_false. intros Hc%contains_head.
  change (80%N ∈ lit ("VARCHAR(" ++ decimal n ++ ")")) in Hc.
  rewrite !lit_app in Hc. apply elem_of_app in Hc as [Hc|Hc].
  { vm_compute in Hc. repeat (apply elem_of_cons in Hc as [Hc|Hc]; [done|]).
    by apply elem_of_nil in Hc. }
  apply elem_of_app in Hc as [Hc|Hc].
  - unfold decimal in Hc. apply nilzero_digits in Hc. lia.
  - vm_compute in Hc. apply elem_of_cons in Hc as [Hc|Hc]; [done|].
    by apply elem_of_nil in Hc.
Qed.

Lemma default_type_no_pk db_type :
  contains (lit "PRIMARY KEY") (lit (default_type db_type)) = false.
Proof. unfold default_type. by destruct (is_sqlite db_type). Qed.

Lemma column_type_pk db_type pk i column_data :
  contains (lit "PRIMARY KEY") (lit (column_type db_type pk i column_data)) = true →
  i = 0%nat.
Proof.
  unfold column_type.
  destruct (existsb str_fails column_data); [by rewrite default_type_no_pk|].
  destruct (non_empty column_data); [by rewrite default_type_no_pk|].
  cbv zeta. destruct (decide (i = 0%nat)) as [->|Hi]; [done|].
  rewrite (bool_decide_eq_false_2 (i = 0%nat)) by done. cbn [andb].
  repeat case_bool_decide; destruct (is_sqlite db_type); try done;
    by rewrite varchar_no_pk.
Qed.

Lemma detect_column_types_pk sample_data headers db_type i t :
  detect_column_types sample_data headers db_type !! i = Some t →
  contains (lit "PRIMARY KEY") (lit t) = true → i = 0%nat.
Proof.
  intros Hlook Hpk.
  assert (∀ n j, replicate n (default_type db_type) !! j = Some t → False) as Hrep.
  { intros n j [-> _]%lookup_replicate. by rewrite default_type_no_pk in Hpk. }
  unfold detect_column_types in Hlook.
  destruct sample_data as [|r sample]; [by apply Hrep in Hlook|].
  destruct headers as [|h headers]; [by apply Hrep in Hlook|].
  destruct (filter _ (r :: sample)) as [|r' rows]; [by apply Hrep in Hlook|].
  cbv zeta in Hlook. apply lookup_app_Some in Hlook as [Hlook|[_ Hlook]];
    [|by apply Hrep in Hlook].
  apply list_lookup_imap_Some in Hlook as (column_data & Hcol & ->).
  by apply column_type_pk in Hpk.
Qed.




Lemma filter_first_only {A} (P : A → bool) (l : list A) :
  (∀ i d, l !! i = Some d → P d = true → i = 0%nat) →
  length (List.filter P l)
  = match l with
    | d :: _ => if P d then 1%nat else 0%nat
    | [] => 0%nat
    end.
Proof.
  intros Hfirst. destruct l as [|d l]; [done|]. cbn [List.filter].
  assert (List.filter P l = []) as Hl.
  { assert (∀ i x, l !! i = Some x → P x = false) as Hall.
    { intros i x Hx. apply not_true_is_false. intros Hp.
      by specialize (Hfirst (S i) x Hx Hp). }
    clear Hfirst d. induction l as [|x l IH]; [done|]. cbn [List.filter].
    rewrite (Hall 0%nat x eq_refl). apply IH. intros i y. apply (Hall (S i)). }
  destruct (P d); cbn [length]; by rewrite Hl.
Qed.

(** X25: the table [file_to_database] has a backend create from a sample,
    whichever the backend and the dialect of the types. The statement is
    built without an error. It lists every header once, in order, each
    with the type detected at its position, after an [id] column of the
    backend's own unless the first column was detected as a primary key.
    Exactly one column definition carries PRIMARY KEY. *)
Theorem create_table_columns_spec (db : backend) (sample_data : list row)
    headers db_type :
  let column_types := detect_column_types sample_data headers db_type in
  ∃ defs,
    create_table_columns db sample_data headers db_type = Ok defs
    ∧ defs = (if has_pk column_types then [] else [id_column db])
             ++ zip headers column_types
    ∧ length (zip headers column_types) = length headers
    ∧ length (List.filter (fun d : pystr * string =>
                contains (lit "PRIMARY KEY") (lit d.2)) defs) = 1%nat.
Proof.
  intros column_types. unfold create_table_columns. fold column_types.
  pose proof (detect_column_types_count sample_data headers db_type) as Hlen.
  fold column_types in Hlen.
  pose proof (detect_column_types_pk sample_data headers db_type) as Hpk.
  fold column_types in Hpk. clearbody column_types.
  assert (length (zip headers column_types) = length headers) as Hzip.
  { rewrite length_zip_with. destruct headers; [done|]. lia. }
  assert (∀ i (d : pystr * string), zip headers column_types !! i = Some d →
            contains (lit "PRIMARY KEY") (lit d.2) = true → i = 0%nat) as Hzpk.
  { intros i [h t] Hd Hc. apply lookup_zip_with_Some in Hd as (x & y & [= <- <-] & _ & Hy).
    by apply (Hpk i t). }
  unfold column_defs. destruct (has_pk column_types) eqn:Hhas.
  - destruct column_types as [|t ts]; [done|]. cbn [has_pk] in Hhas.
    destruct headers as [|h hs]; [done|]. cbn [lookup list_lookup].
    rewrite listed_columns_1. eexists. split; [done|]. split; [done|].
    split; [done|]. cbn [app].
    change ((h, t) :: zip hs ts) with (zip (h :: hs) (t :: ts)).
    rewrite filter_first_only by exact Hzpk. cbn [zip zip_with snd]. by rewrite Hhas.
  - rewrite listed_columns_0. eexists. split; [done|]. split; [done|].
    split; [done|]. cbn [app List.filter].
    assert (contains (lit "PRIMARY KEY") (lit (id_column db).2) = true) as ->
      by (by destruct db).
    cbn [length]. f_equal. rewrite filter_first_only by exact Hzpk.
    destruct headers as [|h hs]; [done|]. destruct column_types as [|t ts]; [done|].
    cbn [zip zip_with snd]. cbn [has_pk] in Hhas. by rewrite Hhas.
Qed.
End CreateTableFacts.


(** ** Rule strings of the command line *)

Section ParseFacts.

Lemma split1_fst sep s : sep ∉ (split1 sep s).1.
Proof.
  induction s as [|c s IH]; cbn [split1]; [apply not_elem_of_nil|].
  destruct (N.eqb_spec c sep) as [->|Hne]; [apply not_elem_of_nil|].
  destruct (split1 sep s) as [a b]. cbn in *. apply not_elem_of_cons. done.
Qed.

Lemma split1_parts sep s a b :
  split1 sep s = (a, Some b) → s = a ++ sep :: b.
Proof.
  revert a. induction s as [|c s IH]; intros a; cbn [split1]; [done|].
  destruct (N.eqb_spec c sep) as [->|Hne]; [by intros [= <- <-]|].
  destruct (split1 sep s) as [a' b'] eqn:Hs. intros [= <- ->].
  cbn. f_equal. by apply IH.
Qed.

Lemma split_parts sep s item : item ∈ split sep s → sep ∉ item.
Proof.
  revert item. induction s as [|c s IH]; intros item; cbn [split].
  { intros ->%list_elem_of_singleton. apply not_elem_of_nil. }
  destruct (N.eqb_spec c sep) as [->|Hne].
  - intros [->|Hin]%elem_of_cons; [apply not_elem_of_nil|by apply IH].
  - destruct (split sep s) as [|p ps] eqn:Hs.
    + intros ->%list_elem_of_singleton. apply not_elem_of_cons. split; [done|].
      apply not_elem_of_nil.
    + intros [->|Hin]%elem_of_cons.
      * apply not_elem_of_cons. split; [done|]. apply IH. left.
      * apply IH. by right.
Qed.

Lemma strip_subset (x : N) s : x ∈ strip s → x ∈ s.
Proof.
  unfold strip. destruct (strip_by_segment isspace s) as (a & b & Hs & _).
  intros Hx. rewrite Hs. apply elem_of_app. right. apply elem_of_app. by left.
Qed.

Lemma parse_item_shape item sheet_name column_name rule :
  parse_item item = Some (sheet_name, column_name, rule) →
  sheet_name ≠ [] ∧ column_name ≠ [] ∧ rule ≠ []
  ∧ strip sheet_name = sheet_name ∧ strip column_name = column_name
  ∧ strip rule = rule
  ∧ (58%N ∉ sheet_name) ∧ (58%N ∉ column_name)
  ∧ (∀ x, x ∈ rule → x ∈ item).
Proof.
  unfold parse_item. destruct (strip item) as [|c0 st] eqn:Hst; [done|].
  unfold split3. destruct (split1 58 (c0 :: st)) as [a [rest|]] eqn:Ha; [|done].
  destruct (split1 58 rest) as [b [c|]] eqn:Hb; [|done]. cbv zeta.
  destruct (strip a) as [|a0 a'] eqn:Hsa; [done|].
  destruct (strip b) as [|b0 b'] eqn:Hsb; [done|].
  destruct (strip c) as [|c1 c'] eqn:Hsc; [done|].
  intros [= <- <- <-].
  assert (∀ s, strip (strip s) = strip s) as Hidem by (intros; apply strip_by_idemp).
  repeat split; try done.
  - rewrite <- Hsa. apply Hidem.
  - rewrite <- Hsb. apply Hidem.
  - rewrite <- Hsc. apply Hidem.
  - rewrite <- Hsa. intros Hx%strip_subset.
    pose proof (split1_fst 58 (c0 :: st)) as Hn. rewrite Ha in Hn. done.
  - rewrite <- Hsb. intros Hx%strip_subset.
    pose proof (split1_fst 58 rest) as Hn. rewrite Hb in Hn. done.
  - intros x Hx. rewrite <- Hsc in Hx. apply strip_subset in Hx.
    apply strip_subset. rewrite Hst.
    rewrite (split1_parts _ _ _ _ Ha), (split1_parts _ _ _ _ Hb).
    apply elem_of_app. right. right. apply elem_of_app. right. by right.
Qed.

Lemma lookup_store_rule transforms s c r sheet_name column_name :
  (store_rule transforms (s, c, r) !! sheet_name) ≫= (fun m => m !! column_name)
  = if bool_decide (s = sheet_name ∧ c = column_name) then Some r
    else (transforms !! sheet_name) ≫= (fun m => m !! column_name).
Proof.
  unfold store_rule. destruct (decide (s = sheet_name)) as [->|Hs].
  - rewrite lookup_insert_eq. cbn. destruct (decide (c = column_name)) as [->|Hc].
    + rewrite lookup_insert_eq. by rewrite bool_decide_true.
    + rewrite lookup_insert_ne by done. rewrite bool_decide_false by naive_solver.
      by destruct (transforms !! sheet_name).
  - rewrite lookup_insert_ne by done. by rewrite bool_decide_false by naive_solver.
Qed.

Lemma lookup_parse_from transforms items sheet_name column_name :
  (foldl (fun transforms item =>
            match parse_item item with
            | Some entry => store_rule transforms entry
            | None => transforms
            end) transforms items !! sheet_name) ≫= (fun m => m !! column_name)
  = match last (omap (rule_for sheet_name column_name) items) with
    | Some rule => Some rule
    | None => (transforms !! sheet_name) ≫= (fun m => m !! column_name)
    end.
Proof.
  revert transforms. induction items as [|item items IH]; intros transforms; [done|].
  cbn [foldl omap list_omap]. rewrite IH. unfold rule_for at 2.
  destruct (parse_item item) as [[[s c] r]|]; [|done].
  rewrite lookup_store_rule. case_bool_decide; [|done].
  rewrite last_cons. by destruct (last _).
Qed.

Lemma parse_column_transform_stored transform_str sheet_name column_name :
  (parse_column_transform transform_str !! sheet_name) ≫= (fun m => m !! column_name)
  = last (omap (rule_for sheet_name column_name) (split 59 transform_str)).
Proof.
  unfold parse_column_transform. destruct transform_str as [|c0 s]; [done|].
  rewrite lookup_parse_from. rewrite lookup_empty. by destruct (last _).
Qed.

(** X26: what [parse_column_transform] holds for a column of a sheet is the
    rule of the last item of the string, items being separated by
    semicolons, that names this sheet and this column and is not skipped;
    nothing when there is no such item. *)
Theorem parse_column_transform_last_wins transform_str sheet_name column_name :
  (parse_column_transform transform_str !! sheet_name) ≫= (fun m => m !! column_name)
  = last (omap (rule_for sheet_name column_name) (split 59 transform_str)).
Proof. apply parse_column_transform_stored. Qed.

(** X27: every entry [parse_column_transform] stores has a sheet name, a
    column name and a rule that are not empty and carry no surrounding
    whitespace; the names contain no colon and the rule no semicolon (it
    may contain colons). *)
Theorem parse_column_transform_entries transform_str sheet_name m column_name rule :
  parse_column_transform transform_str !! sheet_name = Some m →
  m !! column_name = Some rule →
  sheet_name ≠ [] ∧ column_name ≠ [] ∧ rule ≠ []
  ∧ strip sheet_name = sheet_name ∧ strip column_name = column_name
  ∧ strip rule = rule
  ∧ (58%N ∉ sheet_name) ∧ (58%N ∉ column_name) ∧ (59%N ∉ rule).
Proof.
  intros Hm Hr.
  pose proof (parse_column_transform_stored transform_str sheet_name column_name) as Hl.
  rewrite Hm in Hl. cbn in Hl. rewrite Hr in Hl. symmetry in Hl.
  apply last_Some_elem_of in Hl.
  apply list_elem_of_omap in Hl as (item & Hitem & Hrule).
  unfold rule_for in Hrule. destruct (parse_item item) as [[[s c] r]|] eqn:Hp; [|done].
  case_bool_decide as Hsc; [|done]. destruct Hsc as [-> ->]. injection Hrule as ->.
  apply parse_item_shape in Hp as (? & ? & ? & ? & ? & ? & ? & ? & Hsub).
  repeat split; try done.
  intros Hx%Hsub. by apply split_parts in Hitem.
Qed.
End ParseFacts.

Lemma parse_column_transform_entries_witness :
  lit "S" ≠ [] ∧ lit "c" ≠ [] ∧ lit "prefix:A" ≠ []
  ∧ strip (lit "S") = lit "S" ∧ strip (lit "c") = lit "c"
  ∧ strip (lit "prefix:A") = lit "prefix:A"
  ∧ (58%N ∉ lit "S") ∧ (58%N ∉ lit "c") ∧ (59%N ∉ lit "prefix:A").
Proof.
  apply (parse_column_transform_entries (lit "S:c:trim; S : c : prefix:A ;x")
           (lit "S") {[ lit "c" := lit "prefix:A" ]} (lit "c") (lit "prefix:A")).
  - vm_compute. reflexivity.
  - vm_compute. reflexivity.
Defined.

(** ** A sheet from the chunks to the table *)

Section SheetImport.
Context `{PyRuntime}.
Import Coordinator.
Variable accepts : conn → list row → bool.
Hypothesis accepts_all : ∀ c rows, accepts c rows = true.

Lemma write_chunks_unmapped_accepting headers (data_chunks : list (list row)) :
  ∀ st c, in_txn c = true →
  ∃ st' c',
    SQLite.write_chunks accepts headers ∅ data_chunks st c = (Ok st', c')
    ∧ in_txn c' = true
    ∧ st'.1 = (st.1 + length (concat data_chunks))%nat
    ∧ durable c' ++ pending c' = durable c ++ pending c ++ concat data_chunks.
Proof.
  induction data_chunks as [|chunk_data rest IH]; intros st c Htxn.
  { exists st, c. cbn [SQLite.write_chunks concat length]. rewrite !app_nil_r.
    repeat split; [done|lia]. }
  rewrite write_chunks_cons.
  assert (∃ st1 c1,
    SQLite.write_chunk accepts headers ∅ chunk_data st c = (Ok st1, c1)
    ∧ in_txn c1 = true
    ∧ st1.1 = (st.1 + length chunk_data)%nat
    ∧ durable c1 ++ pending c1 = durable c ++ pending c ++ chunk_data)
    as (st1 & c1 & -> & Htxn1 & Hst1 & Hrows1).
  { destruct chunk_data as [|r chunk_data].
    { exists st, c. cbn [SQLite.write_chunk length]. rewrite !app_nil_r.
      repeat split; [done|lia]. }
    unfold SQLite.write_chunk, SQLite.chunk_rows, truthy_mapping.
    rewrite bool_decide_eq_false_2 by (by intros []).
    unfold executemany. rewrite accepts_all. cbn [fst snd].
    case_bool_decide.
    - unfold SQLite.commit, SQLite.begin_transaction.
      cbn [in_txn durable pending trace]. rewrite Htxn. cbn [in_txn].
      eexists _, _. split; [reflexivity|]. cbn [in_txn durable pending fst].
      rewrite app_nil_r, app_assoc. done.
    - eexists _, _. split; [reflexivity|]. cbn [in_txn durable pending fst].
      by rewrite app_assoc. }
  destruct (IH st1 c1 Htxn1) as (st' & c' & -> & Htxn' & Hst' & Hrows').
  exists st', c'. split; [done|]. split; [done|]. cbn [concat].
  rewrite length_app, Hst', Hst1, Hrows'.
  split; [lia|]. rewrite (app_assoc (durable c1)), Hrows1, <- !app_assoc. done.
Qed.

(** X28: a sheet through the coordinator and the embedded backend, without
    a field mapping and with an engine that accepts every statement:
    whatever the order in which the chunks complete, the write returns the
    row count the coordinator reports, and the table holds what it held
    followed by the rows of the chunks in ascending chunk index, the
    source order; no transaction is left open. *)
Theorem sqlite_imports_sheet_in_order headers
    (results : list (list row)) (completed : list chunk_result) c :
  completed ≡ₚ tagged results →
  in_txn c = false →
  ∃ c', SQLite.write_data accepts headers (chunk_data_only completed) ∅ c
        = (Ok (processed_rows (collect completed)), c')
    ∧ durable c' = durable c ++ concat results
    ∧ pending c' = [] ∧ in_txn c' = false.
Proof.
  intros Hperm Hout.
  assert (chunk_data_only completed = filter (fun d => d ≠ []) results) as Hc.
  { unfold chunk_data_only. rewrite (sorted_chunks_collect _ results Hperm).
    apply (filter_tagged_snd_from id). }
  assert (processed_rows (collect completed) = length (concat results)) as Hn.
  { unfold collect. rewrite processed_rows_collect_from. cbn [processed_rows].
    rewrite Hperm. unfold tagged. rewrite fmap_imap.
    rewrite (imap_ext _ (const length)) by done.
    rewrite imap_const. apply sum_list_lengths. }
  rewrite Hc, Hn. unfold SQLite.write_data, SQLite.begin_transaction. rewrite Hout.
  match goal with
  | |- context [SQLite.write_chunks _ _ _ ?d ?st ?c1] =>
      destruct (write_chunks_unmapped_accepting headers d st c1 eq_refl)
        as (st' & c2 & -> & Htxn & Hst & Hrows)
  end.
  unfold SQLite.commit. rewrite Htxn. eexists. split.
  { rewrite Hst, concat_filter_nonempty. reflexivity. }
  cbn [durable pending in_txn] in *. rewrite Hrows, concat_filter_nonempty.
  by rewrite app_nil_l.
Qed.
End SheetImport.

(** Three chunks completing in the order 2, 0, 1. *)
Lemma sqlite_imports_sheet_in_order_witness :
  let results := [[[VInt 1]; [VInt 2]]; [[VInt 3]; [VInt 4]]; [[VInt 5]]] in
  let completed := [(2%nat, [[VInt 5]]); (0%nat, [[VInt 1]; [VInt 2]]);
                    (1%nat, [[VInt 3]; [VInt 4]])] in
  let c := {| durable := []; pending := []; in_txn := false; trace := [] |} in
  ∃ c', SQLite.write_data (H := ascii_runtime) (fun _ _ => true) [lit "a"]
          (Coordinator.chunk_data_only completed) ∅ c
        = (Ok (Coordinator.processed_rows (Coordinator.collect completed)), c')
    ∧ durable c' = durable c ++ concat results
    ∧ pending c' = [] ∧ in_txn c' = false.
Proof.
  intros results completed c.
  apply (sqlite_imports_sheet_in_order (H := ascii_runtime) (fun _ _ => true)
           (fun _ _ => eq_refl) [lit "a"] results completed c).
  - unfold completed, results, Coordinator.tagged. simpl.
    etrans; [apply Permutation_swap|]. apply perm_skip, Permutation_swap.
  - reflexivity.
Defined.

(** ** Header cleaning without collisions *)

Section HeaderNames.
Context `{PyRuntime}.

Lemma unique_name_free fuel base k col cleaned :
  col ∉ cleaned → unique_name fuel base k col cleaned = Some col.
Proof. intros Hn. destruct fuel; cbn [unique_name]; by rewrite bool_decide_false. Qed.

Lemma clean_header_from_distinct header : ∀ i cleaned bases,
  Forall2 (fun ic b => base_name ic.1 ic.2 = Ok b)
    (imap (fun j col => ((i + j)%nat, col)) header) bases →
  NoDup (cleaned ++ bases) →
  clean_header_from i header cleaned = Some (Ok (cleaned ++ bases)).
Proof.
  induction header as [|col rest IH]; intros i cleaned bases Hb Hnd.
  { apply Forall2_nil_inv_l in Hb as ->. by rewrite app_nil_r. }
  rewrite imap_cons in Hb. apply Forall2_cons_inv_l in Hb as (b & bases' & Hb0 & Hb & ->).
  cbn [fst snd] in Hb0. rewrite Nat.add_0_r in Hb0.
  cbn [clean_header_from]. rewrite Hb0.
  assert (b ∉ cleaned) as Hfree.
  { apply NoDup_app in Hnd as (_ & Hdisj & _). intros Hin.
    apply (Hdisj b Hin). left. }
  rewrite unique_name_free by done.
  rewrite (IH (S i) (cleaned ++ [b]) bases').
  - by rewrite <- app_assoc.
  - assert (imap ((fun j col => ((i + j)%nat, col)) ∘ S) rest
            = imap (fun j col => ((S i + j)%nat, col)) rest) as <-; [|exact Hb].
    apply imap_ext. intros j x _. cbn. f_equal. lia.
  - by rewrite <- app_assoc.
Qed.

(** X29: the header cleaning renames only on a collision: when the names
    the cells get by themselves (the sanitised text, or [Column_n] for a
    blank cell) are pairwise distinct, the cleaned header is these names,
    unchanged. *)
Theorem clean_header_keeps_distinct_names (header : list pyval) bases :
  Forall2 (fun ic b => base_name ic.1 ic.2 = Ok b)
    (imap (fun i col => (i, col)) header) bases →
  NoDup bases →
  clean_header header = Some (Ok bases).
Proof.
  intros Hb Hnd. unfold clean_header.
  by rewrite (clean_header_from_distinct header 0 [] bases).
Qed.
End HeaderNames.

Lemma clean_header_keeps_distinct_names_witness :
  clean_header (H := ascii_runtime) [VStr (lit "first name"); VNone]
  = Some (Ok [lit "first_name"; lit "Column_2"]).
Proof.
  apply (clean_header_keeps_distinct_names (H := ascii_runtime)
           [VStr (lit "first name"); VNone] [lit "first_name"; lit "Column_2"]).
  - repeat constructor; vm_compute; reflexivity.
  - apply NoDup_cons. split; [|apply NoDup_singleton].
    intros Hin%list_elem_of_singleton. vm_compute in Hin. discriminate.
Defined.

(** ** Inline field mappings *)

Section InlineMappingFacts.

Lemma last_app_match {A} (l k : list A) :
  last (l ++ k) = match last k with Some y => Some y | None => last l end.
Proof. apply last_app. Qed.

Lemma lookup_store_pair sh mapping pair sheet_name excel_col :
  (store_pair sh mapping pair !! sheet_name) ≫= (fun m => m !! excel_col)
  = match ((fun kv : pystr * pystr => (sh, kv.1, kv.2)) <$> parse_pair pair)
            ≫= mapped_to sheet_name excel_col with
    | Some v => Some v
    | None => (mapping !! sheet_name) ≫= (fun m => m !! excel_col)
    end.
Proof.
  unfold store_pair. destruct (parse_pair pair) as [[k v]|]; [|done].
  cbn. unfold mapped_to. cbn [fst snd].
  destruct (decide (sh = sheet_name)) as [->|Hs].
  - rewrite lookup_insert_eq. cbn. destruct (decide (k = excel_col)) as [->|Hc].
    + rewrite lookup_insert_eq. by rewrite bool_decide_true.
    + rewrite lookup_insert_ne by done. rewrite bool_decide_false by naive_solver.
      by destruct (mapping !! sheet_name).
  - rewrite lookup_insert_ne by done. by rewrite bool_decide_false by naive_solver.
Qed.

Lemma lookup_store_pairs sh pairs : ∀ mapping sheet_name excel_col,
  (foldl (store_pair sh) mapping pairs !! sheet_name) ≫= (fun m => m !! excel_col)
  = match last (omap (mapped_to sheet_name excel_col)
                  (omap (fun pair =>
                           (fun kv : pystr * pystr => (sh, kv.1, kv.2))
                             <$> parse_pair pair) pairs)) with
    | Some v => Some v
    | None => (mapping !! sheet_name) ≫= (fun m => m !! excel_col)
    end.
Proof.
  induction pairs as [|pair pairs IH]; intros mapping sheet_name excel_col; [done|].
  cbn [foldl omap list_omap]. rewrite IH, lookup_store_pair.
  destruct (parse_pair pair) as [kv|]; cbn; [|done].
  destruct (mapped_to sheet_name excel_col (sh, kv.1, kv.2)) as [v|]; [|done].
  rewrite last_cons. by destruct (last _).
Qed.

Lemma lookup_parse_sheet_mapping mapping item sheet_name excel_col :
  (parse_sheet_mapping mapping item !! sheet_name) ≫= (fun m => m !! excel_col)
  = match last (omap (mapped_to sheet_name excel_col) (sheet_pairs item)) with
    | Some v => Some v
    | None => (mapping !! sheet_name) ≫= (fun m => m !! excel_col)
    end.
Proof.
  unfold parse_sheet_mapping, sheet_pairs.
  destruct (strip item) as [|c0 st]; [done|].
  destruct (split1 58 (c0 :: st)) as [sh [cm|]]; [|done]. cbv zeta.
  rewrite lookup_store_pairs. destruct (last _); [done|].
  destruct (mapping !! strip sh) eqn:Hsh; [done|].
  destruct (decide (strip sh = sheet_name)) as [<-|Hne].
  - by rewrite lookup_insert_eq, Hsh.
  - by rewrite lookup_insert_ne.
Qed.

Lemma lookup_parse_sheets items : ∀ mapping sheet_name excel_col,
  (foldl parse_sheet_mapping mapping items !! sheet_name) ≫= (fun m => m !! excel_col)
  = match last (omap (mapped_to sheet_name excel_col) (items ≫= sheet_pairs)) with
    | Some v => Some v
    | None => (mapping !! sheet_name) ≫= (fun m => m !! excel_col)
    end.
Proof.
  induction items as [|item items IH]; intros mapping sheet_name excel_col; [done|].
  cbn [foldl]. rewrite IH, lookup_parse_sheet_mapping.
  rewrite bind_cons, omap_app, last_app_match. by destruct (last _).
Qed.

(** X30: what [parse_inline_mapping] holds for a column of a sheet is the
    target of the last pair, over the whole string, that is given for
    this sheet name and this column and is not skipped; a later item for
    the same sheet adds to the earlier ones and overrides them pair by
    pair. *)
Theorem parse_inline_mapping_last_wins mapping_str sheet_name excel_col :
  (parse_inline_mapping mapping_str !! sheet_name) ≫= (fun m => m !! excel_col)
  = last (omap (mapped_to sheet_name excel_col)
            (split 59 mapping_str ≫= sheet_pairs)).
Proof.
  unfold parse_inline_mapping. rewrite lookup_parse_sheets, lookup_empty.
  by destruct (last _).
Qed.
End InlineMappingFacts.
